(** * oci-context: the context store, the daemon protocol, the commands
    and the interactive picker, embedded from the Go sources.

    The Go packages are embedded first, one module per package: [config]
    (pkg/config), [ipcmsg] (pkg/ipc), [ipc] (internal/ipc), [daemon]
    (internal/daemon), [oci], [ocicfg] (with [gostrings], the functions of
    Go's strings package its parser calls) and [cmd] (internal/cmd: the
    commands and the picker). The properties follow: the store, the
    connection protocol, the daemon's export, the tenancy rows and the
    picker; then further properties of the store, the daemon's handler, the
    connection loop, the commands, the profile parser and the picker. *)

From Stdlib Require Import ZArith String Ascii List Lia.
From Stdlib.Strings Require Import Byte.
From stdpp Require Import base option list strings gmap sorting.

Open Scope string_scope.
Open Scope list_scope.
Open Scope nat_scope.

(** Go [error] values are represented by their message. *)
Definition error := string.

#[global] Instance byte_eq_dec : EqDecision Byte.byte := Byte.byte_eq_dec.

(* ===================================================================== *)
(** ** pkg/config/config.go *)
(* ===================================================================== *)
Module config.

Record Options := mkOptions {
  OCIConfigPath : string;
  SocketPath : string;
  DefaultProfile : string
}.

Record Context := mkContext {
  Name : string;
  Profile : string;
  TenancyOCID : string;
  CompartmentOCID : string;
  Region : string;
  User : string;
  Notes : string
}.

(** The Go field [Options Options] is called [cOptions] here: Rocq keeps
    types and projections in one name space. *)
Record Config := mkConfig {
  cOptions : Options;
  Contexts : list Context;
  CurrentContext : string
}.

#[global] Instance Options_eq_dec : EqDecision Options.
Proof. solve_decision. Defined.
#[global] Instance Context_eq_dec : EqDecision Context.
Proof. solve_decision. Defined.
#[global] Instance Config_eq_dec : EqDecision Config.
Proof. solve_decision. Defined.

Definition ErrContextNotFound : error := "context not found".
Definition ErrDuplicateName : error := "context name already exists".

(** [filepath.Join] is only used on the three fixed components below. *)
Definition DefaultConfig (home : string) : Config :=
  {| cOptions := {| OCIConfigPath := home +:+ "/.oci/config";
                    SocketPath := home +:+ "/.oci-context/daemon.sock";
                    DefaultProfile := "" |};
     Contexts := [];
     CurrentContext := "" |}.

(** The loop [for i, existing := range c.Contexts { if existing.Name ==
    name ...] stops at the first match: [list_find] returns that index and
    element. *)
Definition find_by_name (name : string) (cs : list Context)
  : option (nat * Context) :=
  list_find (λ existing, Name existing = name) cs.

Definition GetContext (c : Config) (name : string) : Context + error :=
  match find_by_name name (Contexts c) with
  | Some (_, ctx) => inl ctx
  | None => inr ErrContextNotFound
  end.

(** [UpsertContext] mutates its receiver and returns an [error] that is
    always nil; the embedding returns the new receiver and that error. *)
Definition UpsertContext (ctx : Context) (c : Config) : Config * option error :=
  match find_by_name (Name ctx) (Contexts c) with
  | Some (i, _) =>
      ({| cOptions := cOptions c;
          Contexts := <[i := ctx]> (Contexts c);
          CurrentContext := CurrentContext c |}, None)
  | None =>
      ({| cOptions := cOptions c;
          Contexts := Contexts c ++ [ctx];
          CurrentContext :=
            if decide (CurrentContext c = "") then Name ctx
            else CurrentContext c |}, None)
  end.

(** [append(c.Contexts[:idx], c.Contexts[idx+1:]...)] is the list without
    its element at [idx]. On a missing name the receiver is left as it
    was and [ErrContextNotFound] is returned. *)
Definition DeleteContext (name : string) (c : Config) : Config * option error :=
  match find_by_name name (Contexts c) with
  | None => (c, Some ErrContextNotFound)
  | Some (idx, _) =>
      ({| cOptions := cOptions c;
          Contexts := take idx (Contexts c) ++ drop (S idx) (Contexts c);
          CurrentContext :=
            if decide (CurrentContext c = name) then ""
            else CurrentContext c |}, None)
  end.

Definition Validate (ctx : Context) : option error :=
  if decide (Name ctx = "") then Some "context name is required"
  else if decide (Profile ctx = "") then Some "context profile is required"
  else if decide (TenancyOCID ctx = "") then Some "context tenancy_ocid is required"
  else if decide (CompartmentOCID ctx = "") then Some "context compartment_ocid is required"
  else None.

(** *** The file system as far as [Save] is concerned.

    [Save] takes the advisory lock, marshals and writes the file; it fails
    when the lock or the write fails. Which of the two happens is decided
    by the environment: [faults] lists the outcome of the coming calls
    (an absent entry is a success). [save_calls] records every call. *)
Record World := mkWorld {
  files : gmap string Config;
  save_calls : list (string * Config);
  faults : list (option error)
}.

Definition Save (path : string) (cfg : Config) (w : World) : option error * World :=
  match faults w with
  | Some e :: rest =>
      (Some e, {| files := files w;
                  save_calls := save_calls w ++ [(path, cfg)];
                  faults := rest |})
  | _ =>
      (None, {| files := <[path := cfg]> (files w);
                save_calls := save_calls w ++ [(path, cfg)];
                faults := tail (faults w) |})
  end.

(** *** Sequences of store operations *)
Inductive Op :=
| OpUpsert (ctx : Context)
| OpDelete (name : string).

Definition apply_op (c : Config) (o : Op) : Config :=
  match o with
  | OpUpsert ctx => fst (UpsertContext ctx c)
  | OpDelete name => fst (DeleteContext name c)
  end.

Definition apply_ops (ops : list Op) (c : Config) : Config :=
  foldl apply_op c ops.

Definition names (c : Config) : list string := Name <$> Contexts c.

(** [currentContext] is empty or names a stored context. *)
Definition current_ok (c : Config) : Prop :=
  CurrentContext c = "" ∨ CurrentContext c ∈ names c.

(** The stored contexts called [n], in order. *)
Definition named (n : string) (c : Config) : list Context :=
  filter (λ x, Name x = n) (Contexts c).

(** The two shapes of the store after [UpsertContext ctx]: the first
    context called [Name ctx] is replaced where it stands, or no context has
    that name and [ctx] is appended (and becomes current if none was). *)
Inductive upsert_shape (ctx : Context) (c : Config) : Config → Prop :=
| upsert_replaced l1 x l2 :
    Contexts c = l1 ++ x :: l2 →
    Name x = Name ctx →
    Name ctx ∉ Name <$> l1 →
    upsert_shape ctx c
      (mkConfig (cOptions c) (l1 ++ ctx :: l2) (CurrentContext c))
| upsert_appended :
    Name ctx ∉ names c →
    upsert_shape ctx c
      (mkConfig (cOptions c) (Contexts c ++ [ctx])
         (if decide (CurrentContext c = "") then Name ctx
          else CurrentContext c)).

(** The claim that two upserts of one name leave one stored context of
    that name, the second, in a store that grew by at most one; for one
    store and one pair of contexts. *)
Definition upsert_twice_one_stored (c : Config) (a b : Context) : Prop :=
  Name a = Name b →
  named (Name a) (fst (UpsertContext b (fst (UpsertContext a c)))) = [b] ∧
  length (Contexts (fst (UpsertContext b (fst (UpsertContext a c)))))
    ≤ S (length (Contexts c)).

End config.

(* ===================================================================== *)
(** ** pkg/ipc: the wire entities *)
(* ===================================================================== *)
Module ipcmsg.

(** [json.RawMessage]: the undecoded bytes of the [context] member. *)
Definition RawMessage := list Byte.byte.

Record Request := mkRequest {
  Method : string;
  Name : string;
  Format : string;
  Context : RawMessage
}.

(** The values the daemon puts in [Response.Data] (an [interface{}]):
    a context, the context list, a string-to-string map, or a map from a
    string to a list of lines. *)
Inductive Data :=
| DContext (c : config.Context)
| DContexts (cs : list config.Context)
| DStrings (m : gmap string string)
| DLines (m : gmap string (list string)).

Record Response := mkResponse {
  OK : bool;
  Error : string;
  Data_ : option Data
}.

End ipcmsg.

(* ===================================================================== *)
(** ** internal/ipc/server.go *)
(* ===================================================================== *)
Module ipc.
Import ipcmsg.

Definition ErrNotImplemented : error := "method not implemented".

(** A handler is a Go closure over mutable state; [St] is that state. *)
Definition HandlerFunc (St : Type) := Request → St → (Data + error) * St.

Definition newline : Byte.byte := Byte.x0a.

Section handleConn.
Context {St : Type}.
(** [json.Unmarshal(line, &req)] on a fresh [Request]: [None] is an error.
    The decoder belongs to the Go library; it rejects, among others, every
    line that is not valid JSON. *)
Variable Unmarshal : list Byte.byte → option Request.
Variable handler : HandlerFunc St.

(** The body of the loop after a successful read. [writeResp] marshals the
    response and writes it with a newline; every response built here
    marshals, so the response itself stands for the line written. *)
Definition serve_line (line : list Byte.byte) (s : St) : Response * St :=
  match Unmarshal line with
  | None => (mkResponse false "invalid request" None, s)
  | Some req =>
      match handler req s with
      | (inr err, s') => (mkResponse false err None, s')
      | (inl data, s') => (mkResponse true "" (Some data), s')
      end
  end.

(** [handleConn] on the bytes the peer sends before the stream ends.
    [rw.ReadBytes('\n')] returns the bytes up to and including the next
    newline; when the stream ends first it returns an error (whatever was
    read of an unfinished line is dropped) and the function returns.
    [cur] holds the bytes of the line being read. The result lists the
    responses written, in order, with the final handler state. *)
Fixpoint handleConn_from (cur stream : list Byte.byte) (s : St)
  : list Response * St :=
  match stream with
  | [] => ([], s)
  | b :: rest =>
      if decide (b = newline) then
        let '(resp, s1) := serve_line (cur ++ [b]) s in
        let '(resps, s2) := handleConn_from [] rest s1 in
        (resp :: resps, s2)
      else handleConn_from (cur ++ [b]) rest s
  end.

Definition handleConn (stream : list Byte.byte) (s : St) : list Response * St :=
  handleConn_from [] stream s.

End handleConn.

(** One framed message: the bytes of a line and the newline. *)
Definition framed (line : list Byte.byte) : list Byte.byte := line ++ [newline].

(** Complete lines, one after the other, as they arrive on the stream. *)
Definition wire (lines : list (list Byte.byte)) : list Byte.byte :=
  concat (framed <$> lines).

(** The response the loop writes for a handler result. *)
Definition reply_of (r : Data + error) : Response :=
  match r with
  | inr err => mkResponse false err None
  | inl data => mkResponse true "" (Some data)
  end.

Definition invalid_request : Response := mkResponse false "invalid request" None.

(** *** A decoder for the examples

    It knows the request lines [{"method":"list"}] and
    [{"method":"export"}] and rejects every other line; the Go decoder
    accepts more, and rejects [{not json] as well. *)
Definition dq : string := String "034"%char "".
Definition list_request_text : string :=
  "{" +:+ dq +:+ "method" +:+ dq +:+ ":" +:+ dq +:+ "list" +:+ dq +:+ "}".
Definition export_request_text : string :=
  "{" +:+ dq +:+ "method" +:+ dq +:+ ":" +:+ dq +:+ "export" +:+ dq +:+ "}".

Definition sample_Unmarshal (line : list Byte.byte) : option Request :=
  if decide (line = framed (list_byte_of_string list_request_text))
  then Some (mkRequest "list" "" "" [])
  else if decide (line = framed (list_byte_of_string export_request_text))
  then Some (mkRequest "export" "" "" [])
  else None.

End ipc.

(* ===================================================================== *)
(** ** internal/daemon/daemon.go *)
(* ===================================================================== *)
Module daemon.
Import config ipcmsg.

Record Service := mkService {
  cfgPath : string;
  cfg : Config
}.

(** The state a request handler works on: the service and the files. *)
Definition State := (Service * World)%type.

Definition set_cfg (s : Service) (c : Config) : Service :=
  {| cfgPath := cfgPath s; cfg := c |}.

(** [getCurrent] returns the context as an [interface{}]; [export] asserts
    it back to a [config.Context]. The embedding keeps the context typed
    and [handle] wraps it. *)
Definition getCurrent (s : Service) : config.Context + error :=
  if decide (CurrentContext (cfg s) = "") then inr "no current context set"
  else
    match GetContext (cfg s) (CurrentContext (cfg s)) with
    | inr err => inr err
    | inl ctx => inl ctx
    end.

Definition useContext (name : string) (st : State) : (Data + error) * State :=
  let '(s, w) := st in
  match GetContext (cfg s) name with
  | inr err => (inr err, (s, w))
  | inl _ =>
      let s1 := set_cfg s (mkConfig (cOptions (cfg s)) (Contexts (cfg s)) name) in
      match Save (cfgPath s1) (cfg s1) w with
      | (Some err, w1) => (inr err, (s1, w1))
      | (None, w1) => (inl (DStrings {["current_context" := name]}), (s1, w1))
      end
  end.

Section handle.
(** [json.Unmarshal(raw, &ctx)] into a [config.Context]. *)
Variable UnmarshalContext : RawMessage → config.Context + error.

Definition addContext (raw : RawMessage) (st : State) : (Data + error) * State :=
  let '(s, w) := st in
  match UnmarshalContext raw with
  | inr err => (inr err, (s, w))
  | inl ctx =>
      match Validate ctx with
      | Some err => (inr err, (s, w))
      | None =>
          match UpsertContext ctx (cfg s) with
          | (c1, Some err) => (inr err, (set_cfg s c1, w))
          | (c1, None) =>
              let s1 := set_cfg s c1 in
              match Save (cfgPath s1) (cfg s1) w with
              | (Some err, w1) => (inr err, (s1, w1))
              | (None, w1) => (inl (DContext ctx), (s1, w1))
              end
          end
      end
  end.

Definition deleteContext (name : string) (st : State) : (Data + error) * State :=
  let '(s, w) := st in
  match DeleteContext name (cfg s) with
  | (c1, Some err) => (inr err, (set_cfg s c1, w))
  | (c1, None) =>
      let s1 := set_cfg s c1 in
      match Save (cfgPath s1) (cfg s1) w with
      | (Some err, w1) => (inr err, (s1, w1))
      | (None, w1) => (inl (DStrings {["deleted" := name]}), (s1, w1))
      end
  end.

Definition export (format : string) (s : Service) : Data + error :=
  match getCurrent s with
  | inr err => inr err
  | inl c =>
      if decide (format = "env") then
        let lines := [ "OCI_CLI_PROFILE=" +:+ Profile c;
                       "OCI_TENANCY_OCID=" +:+ TenancyOCID c;
                       "OCI_COMPARTMENT_OCID=" +:+ CompartmentOCID c ] in
        let lines :=
          if decide (Region c ≠ "") then lines ++ ["OCI_REGION=" +:+ Region c]
          else lines in
        inl (DLines {["env" := lines]})
      else if decide (format = "json" ∨ format = "") then inl (DContext c)
      else inr ("unsupported format: " +:+ format)
  end.

Definition handle : ipc.HandlerFunc State := λ req st,
  if decide (Method req = "get_current") then
    (match getCurrent (fst st) with
     | inl c => inl (DContext c) | inr e => inr e end, st)
  else if decide (Method req = "list") then
    (inl (DContexts (Contexts (cfg (fst st)))), st)
  else if decide (Method req = "use_context") then useContext (ipcmsg.Name req) st
  else if decide (Method req = "add_context") then addContext (ipcmsg.Context req) st
  else if decide (Method req = "delete_context") then deleteContext (ipcmsg.Name req) st
  else if decide (Method req = "export") then (export (Format req) (fst st), st)
  else (inr ipc.ErrNotImplemented, st).

End handle.

(** The error [export] gives for a format it does not know. *)
Definition unsupported (format : string) : error :=
  "unsupported format: " +:+ format.

(** The file at the service's path holds the configuration in memory. *)
Definition synced (st : State) : Prop :=
  files st.2 !! cfgPath st.1 = Some (cfg st.1).

(** The methods that change the store. *)
Definition mutating : list string :=
  ["use_context"; "add_context"; "delete_context"].

(** A context decoder for the examples: it rejects every payload. *)
Definition sample_UnmarshalContext (raw : RawMessage) : config.Context + error :=
  inr "unexpected end of JSON input".

End daemon.

(* ===================================================================== *)
(** ** pkg/oci: the compartment record *)
(* ===================================================================== *)
Module oci.

Record Compartment := mkCompartment {
  ID : string;
  Name : string;
  Status : string;
  Parent : string
}.

#[global] Instance Compartment_eq_dec : EqDecision Compartment.
Proof. solve_decision. Defined.

End oci.

(* ===================================================================== *)
(** ** The functions of Go's [strings] package that the profile parser calls

    A Go string is a sequence of bytes; the functions below work on the
    bytes of a [string]. *)
(* ===================================================================== *)
Module gostrings.

Definition bytes (s : string) : list ascii := list_ascii_of_string s.
Definition str (l : list ascii) : string := string_of_list_ascii l.

Definition HasPrefix (s prefix : string) : bool :=
  bool_decide (bytes prefix `prefix_of` bytes s).

Definition HasSuffix (s suffix : string) : bool :=
  bool_decide (bytes suffix `suffix_of` bytes s).

Definition code (a : ascii) : N := N_of_ascii a.

(** [unicode.IsSpace] on UTF-8: the white-space runes are U+0009 to
    U+000D and U+0020, of one byte; U+0085 and U+00A0, of two bytes (C2 85,
    C2 A0); and U+1680, U+2000 to U+200A, U+2028, U+2029, U+202F, U+205F
    and U+3000, of three bytes (E1 9A 80; E2 80 80 to E2 80 8A, E2 80 A8,
    E2 80 A9, E2 80 AF; E2 81 9F; E3 80 80). *)
Definition is_space1 (a : ascii) : bool :=
  bool_decide ((9 ≤ code a ∧ code a ≤ 13) ∨ code a = 32)%N.

Definition is_space2 (a b : ascii) : bool :=
  bool_decide (code a = 194 ∧ (code b = 133 ∨ code b = 160))%N.

Definition is_space3 (a b c : ascii) : bool :=
  bool_decide
    ((code a = 225 ∧ code b = 154 ∧ code c = 128) ∨
     (code a = 226 ∧ code b = 128 ∧
        ((128 ≤ code c ∧ code c ≤ 138) ∨ code c = 168 ∨ code c = 169 ∨ code c = 175)) ∨
     (code a = 226 ∧ code b = 129 ∧ code c = 159) ∨
     (code a = 227 ∧ code b = 128 ∧ code c = 128))%N.

(** The number of bytes of the white-space rune the bytes start with, 0
    when they start with another rune, with a byte that starts no rune, or
    are empty: [utf8.DecodeRuneInString] followed by [unicode.IsSpace]. *)
Definition leading_space (l : list ascii) : nat :=
  match l with
  | a :: rest =>
      if is_space1 a then 1
      else match rest with
           | b :: rest' =>
               if is_space2 a b then 2
               else match rest' with
                    | c :: _ => if is_space3 a b c then 3 else 0
                    | [] => 0
                    end
           | [] => 0
           end
  | [] => 0
  end.

(** The same for the rune the bytes end with, on the bytes in reverse
    order: [utf8.DecodeLastRuneInString] followed by [unicode.IsSpace]. *)
Definition trailing_space (r : list ascii) : nat :=
  match r with
  | c :: rest =>
      if is_space1 c then 1
      else match rest with
           | b :: rest' =>
               if is_space2 b c then 2
               else match rest' with
                    | a :: _ => if is_space3 a b c then 3 else 0
                    | [] => 0
                    end
           | [] => 0
           end
  | [] => 0
  end.

(** A byte that is no white space and is no part of a rune of several
    bytes. *)
Definition printable (a : ascii) : Prop :=
  is_space1 a = false ∧ (code a < 128)%N.

(** White-space runes are dropped while there is one; every round drops
    at least one byte, so as many rounds as there are bytes are enough. *)
Fixpoint drop_while_space (width : list ascii → nat) (rounds : nat)
    (l : list ascii) : list ascii :=
  match rounds with
  | 0 => l
  | S rounds =>
      match width l with
      | 0 => l
      | n => drop_while_space width rounds (drop n l)
      end
  end.

Definition trim_leading (l : list ascii) : list ascii :=
  drop_while_space leading_space (length l) l.

Definition trim_trailing (l : list ascii) : list ascii :=
  reverse (drop_while_space trailing_space (length l) (reverse l)).

(** [strings.TrimSpace]. *)
Definition TrimSpace (s : string) : string :=
  str (trim_trailing (trim_leading (bytes s))).

(** The bytes before and after the first occurrence of the byte [sep]. *)
Fixpoint cut (sep : ascii) (l : list ascii) : option (list ascii * list ascii) :=
  match l with
  | [] => None
  | a :: l' =>
      if decide (a = sep) then Some ([], l')
      else (λ xy, (a :: xy.1, xy.2)) <$> cut sep l'
  end.

(** [strings.SplitN(s, sep, 2)] for a separator of one byte. *)
Definition SplitN_2 (s : string) (sep : ascii) : list string :=
  match cut sep (bytes s) with
  | None => [s]
  | Some (x, y) => [str x; str y]
  end.

(** [s[1 : len(s)-1]] for a string of two bytes or more. *)
Definition inner (s : string) : string :=
  str (take (length (bytes s) - 2) (drop 1 (bytes s))).

End gostrings.

(* ===================================================================== *)
(** ** pkg/ocicfg/parse.go *)
(* ===================================================================== *)
Module ocicfg.
Import gostrings.

Record Profile := mkProfile {
  User : string;
  Tenancy : string;
  Region : string
}.

#[global] Instance Profile_eq_dec : EqDecision Profile.
Proof. solve_decision. Defined.

(** [Profile{}]. *)
Definition zero : Profile := mkProfile "" "" "".

(** The [switch key] of the scanning loop. *)
Definition set_key (key val : string) (p : Profile) : Profile :=
  if decide (key = "user") then mkProfile val (Tenancy p) (Region p)
  else if decide (key = "tenancy") then mkProfile (User p) val (Region p)
  else if decide (key = "region") then mkProfile (User p) (Tenancy p) val
  else p.

(** One round of the scanning loop of [LoadProfiles] on the line
    [scanner.Text()] gives; the state is the map [profiles] and the
    variable [current]. *)
Definition scan_line (st : gmap string Profile * string) (text : string)
  : gmap string Profile * string :=
  let '(profiles, current) := st in
  let line := TrimSpace text in
  if decide (line = "") then st
  else if HasPrefix line "#" then st
  else if HasPrefix line ";" then st
  else if HasPrefix line "[" && HasSuffix line "]" then
    let current := TrimSpace (inner line) in
    (match profiles !! current with
     | Some _ => profiles
     | None => <[current := zero]> profiles
     end, current)
  else
    match SplitN_2 line "="%char with
    | [k; v] =>
        if decide (current = "") then st
        else
          let p := default zero (profiles !! current) in
          (<[current := set_key (TrimSpace k) (TrimSpace v) p]> profiles, current)
    | _ => st
    end.

Definition scan (texts : list string) : gmap string Profile * string :=
  foldl scan_line (∅, "") texts.

Definition missing (name what : string) : error :=
  "profile " +:+ name +:+ " missing " +:+ what.

(** The validation loop [for name, p := range profiles], over the
    profiles in the order [entries] in which the map is ranged over. *)
Fixpoint validate_ranged (entries : list (string * Profile))
    (profiles : gmap string Profile) : gmap string Profile + error :=
  match entries with
  | [] => inl profiles
  | (name, p) :: rest =>
      if decide (Tenancy p = "") then inr (missing name "tenancy")
      else if decide (Region p = "") then inr (missing name "region")
      else
        validate_ranged rest
          (if decide (User p = "")
           then <[name := mkProfile (Tenancy p) (Tenancy p) (Region p)]> profiles
           else profiles)
  end.

(** [LoadProfiles] on what the file system gives for the path: the error
    of [os.Open], or the lines the scanner reads (without their line ends)
    with the error the scanner ends on, if any. On an error the function
    returns a nil map. *)
Definition LoadProfiles (file : list string * option error + error)
  : gmap string Profile + error :=
  match file with
  | inr err => inr err
  | inl (texts, scan_err) =>
      let profiles := (scan texts).1 in
      match scan_err with
      | Some err => inr err
      | None => validate_ranged (map_to_list profiles) profiles
      end
  end.

(** A profile as [LoadProfiles] returns it: a missing user is the
    tenancy. *)
Definition with_user (p : Profile) : Profile :=
  mkProfile (if decide (User p = "") then Tenancy p else User p)
            (Tenancy p) (Region p).

Definition complete (p : Profile) : Prop :=
  Tenancy p ≠ "" ∧ Region p ≠ "".

(** The profile of the empty name is never given a key. *)
Definition unnamed_is_zero (profiles : gmap string Profile) : Prop :=
  ∀ p, profiles !! "" = Some p → p = zero.

(** A line the scanning loop passes over: blank, a comment, or neither a
    section header nor a line with [=]. *)
Definition passed_over (text : string) : Prop :=
  let line := TrimSpace text in
  line = "" ∨ HasPrefix line "#" = true ∨ HasPrefix line ";" = true ∨
  (HasPrefix line "[" && HasSuffix line "]" = false ∧
   cut "="%char (bytes line) = None).

(** The four lines of a section that gives all three keys. *)
Definition section_lines (sec : string * Profile) : list string :=
  [ "[" +:+ sec.1 +:+ "]";
    "user=" +:+ User sec.2;
    "tenancy=" +:+ Tenancy sec.2;
    "region=" +:+ Region sec.2 ].

(** Neither the name nor a value of the section starts or ends with
    white space. *)
Definition tidy (sec : string * Profile) : Prop :=
  TrimSpace sec.1 = sec.1 ∧ TrimSpace (User sec.2) = User sec.2 ∧
  TrimSpace (Tenancy sec.2) = Tenancy sec.2 ∧
  TrimSpace (Region sec.2) = Region sec.2.

End ocicfg.

(* ===================================================================== *)
(** ** internal/cmd: the commands and the interactive picker (tui.go) *)
(* ===================================================================== *)
Module cmd.

(** Go map reads [m[k]] of a string map: the empty string when absent. *)
Definition at_key (m : gmap string string) (k : string) : string :=
  default "" (m !! k).

(** [sort.Strings]: ascending byte-wise order. The order is total and
    antisymmetric, so the sorted list does not depend on the algorithm. *)
Definition sort_Strings (l : list string) : list string :=
  merge_sort String.le l.

(** *** Rows *)

(** [contextItem] embeds [config.Context] and adds no field. *)
Definition contextItem := config.Context.

Record tenancyItem := mkTenancyItem {
  TenancyOCID : string;
  Profiles : list string;
  Name : string
}.

Record compItem := mkCompItem { oc : oci.Compartment }.

Record regionItem := mkRegionItem { name : string }.

#[global] Instance tenancyItem_eq_dec : EqDecision tenancyItem.
Proof. solve_decision. Defined.
#[global] Instance compItem_eq_dec : EqDecision compItem.
Proof. solve_decision. Defined.
#[global] Instance regionItem_eq_dec : EqDecision regionItem.
Proof. solve_decision. Defined.

(** [list.Item]: the rows the four lists hold. A type assertion
    [x.(contextItem)] succeeds on [Some (ctxRow c)] only. *)
Inductive Item :=
| ctxRow (c : contextItem)
| tenancyRow (t : tenancyItem)
| compRow (c : compItem)
| regionRow (r : regionItem).

#[global] Instance Item_eq_dec : EqDecision Item.
Proof. solve_decision. Defined.

(** [abbreviateOCID]; the separator is the three bytes of U+2026. *)
Definition ellipsis : string :=
  String "226"%char (String "128"%char (String "166"%char "")).

Definition abbreviateOCID (s : string) : string :=
  if decide (String.length s ≤ 16) then s
  else String.substring 0 6 s +:+ ellipsis
         +:+ String.substring (String.length s - 6) 6 s.

Definition FilterValue (it : Item) : string :=
  match it with
  | ctxRow c => config.Name c
  | tenancyRow t => TenancyOCID t
  | compRow c => oci.Name (oc c)
  | regionRow r => name r
  end.

Definition fallbackRegions : list string :=
  [ "us-ashburn-1"; "us-phoenix-1"; "eu-frankfurt-1"; "eu-zurich-1";
    "uk-london-1"; "ap-tokyo-1"; "ap-osaka-1"; "ap-seoul-1"; "ap-mumbai-1";
    "ap-sydney-1"; "ap-melbourne-1"; "sa-saopaulo-1"; "ca-toronto-1";
    "af-johannesburg-1"; "me-dubai-1"; "me-jeddah-1"; "il-jerusalem-1" ].

Definition toRegionList (regions : list string) : list Item :=
  (λ r, regionRow (mkRegionItem r)) <$> regions.

Definition toList (items : list compItem) : list Item := compRow <$> items.

(** *** Profiles and tenancies *)

Definition contextItemForProfile (name : string) (p : ocicfg.Profile) : contextItem :=
  config.mkContext name name (ocicfg.Tenancy p) (ocicfg.Tenancy p)
    (ocicfg.Region p) (ocicfg.User p) "".

(** [contextsFromProfiles]: the profile names are collected in the order the
    map is ranged over and then sorted. *)
Definition contextsFromProfiles (profiles : gmap string ocicfg.Profile) : list Item :=
  let names := sort_Strings (fst <$> map_to_list profiles) in
  omap (λ name, (λ p, ctxRow (contextItemForProfile name p)) <$> profiles !! name)
       names.

(** The first loop of [tenanciesFromProfiles], over the profiles in the
    order [entries] in which the map is ranged over:
    [tenantProfiles[p.Tenancy] = append(tenantProfiles[p.Tenancy], name)]. *)
Definition tenantProfiles_of (entries : list (string * ocicfg.Profile))
  : gmap string (list string) :=
  foldl (λ tp e, <[ocicfg.Tenancy e.2 := default [] (tp !! ocicfg.Tenancy e.2) ++ [e.1]]> tp)
        ∅ entries.

(** [tenancyNames] is the process-wide cache [lookupTenancyName] reads. *)
Definition lookupTenancyName (tenancyNames : gmap string string) (ocid : string) : string :=
  at_key tenancyNames ocid.

Definition tenanciesFromProfiles_ranged (tenancyNames : gmap string string)
    (entries : list (string * ocicfg.Profile)) : list Item :=
  let tenantProfiles := tenantProfiles_of entries in
  let ocids := sort_Strings (fst <$> map_to_list tenantProfiles) in
  (λ ocid, tenancyRow
             {| TenancyOCID := ocid;
                Profiles := sort_Strings (default [] (tenantProfiles !! ocid));
                Name := lookupTenancyName tenancyNames ocid |}) <$> ocids.

Definition tenanciesFromProfiles (tenancyNames : gmap string string)
    (profiles : gmap string ocicfg.Profile) : list Item :=
  tenanciesFromProfiles_ranged tenancyNames (map_to_list profiles).

(** The names [tenantProfiles] holds for tenancy [t], in the order ranged
    over; the tenancy ids that get a row; and the row for [t]. *)
Definition group_of (t : string) (entries : list (string * ocicfg.Profile))
  : list string :=
  (filter (λ e, ocicfg.Tenancy e.2 = t) entries).*1.

Definition ocids_of (entries : list (string * ocicfg.Profile)) : list string :=
  sort_Strings (map_to_list (tenantProfiles_of entries)).*1.

Definition row_of (tenancyNames : gmap string string)
    (entries : list (string * ocicfg.Profile)) (t : string) : tenancyItem :=
  {| TenancyOCID := t;
     Profiles := sort_Strings (group_of t entries);
     Name := lookupTenancyName tenancyNames t |}.

Definition selectProfileForTenancy (item : tenancyItem)
    (profiles : gmap string ocicfg.Profile) (defaultProfile : string) : string :=
  let first := match Profiles item with p :: _ => p | [] => "" end in
  if decide (defaultProfile ≠ "") then
    match profiles !! defaultProfile with
    | Some p =>
        if decide (ocicfg.Tenancy p = TenancyOCID item) then defaultProfile
        else first
    | None => first
    end
  else first.

Definition is_context_named (n : string) (it : Item) : Prop :=
  match it with ctxRow ci => config.Name ci = n | _ => False end.

Definition is_context_row (it : Item) : Prop :=
  match it with ctxRow _ => True | _ => False end.

#[global] Instance is_context_named_dec n it : Decision (is_context_named n it).
Proof. destruct it; simpl; apply _. Defined.

#[global] Instance is_context_row_dec it : Decision (is_context_row it).
Proof. destruct it; simpl; apply _. Defined.

(** Profile [n] is a profile of tenancy [t]. *)
Definition belongs (profiles : gmap string ocicfg.Profile) (n t : string) : Prop :=
  ∃ p, profiles !! n = Some p ∧ ocicfg.Tenancy p = t.

(** The tenancy rows for tenancy [t] among [items]. *)
Definition is_row_of_tenancy (t : string) (it : Item) : Prop :=
  match it with tenancyRow x => TenancyOCID x = t | _ => False end.

#[global] Instance is_row_of_tenancy_dec t it : Decision (is_row_of_tenancy t it).
Proof. destruct it; simpl; apply _. Defined.

Definition rows_of_tenancy (t : string) (items : list Item) : list Item :=
  filter (is_row_of_tenancy t) items.

(** [selectInitialContext]: the context row called [current] when there is
    one, else the first context row. *)
Definition selectInitialContext (items : list Item) (current : string)
  : option contextItem :=
  let named :=
    if decide (current ≠ "") then list_find (is_context_named current) items
    else None in
  match named with
  | Some (_, ctxRow ci) => Some ci
  | _ =>
      match list_find is_context_row items with
      | Some (_, ctxRow ci) => Some ci
      | _ => None
      end
  end.

Definition parentLabel (parent : string) (item : contextItem) : string :=
  if decide (parent = config.TenancyOCID item) then "root" else parent.

(** The start of the compartment walk for a context: its compartment, or
    its tenancy when no compartment is set. *)
Definition start_parent (item : contextItem) : string :=
  if decide (config.CompartmentOCID item = "") then config.TenancyOCID item
  else config.CompartmentOCID item.

(** *** The tenancy name cache (tui.go)

    [recordTenancyName] on the process-wide map [tenancyNames]; the mutex
    only serialises the accesses. *)
Definition recordTenancyName (ocid name : string) (tenancyNames : gmap string string)
  : gmap string string :=
  if decide (ocid = "" ∨ name = "") then tenancyNames
  else <[ocid := name]> tenancyNames.

(** Every cached name is a non-empty name for a non-empty id. *)
Definition cache_ok (tenancyNames : gmap string string) : Prop :=
  ∀ ocid name, tenancyNames !! ocid = Some name → ocid ≠ "" ∧ name ≠ "".

(** *** The prompts of the flow without a terminal (tui.go)

    [fmt.Fscan] into an [int] gives a number or an error; [read] is that
    outcome. The results are Go [int]s: an index, or -1. *)
Definition readChoice (read : Z + error) (n : Z) : Z + error :=
  match read with
  | inr err => inr err
  | inl choice =>
      if decide (choice < 1 ∨ choice > n)%Z then inr "invalid choice"
      else inl (choice - 1)%Z
  end.

Definition readChoiceZero (read : Z + error) (n : Z) : Z + error :=
  match read with
  | inr err => inr err
  | inl choice =>
      if decide (choice = 0)%Z then inl (-1)%Z
      else if decide (choice < 1 ∨ choice > n)%Z then inr "invalid choice"
      else inl (choice - 1)%Z
  end.

(** *** The commands [set] and [export] (set.go, export.go)

    What a command writes to its output: a line of text (the text without
    its final newline), a value handed to the indenting JSON encoder, or
    the closing line of [import] with its two counts and the path. *)
Inductive Written :=
| Line (text : string)
| Encoded (c : config.Context)
| Summary (imported skipped : nat) (from : string).

(** The flags of [set]; an empty flag was not given. *)
Record setFlags := mkSetFlags {
  flag_region : string;
  flag_profile : string;
  flag_tenancy : string;
  flag_compartment : string;
  flag_user : string;
  flag_notes : string
}.

(** The six assignments of [set], in the order of the source. *)
Definition set_fields (f : setFlags) (ctx : config.Context) : config.Context :=
  let ctx := if decide (flag_region f ≠ "") then
               config.mkContext (config.Name ctx) (config.Profile ctx)
                 (config.TenancyOCID ctx) (config.CompartmentOCID ctx)
                 (flag_region f) (config.User ctx) (config.Notes ctx)
             else ctx in
  let ctx := if decide (flag_profile f ≠ "") then
               config.mkContext (config.Name ctx) (flag_profile f)
                 (config.TenancyOCID ctx) (config.CompartmentOCID ctx)
                 (config.Region ctx) (config.User ctx) (config.Notes ctx)
             else ctx in
  let ctx := if decide (flag_tenancy f ≠ "") then
               config.mkContext (config.Name ctx) (config.Profile ctx)
                 (flag_tenancy f) (config.CompartmentOCID ctx)
                 (config.Region ctx) (config.User ctx) (config.Notes ctx)
             else ctx in
  let ctx := if decide (flag_compartment f ≠ "") then
               config.mkContext (config.Name ctx) (config.Profile ctx)
                 (config.TenancyOCID ctx) (flag_compartment f)
                 (config.Region ctx) (config.User ctx) (config.Notes ctx)
             else ctx in
  let ctx := if decide (flag_user f ≠ "") then
               config.mkContext (config.Name ctx) (config.Profile ctx)
                 (config.TenancyOCID ctx) (config.CompartmentOCID ctx)
                 (config.Region ctx) (flag_user f) (config.Notes ctx)
             else ctx in
  if decide (flag_notes f ≠ "") then
    config.mkContext (config.Name ctx) (config.Profile ctx)
      (config.TenancyOCID ctx) (config.CompartmentOCID ctx)
      (config.Region ctx) (config.User ctx) (flag_notes f)
  else ctx.

(** The [RunE] of [newSetCmd]. [path] and [loaded] are what the flag
    lookup, [resolveConfigPath] and [config.Load] give: the path with the
    configuration read from it, or the error of the first of the three that
    fails. *)
Definition newSetCmd_RunE (name : string) (f : setFlags)
    (loaded : string * config.Config + error) (w : config.World)
  : list Written * option error * config.World :=
  match loaded with
  | inr err => ([], Some err, w)
  | inl (path, cfg) =>
      match config.GetContext cfg name with
      | inr err => ([], Some err, w)
      | inl ctx =>
          match config.UpsertContext (set_fields f ctx) cfg with
          | (_, Some err) => ([], Some err, w)
          | (cfg1, None) =>
              match config.Save path cfg1 w with
              | (Some err, w1) => ([], Some err, w1)
              | (None, w1) => ([Line ("Updated context " +:+ name)], None, w1)
              end
          end
      end
  end.

(** [strings.Join(lines, "\n")]. *)
Definition Join_lines (lines : list string) : string :=
  String.concat (String "010"%char "") lines.

(** The [RunE] of [newExportCmd]. [loaded] is as for [set]; [encode_err]
    is the error of [enc.Encode], if any (the encoder writes to the
    command's output). *)
Definition newExportCmd_RunE (format : string) (loaded : config.Config + error)
    (encode_err : option error) : list Written * option error :=
  match loaded with
  | inr err => ([], Some err)
  | inl cfg =>
      if decide (config.CurrentContext cfg = "") then
        ([], Some "no current context set")
      else
        match config.GetContext cfg (config.CurrentContext cfg) with
        | inr err => ([], Some err)
        | inl ctx =>
            if decide (format = "env" ∨ format = "") then
              let lines := [ "export OCI_CLI_PROFILE=" +:+ config.Profile ctx;
                             "export OCI_TENANCY_OCID=" +:+ config.TenancyOCID ctx;
                             "export OCI_COMPARTMENT_OCID=" +:+ config.CompartmentOCID ctx ] in
              let lines :=
                if decide (config.Region ctx ≠ "")
                then lines ++ ["export OCI_REGION=" +:+ config.Region ctx]
                else lines in
              ([Line (Join_lines lines)], None)
            else if decide (format = "json") then ([Encoded ctx], encode_err)
            else ([], Some ("unsupported format: " +:+ format))
        end
  end.

(** *** The command [import] (import.go) *)

(** The context [import] makes of a profile. *)
Definition context_of_profile (name : string) (p : ocicfg.Profile) : config.Context :=
  config.mkContext name name (ocicfg.Tenancy p) (ocicfg.Tenancy p)
    (ocicfg.Region p) (ocicfg.User p) "imported from OCI CLI config".

(** The loop [for name, p := range profiles] of [import], over the
    profiles in the order [entries] in which the map is ranged over. The
    lines written to the error output come first in the result: they are
    written whether or not the loop ends with an error. *)
Fixpoint import_ranged (overwrite : bool) (entries : list (string * ocicfg.Profile))
    (cfg : config.Config) (imported skipped : nat)
  : list Written * (config.Config * nat * nat + error) :=
  match entries with
  | [] => ([], inl (cfg, imported, skipped))
  | (name, p) :: rest =>
      let ctx := context_of_profile name p in
      match config.Validate ctx with
      | Some err => ([], inr ("profile " +:+ name +:+ " invalid: " +:+ err))
      | None =>
          if negb overwrite &&
             match config.GetContext cfg name with inl _ => true | inr _ => false end
          then
            let '(log, r) := import_ranged overwrite rest cfg imported (S skipped) in
            (Line ("skip: " +:+ name +:+ " (exists)") :: log, r)
          else
            match config.UpsertContext ctx cfg with
            | (_, Some err) => ([], inr err)
            | (cfg1, None) =>
                let '(log, r) := import_ranged overwrite rest cfg1 (S imported) skipped in
                (Line ("import: " +:+ name +:+ " (profile)") :: log, r)
            end
      end
  end.

(** The [RunE] of [newImportCmd]: what it writes to the output and to the
    error output, its error, and the files. [loaded] is as for [set];
    [ociCfgPath] is the flag, or the default path under the home directory
    (or the error of [os.UserHomeDir]); [profiles] is what
    [ocicfg.LoadProfiles] returns for it, and [entries] the order in which
    the map is ranged over. *)
Definition newImportCmd_RunE (overwrite : bool)
    (loaded : string * config.Config + error) (ociCfgPath : string + error)
    (profiles : gmap string ocicfg.Profile + error)
    (entries : list (string * ocicfg.Profile)) (w : config.World)
  : list Written * list Written * option error * config.World :=
  match loaded with
  | inr err => ([], [], Some err, w)
  | inl (path, cfg) =>
      match ociCfgPath with
      | inr err => ([], [], Some err, w)
      | inl from =>
          match profiles with
          | inr err => ([], [], Some err, w)
          | inl _ =>
              match import_ranged overwrite entries cfg 0 0 with
              | (log, inr err) => ([], log, Some err, w)
              | (log, inl (cfg1, imported, skipped)) =>
                  match config.Save path cfg1 w with
                  | (Some err, w1) => ([], log, Some err, w1)
                  | (None, w1) => ([Summary imported skipped from], log, None, w1)
                  end
              end
          end
      end
  end.

(** The outcome of the [export] command that corresponds to an answer of
    the daemon's [export] method: the same error; the daemon's [env] lines,
    each behind [export ], as one text; the same context, encoded. *)
Definition export_as_command (answer : ipcmsg.Data + error)
    (encode_err : option error) : option (list Written * option error) :=
  match answer with
  | inr err => Some ([], Some err)
  | inl (ipcmsg.DLines m) =>
      (λ lines, ([Line (Join_lines ((λ l, "export " +:+ l) <$> lines))], None))
        <$> m !! "env"
  | inl (ipcmsg.DContext c) => Some ([Encoded c], encode_err)
  | inl _ => None
  end.

(** *** Messages *)

Inductive Mode := ModeContexts | ModeTenancies | ModeCompartments | ModeRegions.

#[global] Instance Mode_eq_dec : EqDecision Mode.
Proof. solve_decision. Defined.

(** [list.FilterState] of the list widget. *)
Inductive FilterState := Unfiltered | Filtering | FilterApplied.

#[global] Instance FilterState_eq_dec : EqDecision FilterState.
Proof. solve_decision. Defined.

(** [tea.Msg] as far as [Update] tells messages apart: a key (by its
    [String()]), a window size, the two completion messages, or anything
    else. *)
Inductive Msg :=
| KeyMsg (key : string)
| WindowSizeMsg (Width Height : Z)
| compResultMsg (parent : string) (items : list compItem) (err : option error)
| regionResultMsg (ctxName : string) (items : list string) (err : option error)
| OtherMsg (tag : nat).

(** *** The list widget

    The four lists are [list.Model] values of the bubbles library, which is
    not part of this repository. The picker uses the operations below
    ([New] stands for [list.New] with the default delegate); of their
    behaviour the proofs only use that setting the title changes neither
    the rows, nor the selection, nor the filter state. *)
Class ListWidget := {
  Model : Type;
  WCmd : Type;
  New : list Item → Z → Z → Model;
  Items : Model → list Item;
  VisibleItems : Model → list Item;
  SelectedItem : Model → option Item;
  FilterState_of : Model → FilterState;
  SetItems : list Item → Model → Model;
  Select : nat → Model → Model;
  SetSize : Z → Z → Model → Model;
  SetFilteringEnabled : bool → Model → Model;
  SetFilterText : string → Model → Model;
  SetFilterState : FilterState → Model → Model;
  SetTitle : string → Model → Model;
  Update_list : Msg → Model → Model * WCmd;
  Items_SetTitle : ∀ t l, Items (SetTitle t l) = Items l;
  VisibleItems_SetTitle : ∀ t l, VisibleItems (SetTitle t l) = VisibleItems l;
  SelectedItem_SetTitle : ∀ t l, SelectedItem (SetTitle t l) = SelectedItem l;
  FilterState_SetTitle : ∀ t l, FilterState_of (SetTitle t l) = FilterState_of l
}.

Section tui.
Context `{W : ListWidget}.

(** [tea.Cmd]: nil, [tea.Quit], one of the two fetch closures with what
    they capture, or a command of the list widget. *)
Inductive Cmd :=
| CmdNil
| Quit
| loadRegionsCmd (ctxItem : contextItem)
| loadCompsCmd (ctxItem : contextItem) (parent : string)
| ListCmd (c : WCmd).

(** The Go field [list] is called [list_] here. *)
Record tuiModel := mkTuiModel {
  list_ : Model;
  tenancies : Model;
  cfg : config.Config;
  cfgPath : string;
  selected : string;
  profiles : gmap string ocicfg.Profile;
  err : option error;
  mode : Mode;
  ctxItem : contextItem;
  comps : Model;
  regions : Model;
  parentCrumb : string;
  compCache : gmap string (list compItem);
  parentID : string;
  parentMap : gmap string string;
  nameMap : gmap string string;
  status : string;
  finalized : bool;
  crumb : string;
  regionSet : bool;
  regionCache : gmap string (list string);
  pendingSelectionID : string;
  pendingSelectionNm : string;
  pendingRegion : string;
  pendingContextName : string;
  pendingTenancyOCID : string;
  ultraCompact : bool;
  initCmd : Cmd
}.

(** Assignments to one field: [with_f v m] is [m] after [m.f = v]. *)
Definition with_list_ (v : Model) (m : tuiModel) : tuiModel :=
  {| list_ := v; tenancies := tenancies m; cfg := cfg m;
     cfgPath := cfgPath m; selected := selected m; profiles := profiles m;
     err := err m; mode := mode m; ctxItem := ctxItem m; comps := comps m;
     regions := regions m; parentCrumb := parentCrumb m;
     compCache := compCache m; parentID := parentID m;
     parentMap := parentMap m; nameMap := nameMap m; status := status m;
     finalized := finalized m; crumb := crumb m; regionSet := regionSet m;
     regionCache := regionCache m;
     pendingSelectionID := pendingSelectionID m;
     pendingSelectionNm := pendingSelectionNm m;
     pendingRegion := pendingRegion m;
     pendingContextName := pendingContextName m;
     pendingTenancyOCID := pendingTenancyOCID m;
     ultraCompact := ultraCompact m; initCmd := initCmd m |}.
Definition with_tenancies (v : Model) (m : tuiModel) : tuiModel :=
  {| list_ := list_ m; tenancies := v; cfg := cfg m; cfgPath := cfgPath m;
     selected := selected m; profiles := profiles m; err := err m;
     mode := mode m; ctxItem := ctxItem m; comps := comps m;
     regions := regions m; parentCrumb := parentCrumb m;
     compCache := compCache m; parentID := parentID m;
     parentMap := parentMap m; nameMap := nameMap m; status := status m;
     finalized := finalized m; crumb := crumb m; regionSet := regionSet m;
     regionCache := regionCache m;
     pendingSelectionID := pendingSelectionID m;
     pendingSelectionNm := pendingSelectionNm m;
     pendingRegion := pendingRegion m;
     pendingContextName := pendingContextName m;
     pendingTenancyOCID := pendingTenancyOCID m;
     ultraCompact := ultraCompact m; initCmd := initCmd m |}.
Definition with_cfg (v : config.Config) (m : tuiModel) : tuiModel :=
  {| list_ := list_ m; tenancies := tenancies m; cfg := v;
     cfgPath := cfgPath m; selected := selected m; profiles := profiles m;
     err := err m; mode := mode m; ctxItem := ctxItem m; comps := comps m;
     regions := regions m; parentCrumb := parentCrumb m;
     compCache := compCache m; parentID := parentID m;
     parentMap := parentMap m; nameMap := nameMap m; status := status m;
     finalized := finalized m; crumb := crumb m; regionSet := regionSet m;
     regionCache := regionCache m;
     pendingSelectionID := pendingSelectionID m;
     pendingSelectionNm := pendingSelectionNm m;
     pendingRegion := pendingRegion m;
     pendingContextName := pendingContextName m;
     pendingTenancyOCID := pendingTenancyOCID m;
     ultraCompact := ultraCompact m; initCmd := initCmd m |}.
Definition with_cfgPath (v : string) (m : tuiModel) : tuiModel :=
  {| list_ := list_ m; tenancies := tenancies m; cfg := cfg m; cfgPath := v;
     selected := selected m; profiles := profiles m; err := err m;
     mode := mode m; ctxItem := ctxItem m; comps := comps m;
     regions := regions m; parentCrumb := parentCrumb m;
     compCache := compCache m; parentID := parentID m;
     parentMap := parentMap m; nameMap := nameMap m; status := status m;
     finalized := finalized m; crumb := crumb m; regionSet := regionSet m;
     regionCache := regionCache m;
     pendingSelectionID := pendingSelectionID m;
     pendingSelectionNm := pendingSelectionNm m;
     pendingRegion := pendingRegion m;
     pendingContextName := pendingContextName m;
     pendingTenancyOCID := pendingTenancyOCID m;
     ultraCompact := ultraCompact m; initCmd := initCmd m |}.
Definition with_selected (v : string) (m : tuiModel) : tuiModel :=
  {| list_ := list_ m; tenancies := tenancies m; cfg := cfg m;
     cfgPath := cfgPath m; selected := v; profiles := profiles m;
     err := err m; mode := mode m; ctxItem := ctxItem m; comps := comps m;
     regions := regions m; parentCrumb := parentCrumb m;
     compCache := compCache m; parentID := parentID m;
     parentMap := parentMap m; nameMap := nameMap m; status := status m;
     finalized := finalized m; crumb := crumb m; regionSet := regionSet m;
     regionCache := regionCache m;
     pendingSelectionID := pendingSelectionID m;
     pendingSelectionNm := pendingSelectionNm m;
     pendingRegion := pendingRegion m;
     pendingContextName := pendingContextName m;
     pendingTenancyOCID := pendingTenancyOCID m;
     ultraCompact := ultraCompact m; initCmd := initCmd m |}.
Definition with_profiles (v : gmap string ocicfg.Profile) (m : tuiModel) : tuiModel :=
  {| list_ := list_ m; tenancies := tenancies m; cfg := cfg m;
     cfgPath := cfgPath m; selected := selected m; profiles := v;
     err := err m; mode := mode m; ctxItem := ctxItem m; comps := comps m;
     regions := regions m; parentCrumb := parentCrumb m;
     compCache := compCache m; parentID := parentID m;
     parentMap := parentMap m; nameMap := nameMap m; status := status m;
     finalized := finalized m; crumb := crumb m; regionSet := regionSet m;
     regionCache := regionCache m;
     pendingSelectionID := pendingSelectionID m;
     pendingSelectionNm := pendingSelectionNm m;
     pendingRegion := pendingRegion m;
     pendingContextName := pendingContextName m;
     pendingTenancyOCID := pendingTenancyOCID m;
     ultraCompact := ultraCompact m; initCmd := initCmd m |}.
Definition with_err (v : option error) (m : tuiModel) : tuiModel :=
  {| list_ := list_ m; tenancies := tenancies m; cfg := cfg m;
     cfgPath := cfgPath m; selected := selected m; profiles := profiles m;
     err := v; mode := mode m; ctxItem := ctxItem m; comps := comps m;
     regions := regions m; parentCrumb := parentCrumb m;
     compCache := compCache m; parentID := parentID m;
     parentMap := parentMap m; nameMap := nameMap m; status := status m;
     finalized := finalized m; crumb := crumb m; regionSet := regionSet m;
     regionCache := regionCache m;
     pendingSelectionID := pendingSelectionID m;
     pendingSelectionNm := pendingSelectionNm m;
     pendingRegion := pendingRegion m;
     pendingContextName := pendingContextName m;
     pendingTenancyOCID := pendingTenancyOCID m;
     ultraCompact := ultraCompact m; initCmd := initCmd m |}.
Definition with_mode (v : Mode) (m : tuiModel) : tuiModel :=
  {| list_ := list_ m; tenancies := tenancies m; cfg := cfg m;
     cfgPath := cfgPath m; selected := selected m; profiles := profiles m;
     err := err m; mode := v; ctxItem := ctxItem m; comps := comps m;
     regions := regions m; parentCrumb := parentCrumb m;
     compCache := compCache m; parentID := parentID m;
     parentMap := parentMap m; nameMap := nameMap m; status := status m;
     finalized := finalized m; crumb := crumb m; regionSet := regionSet m;
     regionCache := regionCache m;
     pendingSelectionID := pendingSelectionID m;
     pendingSelectionNm := pendingSelectionNm m;
     pendingRegion := pendingRegion m;
     pendingContextName := pendingContextName m;
     pendingTenancyOCID := pendingTenancyOCID m;
     ultraCompact := ultraCompact m; initCmd := initCmd m |}.
Definition with_ctxItem (v : contextItem) (m : tuiModel) : tuiModel :=
  {| list_ := list_ m; tenancies := tenancies m; cfg := cfg m;
     cfgPath := cfgPath m; selected := selected m; profiles := profiles m;
     err := err m; mode := mode m; ctxItem := v; comps := comps m;
     regions := regions m; parentCrumb := parentCrumb m;
     compCache := compCache m; parentID := parentID m;
     parentMap := parentMap m; nameMap := nameMap m; status := status m;
     finalized := finalized m; crumb := crumb m; regionSet := regionSet m;
     regionCache := regionCache m;
     pendingSelectionID := pendingSelectionID m;
     pendingSelectionNm := pendingSelectionNm m;
     pendingRegion := pendingRegion m;
     pendingContextName := pendingContextName m;
     pendingTenancyOCID := pendingTenancyOCID m;
     ultraCompact := ultraCompact m; initCmd := initCmd m |}.
Definition with_comps (v : Model) (m : tuiModel) : tuiModel :=
  {| list_ := list_ m; tenancies := tenancies m; cfg := cfg m;
     cfgPath := cfgPath m; selected := selected m; profiles := profiles m;
     err := err m; mode := mode m; ctxItem := ctxItem m; comps := v;
     regions := regions m; parentCrumb := parentCrumb m;
     compCache := compCache m; parentID := parentID m;
     parentMap := parentMap m; nameMap := nameMap m; status := status m;
     finalized := finalized m; crumb := crumb m; regionSet := regionSet m;
     regionCache := regionCache m;
     pendingSelectionID := pendingSelectionID m;
     pendingSelectionNm := pendingSelectionNm m;
     pendingRegion := pendingRegion m;
     pendingContextName := pendingContextName m;
     pendingTenancyOCID := pendingTenancyOCID m;
     ultraCompact := ultraCompact m; initCmd := initCmd m |}.
Definition with_regions (v : Model) (m : tuiModel) : tuiModel :=
  {| list_ := list_ m; tenancies := tenancies m; cfg := cfg m;
     cfgPath := cfgPath m; selected := selected m; profiles := profiles m;
     err := err m; mode := mode m; ctxItem := ctxItem m; comps := comps m;
     regions := v; parentCrumb := parentCrumb m; compCache := compCache m;
     parentID := parentID m; parentMap := parentMap m; nameMap := nameMap m;
     status := status m; finalized := finalized m; crumb := crumb m;
     regionSet := regionSet m; regionCache := regionCache m;
     pendingSelectionID := pendingSelectionID m;
     pendingSelectionNm := pendingSelectionNm m;
     pendingRegion := pendingRegion m;
     pendingContextName := pendingContextName m;
     pendingTenancyOCID := pendingTenancyOCID m;
     ultraCompact := ultraCompact m; initCmd := initCmd m |}.
Definition with_parentCrumb (v : string) (m : tuiModel) : tuiModel :=
  {| list_ := list_ m; tenancies := tenancies m; cfg := cfg m;
     cfgPath := cfgPath m; selected := selected m; profiles := profiles m;
     err := err m; mode := mode m; ctxItem := ctxItem m; comps := comps m;
     regions := regions m; parentCrumb := v; compCache := compCache m;
     parentID := parentID m; parentMap := parentMap m; nameMap := nameMap m;
     status := status m; finalized := finalized m; crumb := crumb m;
     regionSet := regionSet m; regionCache := regionCache m;
     pendingSelectionID := pendingSelectionID m;
     pendingSelectionNm := pendingSelectionNm m;
     pendingRegion := pendingRegion m;
     pendingContextName := pendingContextName m;
     pendingTenancyOCID := pendingTenancyOCID m;
     ultraCompact := ultraCompact m; initCmd := initCmd m |}.
Definition with_compCache (v : gmap string (list compItem)) (m : tuiModel) : tuiModel :=
  {| list_ := list_ m; tenancies := tenancies m; cfg := cfg m;
     cfgPath := cfgPath m; selected := selected m; profiles := profiles m;
     err := err m; mode := mode m; ctxItem := ctxItem m; comps := comps m;
     regions := regions m; parentCrumb := parentCrumb m; compCache := v;
     parentID := parentID m; parentMap := parentMap m; nameMap := nameMap m;
     status := status m; finalized := finalized m; crumb := crumb m;
     regionSet := regionSet m; regionCache := regionCache m;
     pendingSelectionID := pendingSelectionID m;
     pendingSelectionNm := pendingSelectionNm m;
     pendingRegion := pendingRegion m;
     pendingContextName := pendingContextName m;
     pendingTenancyOCID := pendingTenancyOCID m;
     ultraCompact := ultraCompact m; initCmd := initCmd m |}.
Definition with_parentID (v : string) (m : tuiModel) : tuiModel :=
  {| list_ := list_ m; tenancies := tenancies m; cfg := cfg m;
     cfgPath := cfgPath m; selected := selected m; profiles := profiles m;
     err := err m; mode := mode m; ctxItem := ctxItem m; comps := comps m;
     regions := regions m; parentCrumb := parentCrumb m;
     compCache := compCache m; parentID := v; parentMap := parentMap m;
     nameMap := nameMap m; status := status m; finalized := finalized m;
     crumb := crumb m; regionSet := regionSet m;
     regionCache := regionCache m;
     pendingSelectionID := pendingSelectionID m;
     pendingSelectionNm := pendingSelectionNm m;
     pendingRegion := pendingRegion m;
     pendingContextName := pendingContextName m;
     pendingTenancyOCID := pendingTenancyOCID m;
     ultraCompact := ultraCompact m; initCmd := initCmd m |}.
Definition with_parentMap (v : gmap string string) (m : tuiModel) : tuiModel :=
  {| list_ := list_ m; tenancies := tenancies m; cfg := cfg m;
     cfgPath := cfgPath m; selected := selected m; profiles := profiles m;
     err := err m; mode := mode m; ctxItem := ctxItem m; comps := comps m;
     regions := regions m; parentCrumb := parentCrumb m;
     compCache := compCache m; parentID := parentID m; parentMap := v;
     nameMap := nameMap m; status := status m; finalized := finalized m;
     crumb := crumb m; regionSet := regionSet m;
     regionCache := regionCache m;
     pendingSelectionID := pendingSelectionID m;
     pendingSelectionNm := pendingSelectionNm m;
     pendingRegion := pendingRegion m;
     pendingContextName := pendingContextName m;
     pendingTenancyOCID := pendingTenancyOCID m;
     ultraCompact := ultraCompact m; initCmd := initCmd m |}.
Definition with_nameMap (v : gmap string string) (m : tuiModel) : tuiModel :=
  {| list_ := list_ m; tenancies := tenancies m; cfg := cfg m;
     cfgPath := cfgPath m; selected := selected m; profiles := profiles m;
     err := err m; mode := mode m; ctxItem := ctxItem m; comps := comps m;
     regions := regions m; parentCrumb := parentCrumb m;
     compCache := compCache m; parentID := parentID m;
     parentMap := parentMap m; nameMap := v; status := status m;
     finalized := finalized m; crumb := crumb m; regionSet := regionSet m;
     regionCache := regionCache m;
     pendingSelectionID := pendingSelectionID m;
     pendingSelectionNm := pendingSelectionNm m;
     pendingRegion := pendingRegion m;
     pendingContextName := pendingContextName m;
     pendingTenancyOCID := pendingTenancyOCID m;
     ultraCompact := ultraCompact m; initCmd := initCmd m |}.
Definition with_status (v : string) (m : tuiModel) : tuiModel :=
  {| list_ := list_ m; tenancies := tenancies m; cfg := cfg m;
     cfgPath := cfgPath m; selected := selected m; profiles := profiles m;
     err := err m; mode := mode m; ctxItem := ctxItem m; comps := comps m;
     regions := regions m; parentCrumb := parentCrumb m;
     compCache := compCache m; parentID := parentID m;
     parentMap := parentMap m; nameMap := nameMap m; status := v;
     finalized := finalized m; crumb := crumb m; regionSet := regionSet m;
     regionCache := regionCache m;
     pendingSelectionID := pendingSelectionID m;
     pendingSelectionNm := pendingSelectionNm m;
     pendingRegion := pendingRegion m;
     pendingContextName := pendingContextName m;
     pendingTenancyOCID := pendingTenancyOCID m;
     ultraCompact := ultraCompact m; initCmd := initCmd m |}.
Definition with_finalized (v : bool) (m : tuiModel) : tuiModel :=
  {| list_ := list_ m; tenancies := tenancies m; cfg := cfg m;
     cfgPath := cfgPath m; selected := selected m; profiles := profiles m;
     err := err m; mode := mode m; ctxItem := ctxItem m; comps := comps m;
     regions := regions m; parentCrumb := parentCrumb m;
     compCache := compCache m; parentID := parentID m;
     parentMap := parentMap m; nameMap := nameMap m; status := status m;
     finalized := v; crumb := crumb m; regionSet := regionSet m;
     regionCache := regionCache m;
     pendingSelectionID := pendingSelectionID m;
     pendingSelectionNm := pendingSelectionNm m;
     pendingRegion := pendingRegion m;
     pendingContextName := pendingContextName m;
     pendingTenancyOCID := pendingTenancyOCID m;
     ultraCompact := ultraCompact m; initCmd := initCmd m |}.
Definition with_crumb (v : string) (m : tuiModel) : tuiModel :=
  {| list_ := list_ m; tenancies := tenancies m; cfg := cfg m;
     cfgPath := cfgPath m; selected := selected m; profiles := profiles m;
     err := err m; mode := mode m; ctxItem := ctxItem m; comps := comps m;
     regions := regions m; parentCrumb := parentCrumb m;
     compCache := compCache m; parentID := parentID m;
     parentMap := parentMap m; nameMap := nameMap m; status := status m;
     finalized := finalized m; crumb := v; regionSet := regionSet m;
     regionCache := regionCache m;
     pendingSelectionID := pendingSelectionID m;
     pendingSelectionNm := pendingSelectionNm m;
     pendingRegion := pendingRegion m;
     pendingContextName := pendingContextName m;
     pendingTenancyOCID := pendingTenancyOCID m;
     ultraCompact := ultraCompact m; initCmd := initCmd m |}.
Definition with_regionSet (v : bool) (m : tuiModel) : tuiModel :=
  {| list_ := list_ m; tenancies := tenancies m; cfg := cfg m;
     cfgPath := cfgPath m; selected := selected m; profiles := profiles m;
     err := err m; mode := mode m; ctxItem := ctxItem m; comps := comps m;
     regions := regions m; parentCrumb := parentCrumb m;
     compCache := compCache m; parentID := parentID m;
     parentMap := parentMap m; nameMap := nameMap m; status := status m;
     finalized := finalized m; crumb := crumb m; regionSet := v;
     regionCache := regionCache m;
     pendingSelectionID := pendingSelectionID m;
     pendingSelectionNm := pendingSelectionNm m;
     pendingRegion := pendingRegion m;
     pendingContextName := pendingContextName m;
     pendingTenancyOCID := pendingTenancyOCID m;
     ultraCompact := ultraCompact m; initCmd := initCmd m |}.
Definition with_regionCache (v : gmap string (list string)) (m : tuiModel) : tuiModel :=
  {| list_ := list_ m; tenancies := tenancies m; cfg := cfg m;
     cfgPath := cfgPath m; selected := selected m; profiles := profiles m;
     err := err m; mode := mode m; ctxItem := ctxItem m; comps := comps m;
     regions := regions m; parentCrumb := parentCrumb m;
     compCache := compCache m; parentID := parentID m;
     parentMap := parentMap m; nameMap := nameMap m; status := status m;
     finalized := finalized m; crumb := crumb m; regionSet := regionSet m;
     regionCache := v; pendingSelectionID := pendingSelectionID m;
     pendingSelectionNm := pendingSelectionNm m;
     pendingRegion := pendingRegion m;
     pendingContextName := pendingContextName m;
     pendingTenancyOCID := pendingTenancyOCID m;
     ultraCompact := ultraCompact m; initCmd := initCmd m |}.
Definition with_pendingSelectionID (v : string) (m : tuiModel) : tuiModel :=
  {| list_ := list_ m; tenancies := tenancies m; cfg := cfg m;
     cfgPath := cfgPath m; selected := selected m; profiles := profiles m;
     err := err m; mode := mode m; ctxItem := ctxItem m; comps := comps m;
     regions := regions m; parentCrumb := parentCrumb m;
     compCache := compCache m; parentID := parentID m;
     parentMap := parentMap m; nameMap := nameMap m; status := status m;
     finalized := finalized m; crumb := crumb m; regionSet := regionSet m;
     regionCache := regionCache m; pendingSelectionID := v;
     pendingSelectionNm := pendingSelectionNm m;
     pendingRegion := pendingRegion m;
     pendingContextName := pendingContextName m;
     pendingTenancyOCID := pendingTenancyOCID m;
     ultraCompact := ultraCompact m; initCmd := initCmd m |}.
Definition with_pendingSelectionNm (v : string) (m : tuiModel) : tuiModel :=
  {| list_ := list_ m; tenancies := tenancies m; cfg := cfg m;
     cfgPath := cfgPath m; selected := selected m; profiles := profiles m;
     err := err m; mode := mode m; ctxItem := ctxItem m; comps := comps m;
     regions := regions m; parentCrumb := parentCrumb m;
     compCache := compCache m; parentID := parentID m;
     parentMap := parentMap m; nameMap := nameMap m; status := status m;
     finalized := finalized m; crumb := crumb m; regionSet := regionSet m;
     regionCache := regionCache m;
     pendingSelectionID := pendingSelectionID m; pendingSelectionNm := v;
     pendingRegion := pendingRegion m;
     pendingContextName := pendingContextName m;
     pendingTenancyOCID := pendingTenancyOCID m;
     ultraCompact := ultraCompact m; initCmd := initCmd m |}.
Definition with_pendingRegion (v : string) (m : tuiModel) : tuiModel :=
  {| list_ := list_ m; tenancies := tenancies m; cfg := cfg m;
     cfgPath := cfgPath m; selected := selected m; profiles := profiles m;
     err := err m; mode := mode m; ctxItem := ctxItem m; comps := comps m;
     regions := regions m; parentCrumb := parentCrumb m;
     compCache := compCache m; parentID := parentID m;
     parentMap := parentMap m; nameMap := nameMap m; status := status m;
     finalized := finalized m; crumb := crumb m; regionSet := regionSet m;
     regionCache := regionCache m;
     pendingSelectionID := pendingSelectionID m;
     pendingSelectionNm := pendingSelectionNm m; pendingRegion := v;
     pendingContextName := pendingContextName m;
     pendingTenancyOCID := pendingTenancyOCID m;
     ultraCompact := ultraCompact m; initCmd := initCmd m |}.
Definition with_pendingContextName (v : string) (m : tuiModel) : tuiModel :=
  {| list_ := list_ m; tenancies := tenancies m; cfg := cfg m;
     cfgPath := cfgPath m; selected := selected m; profiles := profiles m;
     err := err m; mode := mode m; ctxItem := ctxItem m; comps := comps m;
     regions := regions m; parentCrumb := parentCrumb m;
     compCache := compCache m; parentID := parentID m;
     parentMap := parentMap m; nameMap := nameMap m; status := status m;
     finalized := finalized m; crumb := crumb m; regionSet := regionSet m;
     regionCache := regionCache m;
     pendingSelectionID := pendingSelectionID m;
     pendingSelectionNm := pendingSelectionNm m;
     pendingRegion := pendingRegion m; pendingContextName := v;
     pendingTenancyOCID := pendingTenancyOCID m;
     ultraCompact := ultraCompact m; initCmd := initCmd m |}.
Definition with_pendingTenancyOCID (v : string) (m : tuiModel) : tuiModel :=
  {| list_ := list_ m; tenancies := tenancies m; cfg := cfg m;
     cfgPath := cfgPath m; selected := selected m; profiles := profiles m;
     err := err m; mode := mode m; ctxItem := ctxItem m; comps := comps m;
     regions := regions m; parentCrumb := parentCrumb m;
     compCache := compCache m; parentID := parentID m;
     parentMap := parentMap m; nameMap := nameMap m; status := status m;
     finalized := finalized m; crumb := crumb m; regionSet := regionSet m;
     regionCache := regionCache m;
     pendingSelectionID := pendingSelectionID m;
     pendingSelectionNm := pendingSelectionNm m;
     pendingRegion := pendingRegion m;
     pendingContextName := pendingContextName m; pendingTenancyOCID := v;
     ultraCompact := ultraCompact m; initCmd := initCmd m |}.
Definition with_ultraCompact (v : bool) (m : tuiModel) : tuiModel :=
  {| list_ := list_ m; tenancies := tenancies m; cfg := cfg m;
     cfgPath := cfgPath m; selected := selected m; profiles := profiles m;
     err := err m; mode := mode m; ctxItem := ctxItem m; comps := comps m;
     regions := regions m; parentCrumb := parentCrumb m;
     compCache := compCache m; parentID := parentID m;
     parentMap := parentMap m; nameMap := nameMap m; status := status m;
     finalized := finalized m; crumb := crumb m; regionSet := regionSet m;
     regionCache := regionCache m;
     pendingSelectionID := pendingSelectionID m;
     pendingSelectionNm := pendingSelectionNm m;
     pendingRegion := pendingRegion m;
     pendingContextName := pendingContextName m;
     pendingTenancyOCID := pendingTenancyOCID m; ultraCompact := v;
     initCmd := initCmd m |}.
Definition with_initCmd (v : Cmd) (m : tuiModel) : tuiModel :=
  {| list_ := list_ m; tenancies := tenancies m; cfg := cfg m;
     cfgPath := cfgPath m; selected := selected m; profiles := profiles m;
     err := err m; mode := mode m; ctxItem := ctxItem m; comps := comps m;
     regions := regions m; parentCrumb := parentCrumb m;
     compCache := compCache m; parentID := parentID m;
     parentMap := parentMap m; nameMap := nameMap m; status := status m;
     finalized := finalized m; crumb := crumb m; regionSet := regionSet m;
     regionCache := regionCache m;
     pendingSelectionID := pendingSelectionID m;
     pendingSelectionNm := pendingSelectionNm m;
     pendingRegion := pendingRegion m;
     pendingContextName := pendingContextName m;
     pendingTenancyOCID := pendingTenancyOCID m;
     ultraCompact := ultraCompact m; initCmd := v |}.

(** *** Delegates and titles

    [refreshDelegates] gives each list a delegate that points at one of the
    pending fields of the model, and then sets the titles. It runs at the
    start of every [Update] and [View], so a delegate never outlives the
    model value it points into: what a delegate marks is a function of the
    pending fields ([comp_marked] below) and the delegates carry no state. *)
Definition applyDensityMode (m : tuiModel) : tuiModel :=
  if ultraCompact m then
    let m := with_list_ (SetTitle "" (list_ m)) m in
    let m := with_tenancies (SetTitle "" (tenancies m)) m in
    let m := with_comps (SetTitle "" (comps m)) m in
    with_regions (SetTitle "" (regions m)) m
  else
    let m := with_list_ (SetTitle "Select OCI context" (list_ m)) m in
    let m := with_tenancies (SetTitle "Select tenancy" (tenancies m)) m in
    let m :=
      if decide (parentCrumb m ≠ "") then
        with_comps (SetTitle ("Select compartment under " +:+ parentCrumb m) (comps m)) m
      else with_comps (SetTitle "Select compartment (lazy load)" (comps m)) m in
    with_regions (SetTitle "Select region" (regions m)) m.

Definition refreshDelegates (m : tuiModel) : tuiModel := applyDensityMode m.

(** [compDelegate.Render]: the row is drawn as staged. *)
Definition comp_marked (m : tuiModel) (it : Item) : bool :=
  match it with
  | compRow ci =>
      bool_decide (pendingSelectionID m ≠ "" ∧ oci.ID (oc ci) = pendingSelectionID m)
  | _ => false
  end.

(** The [staged:] part of [compactMeta]. *)
Definition staged_meta (m : tuiModel) : string :=
  let staged := "-" in
  let staged := if decide (pendingContextName m ≠ "")
                then "ctx:" +:+ pendingContextName m else staged in
  let staged := if decide (pendingTenancyOCID m ≠ "")
                then "tenancy:" +:+ abbreviateOCID (pendingTenancyOCID m) else staged in
  let staged := if decide (pendingSelectionID m ≠ "")
                then "comp:" +:+ abbreviateOCID (pendingSelectionID m) else staged in
  if decide (pendingRegion m ≠ "") then "region:" +:+ pendingRegion m else staged.

(** *** Results of a step

    A step yields the next model, a command, and the files as [Save] left
    them. *)
Definition Step := (tuiModel * Cmd * config.World)%type.

(** What a [case] of the key switch does: return from [Update], or leave
    the switch with the model as changed so far. *)
Inductive Flow :=
| Return (r : Step)
| Leave (m : tuiModel).

Definition crumb_of (m : tuiModel) (parent : string) : string :=
  "Current: " +:+ parentCrumb m +:+ " (" +:+ parent +:+ ")".

Definition goUpOne (m : tuiModel) : tuiModel * Cmd :=
  if decide (parentID m = config.TenancyOCID (ctxItem m)) then
    let m := with_mode ModeContexts m in
    let m := with_status "" m in
    let m := with_crumb "" m in
    (m, CmdNil)
  else
    let parent := at_key (parentMap m) (parentID m) in
    let parent := if decide (parent = "") then config.TenancyOCID (ctxItem m)
                  else parent in
    let m := with_parentID parent m in
    let m :=
      if decide (at_key (nameMap m) parent ≠ "")
      then with_parentCrumb (at_key (nameMap m) parent) m
      else with_parentCrumb (parentLabel parent (ctxItem m)) m in
    let m := with_status "Loading compartments..." m in
    let m := with_crumb (crumb_of m (parentID m)) m in
    (m, loadCompsCmd (ctxItem m) (parentID m)).

Definition set_CompartmentOCID (v : string) (c : contextItem) : contextItem :=
  config.mkContext (config.Name c) (config.Profile c) (config.TenancyOCID c) v
    (config.Region c) (config.User c) (config.Notes c).

Definition set_Region (v : string) (c : contextItem) : contextItem :=
  config.mkContext (config.Name c) (config.Profile c) (config.TenancyOCID c)
    (config.CompartmentOCID c) v (config.User c) (config.Notes c).

Definition set_CurrentContext (v : string) (c : config.Config) : config.Config :=
  config.mkConfig (config.cOptions c) (config.Contexts c) v.

Definition finalizeSelection (m : tuiModel) (w : config.World) : Step :=
  let m := with_finalized true m in
  let m := with_selected (config.Name (ctxItem m)) m in
  let m := with_ctxItem (set_CompartmentOCID (parentID m) (ctxItem m)) m in
  let m := with_cfg (set_CurrentContext (config.Name (ctxItem m)) (cfg m)) m in
  match config.UpsertContext (ctxItem m) (cfg m) with
  | (c1, Some e) => (with_err (Some e) (with_cfg c1 m), Quit, w)
  | (c1, None) =>
      let m := with_cfg c1 m in
      match config.Save (cfgPath m) (cfg m) w with
      | (Some e, w1) => (with_err (Some e) m, Quit, w1)
      | (None, w1) => (m, Quit, w1)
      end
  end.

Definition saveAndQuitCurrentMode (m : tuiModel) (w : config.World) : Step :=
  match mode m with
  | ModeContexts =>
      match SelectedItem (list_ m) with
      | Some (ctxRow item) =>
          let prevCtxItem := ctxItem m in
          let m := with_ctxItem item m in
          let parent := "" in
          let parent :=
            if decide (pendingSelectionID m ≠ "" ∧ parentID m ≠ "" ∧
                       config.Name prevCtxItem = config.Name item)
            then parentID m else parent in
          let parent := if decide (parent = "") then start_parent item else parent in
          let m := with_parentID parent m in
          let m := with_parentCrumb (parentLabel parent item) m in
          finalizeSelection m w
      | _ => (m, CmdNil, w)
      end
  | ModeTenancies =>
      match SelectedItem (tenancies m) with
      | Some (tenancyRow item) =>
          let profileName :=
            selectProfileForTenancy item (profiles m)
              (config.DefaultProfile (config.cOptions (cfg m))) in
          match profiles m !! profileName with
          | Some p =>
              let m := with_ctxItem (contextItemForProfile profileName p) m in
              let m := with_parentID (TenancyOCID item) m in
              let m := with_parentCrumb (parentLabel (TenancyOCID item) (ctxItem m)) m in
              finalizeSelection m w
          | None => (m, CmdNil, w)
          end
      | _ => (m, CmdNil, w)
      end
  | ModeCompartments => finalizeSelection m w
  | ModeRegions =>
      match SelectedItem (regions m) with
      | Some (regionRow item) =>
          let m := with_ctxItem (set_Region (name item) (ctxItem m)) m in
          let m := with_regionSet true m in
          let m :=
            if decide (parentID m = "") then
              let parent := start_parent (ctxItem m) in
              let m := with_parentID parent m in
              with_parentCrumb (parentLabel parent (ctxItem m)) m
            else m in
          finalizeSelection m w
      | _ => (m, CmdNil, w)
      end
  end.

(** *** The key switch *)

(** The list of the current mode. *)
Definition active (m : tuiModel) : Model :=
  match mode m with
  | ModeContexts => list_ m
  | ModeTenancies => tenancies m
  | ModeCompartments => comps m
  | ModeRegions => regions m
  end.

Definition with_active (l : Model) (m : tuiModel) : tuiModel :=
  match mode m with
  | ModeContexts => with_list_ l m
  | ModeTenancies => with_tenancies l m
  | ModeCompartments => with_comps l m
  | ModeRegions => with_regions l m
  end.

(** [m.X, cmd = m.X.Update(msg); return m, cmd] for the list of the mode. *)
Definition to_widget (msg : Msg) (m : tuiModel) (w : config.World) : Step :=
  let '(l, c) := Update_list msg (active m) in
  (with_active l m, ListCmd c, w).

(** The filtered subset becomes the list and filtering ends. *)
Definition apply_filter (l : Model) : Model :=
  let vis := VisibleItems l in
  let l := SetItems vis l in
  let l := SetFilteringEnabled false l in
  if decide (0 < length vis) then Select 0 l else l.

(** The block that opens the compartments of a context; [enter] in the
    contexts list also drops the staged compartment and region first. *)
Definition open_compartments (item : contextItem) (m : tuiModel) : tuiModel * Cmd :=
  let parent := start_parent item in
  let m := with_parentMap ∅ m in
  let m := with_nameMap ∅ m in
  let m := with_parentID parent m in
  let m := with_parentCrumb (parentLabel parent item) m in
  let m := with_parentMap (<[parent := config.TenancyOCID item]> (parentMap m)) m in
  let m := with_nameMap (<[parent := parentCrumb m]> (nameMap m)) m in
  let m := with_nameMap (<[config.TenancyOCID item :=
                            parentLabel (config.TenancyOCID item) item]> (nameMap m)) m in
  let m := with_mode ModeCompartments m in
  let m := with_status "Loading compartments..." m in
  let m := with_crumb (crumb_of m parent) m in
  (m, loadCompsCmd (ctxItem m) parent).

Definition on_enter (m : tuiModel) (w : config.World) : Flow :=
  if decide (FilterState_of (active m) = Filtering) then
    Return (with_active (apply_filter (active m)) m, CmdNil, w)
  else
    match mode m with
    | ModeContexts =>
        match SelectedItem (list_ m) with
        | Some (ctxRow item) =>
            let m := with_ctxItem item m in
            let m := with_pendingSelectionID "" m in
            let m := with_pendingSelectionNm "" m in
            let m := with_pendingRegion "" m in
            let '(m, c) := open_compartments item m in
            Return (m, c, w)
        | _ => Leave m
        end
    | ModeTenancies =>
        if decide (length (Items (tenancies m)) = 0) then
          Return (with_status "No tenancies available" m, CmdNil, w)
        else
          match SelectedItem (tenancies m) with
          | Some (tenancyRow item) =>
              let profileName :=
                selectProfileForTenancy item (profiles m)
                  (config.DefaultProfile (config.cOptions (cfg m))) in
              match profiles m !! profileName with
              | None =>
                  Return (with_status ("profile " +:+ profileName +:+ " not found") m,
                          CmdNil, w)
              | Some p =>
                  let m := with_ctxItem (contextItemForProfile profileName p) m in
                  let m := with_pendingSelectionID "" m in
                  let m := with_pendingSelectionNm "" m in
                  let m := with_pendingRegion "" m in
                  let m :=
                    match list_find (is_context_named profileName) (Items (list_ m)) with
                    | Some (i, _) => with_list_ (Select i (list_ m)) m
                    | None => m
                    end in
                  let parent := TenancyOCID item in
                  let m := with_parentMap ∅ m in
                  let m := with_nameMap ∅ m in
                  let m := with_parentID parent m in
                  let m := with_parentCrumb (parentLabel parent (ctxItem m)) m in
                  let m := with_parentMap (<[parent := TenancyOCID item]> (parentMap m)) m in
                  let m := with_nameMap (<[parent := parentCrumb m]> (nameMap m)) m in
                  let m := with_nameMap
                             (<[TenancyOCID item :=
                                 parentLabel (TenancyOCID item) (ctxItem m)]> (nameMap m)) m in
                  let m := with_mode ModeCompartments m in
                  let m := with_status "Loading compartments..." m in
                  let m := with_crumb (crumb_of m parent) m in
                  Return (m, loadCompsCmd (ctxItem m) parent, w)
              end
          | _ => Return (m, CmdNil, w)
          end
    | ModeCompartments =>
        if decide (length (Items (comps m)) = 0) then Return (finalizeSelection m w)
        else
          match SelectedItem (comps m) with
          | Some (compRow item) =>
              let m := with_parentID (oci.ID (oc item)) m in
              let m := with_parentCrumb (oci.Name (oc item)) m in
              let m := with_nameMap (<[oci.ID (oc item) := oci.Name (oc item)]> (nameMap m)) m in
              let m := with_parentMap (<[oci.ID (oc item) := oci.Parent (oc item)]> (parentMap m)) m in
              let m := with_pendingSelectionID "" m in
              let m := with_pendingSelectionNm "" m in
              let m := with_status "Loading compartments..." m in
              let m := with_crumb (crumb_of m (parentID m)) m in
              Return (m, loadCompsCmd (ctxItem m) (oci.ID (oc item)), w)
          | _ => Leave m
          end
    | ModeRegions =>
        if decide (length (Items (regions m)) = 0) then Return (m, CmdNil, w)
        else
          match SelectedItem (regions m) with
          | Some (regionRow item) =>
              let m := with_ctxItem (set_Region (name item) (ctxItem m)) m in
              let m := with_regionSet true m in
              let m := with_mode ModeContexts m in
              let m := with_status ("Region set to " +:+ name item
                                      +:+ " (not saved until finalize)") m in
              Return (m, CmdNil, w)
          | _ => Leave m
          end
    end.

Definition on_space (m : tuiModel) : tuiModel :=
  match mode m with
  | ModeContexts =>
      match SelectedItem (list_ m) with
      | Some (ctxRow item) =>
          let m := with_ctxItem item m in
          let m := with_pendingContextName (config.Name item) m in
          let m := with_pendingSelectionID "" m in
          let m := with_pendingSelectionNm "" m in
          let m := with_pendingRegion "" m in
          let m := with_pendingTenancyOCID "" m in
          let parent := start_parent item in
          let m := with_parentID parent m in
          let m := with_parentCrumb (parentLabel parent item) m in
          with_status ("Context " +:+ config.Name item
                         +:+ " selected (pending save; Ctrl+S to save)") m
      | _ => m
      end
  | ModeTenancies =>
      match SelectedItem (tenancies m) with
      | Some (tenancyRow item) =>
          let m := with_pendingTenancyOCID (TenancyOCID item) m in
          let profileName :=
            selectProfileForTenancy item (profiles m)
              (config.DefaultProfile (config.cOptions (cfg m))) in
          match profiles m !! profileName with
          | Some p =>
              let m := with_ctxItem (contextItemForProfile profileName p) m in
              let m := with_pendingContextName profileName m in
              let m := with_pendingSelectionID "" m in
              let m := with_pendingSelectionNm "" m in
              let m := with_pendingRegion "" m in
              let m := with_parentID (TenancyOCID item) m in
              let m := with_parentCrumb (parentLabel (TenancyOCID item) (ctxItem m)) m in
              with_status ("Tenancy " +:+ abbreviateOCID (TenancyOCID item)
                             +:+ " selected (pending save; Ctrl+S to save)") m
          | None => m
          end
      | _ => m
      end
  | ModeCompartments =>
      match SelectedItem (comps m) with
      | Some (compRow item) =>
          let m := with_parentID (oci.ID (oc item)) m in
          let m := with_parentCrumb (oci.Name (oc item)) m in
          let m := with_nameMap (<[oci.ID (oc item) := oci.Name (oc item)]> (nameMap m)) m in
          let m := with_parentMap (<[oci.ID (oc item) := oci.Parent (oc item)]> (parentMap m)) m in
          let m := with_pendingSelectionID (oci.ID (oc item)) m in
          let m := with_pendingSelectionNm (oci.Name (oc item)) m in
          with_status ("Selected " +:+ oci.Name (oc item)
                         +:+ " (pending save; Enter/right to drill, Ctrl+S/q to save)") m
      | _ => m
      end
  | ModeRegions =>
      match SelectedItem (regions m) with
      | Some (regionRow item) =>
          let m := with_ctxItem (set_Region (name item) (ctxItem m)) m in
          let m := with_regionSet true m in
          let m := with_pendingRegion (name item) m in
          with_status ("Region set to " +:+ name item
                         +:+ " (pending save; Ctrl+S/q to save)") m
      | _ => m
      end
  end.

(** The region list for [item]: from the cache when it holds the name,
    else by a fetch. *)
Definition open_regions (item : contextItem) (m : tuiModel) : tuiModel * Cmd :=
  let m := with_mode ModeRegions m in
  let m := with_status "Loading regions..." m in
  match regionCache m !! config.Name item with
  | Some cached =>
      let m := with_regions (SetItems (toRegionList cached) (regions m)) m in
      let m := with_regions (Select 0 (regions m)) m in
      let m := with_status "Select region (Space to stage, Ctrl+S to save)" m in
      (m, CmdNil)
  | None => (m, loadRegionsCmd item)
  end.

Definition zero_contextItem : contextItem := config.mkContext "" "" "" "" "" "" "".

Definition start_filtering (l : Model) : Model :=
  SetFilterState Filtering (SetFilterText "" (SetFilteringEnabled true l)).

Definition on_back (m : tuiModel) (w : config.World) : Flow :=
  match mode m with
  | ModeCompartments =>
      if decide (FilterState_of (comps m) ≠ Filtering) then
        let m := with_status "Loading parent..." m in
        let '(m, c) := goUpOne m in Return (m, c, w)
      else Leave m
  | ModeTenancies =>
      if decide (FilterState_of (tenancies m) ≠ Filtering) then
        let m := with_mode ModeContexts m in
        let m := with_pendingSelectionID "" m in
        let m := with_pendingSelectionNm "" m in
        let m := with_status "" m in
        Return (m, CmdNil, w)
      else Leave m
  | ModeRegions =>
      if decide (FilterState_of (regions m) ≠ Filtering) then
        let m := with_mode ModeContexts m in
        let m := with_status "" m in
        Return (m, CmdNil, w)
      else Leave m
  | ModeContexts => Leave m
  end.

Definition open_tenancies (m : tuiModel) (w : config.World) : Flow :=
  if decide (length (Items (tenancies m)) = 0) then
    Return (with_status "No tenancies available" m, CmdNil, w)
  else
    let m := with_mode ModeTenancies m in
    let m := with_status "Select tenancy (Enter to use a profile and open root)" m in
    Return (m, CmdNil, w).

Definition toggle_ultra (m : tuiModel) : tuiModel :=
  let m := with_ultraCompact (negb (ultraCompact m)) m in
  let m := applyDensityMode m in
  if ultraCompact m then with_status "ULTRA mode: ON" m
  else with_status "ULTRA mode: OFF" m.

Definition key_switch (key : string) (m : tuiModel) (w : config.World) : Flow :=
  if decide (key = "enter" ∨ key = "right") then on_enter m w
  else if decide (key = " ") then Return (on_space m, CmdNil, w)
  else if decide (key = "ctrl+s") then Return (saveAndQuitCurrentMode m w)
  else if decide (key = "q") then Return (saveAndQuitCurrentMode m w)
  else if decide (key = "esc" ∨ key = "ctrl+c") then Return (m, Quit, w)
  else if decide (key = "b") then
    match mode m with
    | ModeContexts => Leave (with_status "" (with_mode ModeContexts m))
    | _ => Leave m
    end
  else if decide (key = "delete" ∨ key = "backspace") then on_back m w
  else if decide (key = "r") then
    match mode m, SelectedItem (list_ m) with
    | ModeContexts, Some (ctxRow item) =>
        let m := with_ctxItem item m in
        let '(m, c) := open_regions item m in Return (m, c, w)
    | _, _ => Leave m
    end
  else if decide (key = "R") then
    match mode m with
    | ModeContexts => Leave m
    | _ => let '(m, c) := open_regions (ctxItem m) m in Return (m, c, w)
    end
  else if decide (key = "c") then
    match mode m, SelectedItem (list_ m) with
    | ModeContexts, Some (ctxRow item) =>
        let m := with_ctxItem item m in
        let '(m, c) := open_compartments item m in Return (m, c, w)
    | _, _ => Leave m
    end
  else if decide (key = "C") then
    match mode m with
    | ModeContexts => Leave m
    | _ =>
        let m :=
          if decide (ctxItem m = zero_contextItem) then
            match selectInitialContext (Items (list_ m))
                    (config.CurrentContext (cfg m)) with
            | Some ctx => with_ctxItem ctx m
            | None => m
            end
          else m in
        let '(m, c) := open_compartments (ctxItem m) m in Return (m, c, w)
    end
  else if decide (key = "t") then
    match mode m with
    | ModeContexts => open_tenancies m w
    | _ => Leave m
    end
  else if decide (key = "T") then
    match mode m with
    | ModeContexts => Leave m
    | _ => open_tenancies m w
    end
  else if decide (key = "p") then
    match mode m with
    | ModeContexts => Return (with_status "" m, CmdNil, w)
    | _ => Leave m
    end
  else if decide (key = "P") then
    match mode m with
    | ModeContexts => Leave m
    | _ =>
        let m := with_mode ModeContexts m in
        let m := with_status "" m in
        let m := with_crumb "" m in
        Return (m, CmdNil, w)
    end
  else if decide (key = "/") then
    Return (with_active (start_filtering (active m)) m, CmdNil, w)
  else if decide (key = "u") then Return (toggle_ultra m, CmdNil, w)
  else Leave m.

(** The loop over the fetched children: each child's parent and name are
    recorded. *)
Definition note_children (items : list compItem) (m : tuiModel) : tuiModel :=
  foldl (λ m it,
           let m := with_parentMap
                      (<[oci.ID (oc it) := oci.Parent (oc it)]> (parentMap m)) m in
           with_nameMap (<[oci.ID (oc it) := oci.Name (oc it)]> (nameMap m)) m)
        m items.

(** The statements after the switch: the two completion messages, then the
    list of the mode gets the message. *)
Definition after_switch (msg : Msg) (m : tuiModel) (w : config.World) : Step :=
  match msg with
  | compResultMsg parent items (Some e) => (with_err (Some e) m, Quit, w)
  | compResultMsg parent items None =>
      let m := with_compCache (<[parent := items]> (compCache m)) m in
      let m := note_children items m in
      let m := with_comps (SetItems (toList items) (comps m)) m in
      let m := with_comps (SetTitle ("Select compartment under " +:+ parent) (comps m)) m in
      let m :=
        if decide (length items = 0) then
          with_status "Leaf compartment: press backspace/delete to go up, or Enter/Space/Ctrl+S to keep current." m
        else with_status "" m in
      to_widget msg m w
  | regionResultMsg ctxName items (Some e) =>
      let m := with_status ("Region fetch failed: " +:+ e +:+ " (showing defaults)") m in
      let m := with_regionCache (<[ctxName := fallbackRegions]> (regionCache m)) m in
      let m := with_regions (SetItems (toRegionList fallbackRegions) (regions m)) m in
      let m := with_regions (Select 0 (regions m)) m in
      (m, CmdNil, w)
  | regionResultMsg ctxName items None =>
      let m := with_regionCache (<[ctxName := items]> (regionCache m)) m in
      let items := if decide (length items = 0) then fallbackRegions else items in
      let m := with_regions (SetItems (toRegionList items) (regions m)) m in
      let m := with_regions (Select 0 (regions m)) m in
      let m := with_status "Select region (Space to stage, Ctrl+S to save)" m in
      (m, CmdNil, w)
  | _ => to_widget msg m w
  end.

Definition Update (msg : Msg) (m : tuiModel) (w : config.World) : Step :=
  let m := refreshDelegates m in
  match msg with
  | WindowSizeMsg width height =>
      after_switch msg (with_active (SetSize width height (active m)) m) w
  | KeyMsg key =>
      if decide (FilterState_of (active m) = Filtering ∧ key ≠ "enter") then
        to_widget msg m w
      else
        match key_switch key m w with
        | Return r => r
        | Leave m => after_switch msg m w
        end
  | _ => after_switch msg m w
  end.

(** *** Sessions

    The program hands the messages to [Update] one at a time, in arrival
    order, and ends with the step that returns [tea.Quit]. [session] gives
    the commands issued, the final model and the files. *)
Fixpoint session (msgs : list Msg) (m : tuiModel) (w : config.World)
  : list Cmd * tuiModel * config.World :=
  match msgs with
  | [] => ([], m, w)
  | msg :: rest =>
      let '(m1, c, w1) := Update msg m w in
      match c with
      | Quit => ([c], m1, w1)
      | _ => let '(cs, m2, w2) := session rest m1 w1 in (c :: cs, m2, w2)
      end
  end.

(** [loadRegionsCmd] is the only command that asks the remote side for
    regions. *)
Definition fetches_regions_of (n : string) (c : Cmd) : Prop :=
  match c with
  | loadRegionsCmd item => config.Name item = n
  | _ => False
  end.

(** *** What the properties speak about *)

(** The part of the model that only a commit or a region result changes. *)
Definition core (m : tuiModel)
  : config.Config * string * bool * gmap string (list string) :=
  (cfg m, cfgPath m, finalized m, regionCache m).

(** The four pending fields: what is staged. *)
Definition staging (m : tuiModel) : string * string * string * string :=
  (pendingContextName m, pendingTenancyOCID m, pendingSelectionID m,
   pendingRegion m).

(** What every step keeps: the path of the file; the names the region cache
    holds; no region fetch for a cached name; and either nothing of the
    store (neither the files nor the configuration nor [finalized]), or the
    step is a commit: it ends the session with [finalized] set after one
    [Save] of the new configuration. *)
Definition step_ok (m : tuiModel) (w : config.World) (r : Step) : Prop :=
  cfgPath r.1.1 = cfgPath m ∧
  (∀ n, is_Some (regionCache m !! n) → is_Some (regionCache r.1.1 !! n)) ∧
  (∀ item, r.1.2 = loadRegionsCmd item →
           regionCache m !! config.Name item = None) ∧
  ((r.2 = w ∧ cfg r.1.1 = cfg m ∧ finalized r.1.1 = finalized m) ∨
   (r.1.2 = Quit ∧ finalized r.1.1 = true ∧
    config.save_calls r.2
      = config.save_calls w ++ [(cfgPath m, cfg r.1.1)])).

(** A step that leaves the store alone and fetches no regions. *)
Definition quiet (m : tuiModel) (w : config.World) (r : Step) : Prop :=
  core r.1.1 = core m ∧ r.2 = w ∧ (∀ item, r.1.2 ≠ loadRegionsCmd item).

(** A [case] of the key switch either returns a step of [step_ok], or
    leaves the switch with the core of the model as it was. *)
Definition flow_ok (m0 : tuiModel) (w : config.World) (f : Flow) : Prop :=
  match f with
  | Return r => step_ok m0 w r
  | Leave m1 => core m1 = core m0
  end.

(** A [case] of the key switch that keeps what is staged and does not end
    the session. *)
Definition flow_keeps_staging (m : tuiModel) (f : Flow) : Prop :=
  match f with
  | Return r => staging r.1.1 = staging m ∧ r.1.2 ≠ Quit
  | Leave m1 => staging m1 = staging m
  end.

(** A row of the current list is selected that a commit can fold into the
    active context. *)
Definition committable (m : tuiModel) : Prop :=
  match mode m with
  | ModeContexts => ∃ item, SelectedItem (list_ m) = Some (ctxRow item)
  | ModeTenancies =>
      ∃ item, SelectedItem (tenancies m) = Some (tenancyRow item) ∧
              is_Some (profiles m !! selectProfileForTenancy item (profiles m)
                         (config.DefaultProfile (config.cOptions (cfg m))))
  | ModeCompartments => True
  | ModeRegions => ∃ item, SelectedItem (regions m) = Some (regionRow item)
  end.

(** The keys bound to leaving without saving, to committing, and to
    switching between the lists. *)
Definition quit_key (key : string) : Prop := key = "esc" ∨ key = "ctrl+c".
Definition commit_key (key : string) : Prop := key = "ctrl+s" ∨ key = "q".
Definition switch_keys : list string :=
  ["t"; "T"; "c"; "C"; "r"; "R"; "p"; "P"; "b"].

(** The claim that the quit keys end the session without touching the
    store, for one state. *)
Definition quit_ends_session (m : tuiModel) (w : config.World) : Prop :=
  ∀ key, quit_key key →
    (Update (KeyMsg key) m w).1.2 = Quit ∧
    (Update (KeyMsg key) m w).2 = w ∧
    cfg (Update (KeyMsg key) m w).1.1 = cfg m ∧
    finalized (Update (KeyMsg key) m w).1.1 = finalized m.

(** The claim that a commit key calls [Save] exactly once, for one state. *)
Definition commit_saves_once (m : tuiModel) (w : config.World) : Prop :=
  ∀ key, commit_key key →
    ∃ c, config.save_calls (Update (KeyMsg key) m w).2
           = config.save_calls w ++ [(cfgPath m, c)].

(** The claim of the leaf policy, for one state: with no children listed,
    [enter] in the compartments list commits the cursor. *)
Definition leaf_confirm_commits (m : tuiModel) (w : config.World) : Prop :=
  mode m = ModeCompartments → Items (comps m) = [] →
  let r := Update (KeyMsg "enter") m w in
  let ctx := set_CompartmentOCID (parentID m) (ctxItem m) in
  r.1.2 = Quit ∧ finalized r.1.1 = true ∧
  ctxItem r.1.1 = ctx ∧
  config.CompartmentOCID (ctxItem r.1.1) = parentID m ∧
  config.CurrentContext (cfg r.1.1) = config.Name (ctxItem m) ∧
  cfg r.1.1 = (config.UpsertContext ctx
                 (set_CurrentContext (config.Name (ctxItem m)) (cfg m))).1 ∧
  config.GetContext (cfg r.1.1) (config.Name (ctxItem m)) = inl ctx ∧
  config.save_calls r.2 = config.save_calls w ++ [(cfgPath m, cfg r.1.1)] ∧
  ((∃ e, head (config.faults w) = Some (Some e)) ∨
   config.files r.2 !! cfgPath m = Some (cfg r.1.1)).

(** The title [applyDensityMode] gives the region list. *)
Definition region_title (m : tuiModel) : string :=
  if ultraCompact m then "" else "Select region".

(** [newTuiModel] for the default start mode, where [applyStartMode] does
    nothing. [width] and [height] are the size it settled on; [tenancyNames]
    is the name cache as [primeTenancyNames] left it. *)
Definition newTuiModel (tenancyNames : gmap string string) (width height : Z)
    (cfg : config.Config) (cfgPath : string) (items : list Item)
    (profiles : gmap string ocicfg.Profile) : tuiModel :=
  let l := New items width height in
  let l := SetTitle "Select OCI context" l in
  let l := SetFilteringEnabled true l in
  let tn := New [] width height in
  let tn := SetTitle "Select tenancy" tn in
  let tn := SetFilteringEnabled true tn in
  let tn := if decide (0 < size profiles)
            then SetItems (tenanciesFromProfiles tenancyNames profiles) tn
            else tn in
  let l :=
    if decide (config.CurrentContext cfg ≠ "") then
      match list_find (is_context_named (config.CurrentContext cfg)) items with
      | Some (i, _) => Select i l
      | None => l
      end
    else l in
  let cl := New [] width height in
  let cl := SetTitle "Select compartment (lazy load)" cl in
  let cl := SetFilteringEnabled true cl in
  let rl := New [] width height in
  let rl := SetTitle "Select region" rl in
  let rl := SetFilteringEnabled true rl in
  refreshDelegates
    {| list_ := l; tenancies := tn; cfg := cfg; cfgPath := cfgPath;
       selected := ""; profiles := profiles; err := None;
       mode := ModeContexts; ctxItem := zero_contextItem; comps := cl;
       regions := rl; parentCrumb := ""; compCache := ∅; parentID := "";
       parentMap := ∅; nameMap := ∅; status := ""; finalized := false;
       crumb := ""; regionSet := false; regionCache := ∅;
       pendingSelectionID := ""; pendingSelectionNm := "";
       pendingRegion := ""; pendingContextName := "";
       pendingTenancyOCID := ""; ultraCompact := false; initCmd := CmdNil |}.

End tui.

(** *** A list widget for the examples

    A small stand-in for the bubbles list: it keeps the rows, a cursor, the
    filter state and the filter text. While filtering, [esc] leaves the
    filter and a one-character key is added to the filter text; otherwise
    [up]/[down] move the cursor. The visible rows are those whose filter
    value starts with the filter text. It issues no commands. *)
Record simple_list := mkSimpleList {
  sl_items : list Item;
  sl_cursor : nat;
  sl_state : FilterState;
  sl_enabled : bool;
  sl_text : string;
  sl_title : string;
  sl_width : Z;
  sl_height : Z
}.

Definition sl_visible (l : simple_list) : list Item :=
  match sl_state l with
  | Unfiltered => sl_items l
  | _ => filter (λ it, String.prefix (sl_text l) (FilterValue it) = true) (sl_items l)
  end.

Definition sl_update (msg : Msg) (l : simple_list) : simple_list * unit :=
  match msg with
  | KeyMsg key =>
      match sl_state l with
      | Filtering =>
          if decide (key = "esc") then
            (mkSimpleList (sl_items l) 0 Unfiltered (sl_enabled l) ""
               (sl_title l) (sl_width l) (sl_height l), tt)
          else if decide (String.length key = 1) then
            (mkSimpleList (sl_items l) 0 Filtering (sl_enabled l)
               (sl_text l +:+ key) (sl_title l) (sl_width l) (sl_height l), tt)
          else (l, tt)
      | _ =>
          if decide (key = "down") then
            (mkSimpleList (sl_items l)
               (if decide (S (sl_cursor l) < length (sl_visible l))
                then S (sl_cursor l) else sl_cursor l)
               (sl_state l) (sl_enabled l) (sl_text l) (sl_title l)
               (sl_width l) (sl_height l), tt)
          else if decide (key = "up") then
            (mkSimpleList (sl_items l) (pred (sl_cursor l)) (sl_state l)
               (sl_enabled l) (sl_text l) (sl_title l) (sl_width l)
               (sl_height l), tt)
          else (l, tt)
      end
  | _ => (l, tt)
  end.

#[global, refine] Instance simple_widget : ListWidget := {|
  Model := simple_list;
  WCmd := unit;
  New items width height := mkSimpleList items 0 Unfiltered true "" "" width height;
  Items := sl_items;
  VisibleItems := sl_visible;
  SelectedItem l := sl_visible l !! sl_cursor l;
  FilterState_of := sl_state;
  SetItems items l :=
    mkSimpleList items (sl_cursor l) (sl_state l) (sl_enabled l) (sl_text l)
      (sl_title l) (sl_width l) (sl_height l);
  Select i l :=
    mkSimpleList (sl_items l) i (sl_state l) (sl_enabled l) (sl_text l)
      (sl_title l) (sl_width l) (sl_height l);
  SetSize width height l :=
    mkSimpleList (sl_items l) (sl_cursor l) (sl_state l) (sl_enabled l)
      (sl_text l) (sl_title l) width height;
  SetFilteringEnabled v l :=
    if v then
      mkSimpleList (sl_items l) (sl_cursor l) (sl_state l) true (sl_text l)
        (sl_title l) (sl_width l) (sl_height l)
    else
      mkSimpleList (sl_items l) (sl_cursor l) Unfiltered false ""
        (sl_title l) (sl_width l) (sl_height l);
  SetFilterText text l :=
    mkSimpleList (sl_items l) 0 FilterApplied (sl_enabled l) text
      (sl_title l) (sl_width l) (sl_height l);
  SetFilterState state l :=
    mkSimpleList (sl_items l) 0 state (sl_enabled l) (sl_text l)
      (sl_title l) (sl_width l) (sl_height l);
  SetTitle title l :=
    mkSimpleList (sl_items l) (sl_cursor l) (sl_state l) (sl_enabled l)
      (sl_text l) title (sl_width l) (sl_height l);
  Update_list := sl_update
|}.
Proof. all: done. Defined.

(** *** Sample data for the examples, after the repository's tests *)

Definition sample_ctx : contextItem :=
  config.mkContext "dev" "DEFAULT" "ocid1.tenancy.oc1..ten" ""
    "us-phoenix-1" "ocid1.user.oc1..user" "".

Definition sample_cfg : config.Config :=
  config.mkConfig (config.mkOptions "/tmp/oci" "" "") [sample_ctx] "".

Definition sample_world : config.World := config.mkWorld ∅ [] [].

Definition sample_profiles : gmap string ocicfg.Profile :=
  {[ "DEFAULT" := ocicfg.mkProfile "ocid1.user.oc1..user"
                    "ocid1.tenancy.oc1..ten" "us-phoenix-1" ]}.

Definition sample_child : compItem :=
  mkCompItem (oci.mkCompartment "ocid1.compartment.oc1..child" "child"
                "ACTIVE" "ocid1.tenancy.oc1..ten").

(** The picker as it starts on one stored context and one profile. *)
Definition sample_model : tuiModel :=
  newTuiModel ∅ 80 20 sample_cfg "/tmp/config.yml" [ctxRow sample_ctx]
    sample_profiles.

(** The picker as it starts with nothing to list. *)
Definition empty_model : tuiModel :=
  newTuiModel ∅ 80 20 (config.mkConfig (config.mkOptions "/tmp/oci" "" "") [] "")
    "/tmp/config.yml" [] ∅.

(** The model a session leaves. *)
Definition after (msgs : list Msg) (m : tuiModel) : tuiModel :=
  (session msgs m sample_world).1.2.

End cmd.

(* ===================================================================== *)
(** * Properties *)
(* ===================================================================== *)

(** ** The context store *)
Section store.
Import config.
Implicit Types (c : Config) (ctx x : Context) (cs : list Context).
Implicit Types (n name : string) (i j idx : nat).

Lemma find_by_name_Some name cs i x :
  find_by_name name cs = Some (i, x) →
  cs !! i = Some x ∧ Name x = name ∧
  ∀ j y, cs !! j = Some y → j < i → Name y ≠ name.
Proof. unfold find_by_name. intros H. by apply list_find_Some in H. Qed.

Lemma find_by_name_None name cs :
  find_by_name name cs = None ↔ name ∉ Name <$> cs.
Proof.
  unfold find_by_name. rewrite list_find_None, Forall_forall.
  rewrite list_elem_of_fmap. split.
  - intros H (x & -> & Hx). by apply (H x).
  - intros H x Hx Hn. apply H. eauto.
Qed.

Lemma names_insert_same cs i x ctx :
  cs !! i = Some x → Name x = Name ctx →
  Name <$> <[i := ctx]> cs = Name <$> cs.
Proof.
  intros Hi Hn. rewrite list_fmap_insert, <- Hn.
  apply list_insert_id. by rewrite list_lookup_fmap, Hi.
Qed.

Lemma UpsertContext_names_present ctx c i x :
  find_by_name (Name ctx) (Contexts c) = Some (i, x) →
  names (fst (UpsertContext ctx c)) = names c.
Proof.
  intros H. unfold UpsertContext, names. rewrite H. simpl.
  apply find_by_name_Some in H as (Hi & Hn & _).
  by eapply names_insert_same.
Qed.

Lemma UpsertContext_names_absent ctx c :
  find_by_name (Name ctx) (Contexts c) = None →
  names (fst (UpsertContext ctx c)) = (names c ++ [Name ctx])%list.
Proof.
  intros H. unfold UpsertContext, names. rewrite H. simpl.
  by rewrite fmap_app.
Qed.

Lemma UpsertContext_current_ok ctx c :
  current_ok c → current_ok (fst (UpsertContext ctx c)).
Proof.
  intros Hok. unfold current_ok.
  destruct (find_by_name (Name ctx) (Contexts c)) as [[i x]|] eqn:Hf.
  - rewrite (UpsertContext_names_present _ _ _ _ Hf).
    unfold UpsertContext. rewrite Hf. exact Hok.
  - rewrite (UpsertContext_names_absent _ _ Hf).
    unfold UpsertContext. rewrite Hf. simpl.
    destruct (decide (CurrentContext c = "")) as [He|He].
    + right. apply elem_of_app. right. apply list_elem_of_singleton. done.
    + destruct Hok as [?|Hin]; [done|]. right. apply elem_of_app. by left.
Qed.

Lemma names_delete_other cs idx x n :
  cs !! idx = Some x → n ≠ Name x → n ∈ Name <$> cs →
  n ∈ Name <$> (take idx cs ++ drop (S idx) cs)%list.
Proof.
  intros Hi Hne Hin.
  rewrite <- (take_drop_middle cs idx x Hi) in Hin.
  rewrite fmap_app, fmap_cons in Hin. rewrite fmap_app.
  apply elem_of_app in Hin as [?|Hin]; [apply elem_of_app; by left|].
  apply elem_of_cons in Hin as [?|?]; [done|apply elem_of_app; by right].
Qed.

Lemma DeleteContext_current_ok name c :
  current_ok c → current_ok (fst (DeleteContext name c)).
Proof.
  intros Hok. unfold DeleteContext.
  destruct (find_by_name name (Contexts c)) as [[idx x]|] eqn:Hf; [|done].
  apply find_by_name_Some in Hf as (Hi & Hn & _).
  unfold current_ok, names. simpl.
  destruct (decide (CurrentContext c = name)) as [He|He]; [by left|].
  destruct Hok as [?|Hin]; [by left|]. right.
  eapply names_delete_other; eauto. congruence.
Qed.

(** C2. Whatever upserts and deletes are applied to a store whose
    [currentContext] is empty or names a stored context, [currentContext]
    is still empty or the name of a stored context afterwards; and deleting
    the current context of such a store leaves [currentContext] empty. *)
Theorem C2_current_never_dangling c ops :
  current_ok c →
  current_ok (apply_ops ops c) ∧
  CurrentContext (fst (DeleteContext (CurrentContext c) c)) = "".
Proof.
  intros Hok. split.
  - revert c Hok. induction ops as [|o ops IH]; intros c Hok; [done|].
    apply IH. destruct o; simpl.
    + by apply UpsertContext_current_ok.
    + by apply DeleteContext_current_ok.
  - unfold DeleteContext.
    destruct (find_by_name _ _) as [[idx x]|] eqn:Hf; simpl.
    + by rewrite decide_True.
    + destruct Hok as [?|Hin]; [done|].
      apply find_by_name_None in Hf. done.
Qed.

(** C2 at a store with one context that is current: an upsert of a second
    context followed by the deletion of the first. *)
Lemma C2_current_never_dangling_witness :
  let dev := mkContext "dev" "DEFAULT" "t1" "c1" "r1" "" "" in
  let prod := mkContext "prod" "PROD" "t2" "c2" "r2" "" "" in
  let c := mkConfig (mkOptions "" "" "") [dev] "dev" in
  current_ok (apply_ops [OpUpsert prod; OpDelete "dev"] c) ∧
  CurrentContext (fst (DeleteContext (CurrentContext c) c)) = "".
Proof.
  intros dev prod c.
  apply (C2_current_never_dangling c [OpUpsert prod; OpDelete "dev"]).
  right. unfold names. simpl. apply list_elem_of_here.
Defined.

(** *** The two shapes of an upsert *)

Lemma find_by_name_app_cons n l1 x l2 :
  n ∉ Name <$> l1 → Name x = n →
  find_by_name n (l1 ++ x :: l2) = Some (length l1, x).
Proof.
  intros Hl1 Hx. unfold find_by_name.
  induction l1 as [|y l1 IH]; simpl.
  - by rewrite decide_True.
  - rewrite fmap_cons, not_elem_of_cons in Hl1. destruct Hl1 as [Hy Hl1].
    rewrite decide_False by congruence.
    by rewrite (IH Hl1).
Qed.

Lemma find_by_name_split n cs i x :
  find_by_name n cs = Some (i, x) →
  ∃ l1 l2, cs = (l1 ++ x :: l2)%list ∧ length l1 = i ∧
           Name x = n ∧ n ∉ Name <$> l1.
Proof.
  intros H. apply find_by_name_Some in H as (Hi & Hn & Hlt).
  exists (take i cs), (drop (S i) cs). split_and!.
  - by rewrite take_drop_middle.
  - apply length_take_le. apply lookup_lt_Some in Hi. lia.
  - done.
  - rewrite list_elem_of_fmap. intros (y & Hy & Hin).
    apply list_elem_of_lookup in Hin as [j Hj].
    pose proof (lookup_lt_Some _ _ _ Hj) as Hlen.
    rewrite length_take in Hlen.
    rewrite lookup_take_lt in Hj by lia.
    apply (Hlt j y Hj); [lia|done].
Qed.

Lemma UpsertContext_shape ctx c : upsert_shape ctx c (fst (UpsertContext ctx c)).
Proof.
  unfold UpsertContext.
  destruct (find_by_name (Name ctx) (Contexts c)) as [[i x]|] eqn:Hf; simpl.
  - destruct (find_by_name_split _ _ _ _ Hf) as (l1 & l2 & Hcs & Hlen & Hn & Hl1).
    rewrite Hcs at 1. subst i.
    replace (<[length l1:=ctx]> (l1 ++ x :: l2)) with (l1 ++ ctx :: l2)%list.
    + by eapply upsert_replaced.
    + rewrite insert_app_r_alt by lia. by rewrite Nat.sub_diag.
  - apply upsert_appended. by apply find_by_name_None.
Qed.

Lemma filter_name_absent n cs :
  n ∉ Name <$> cs → filter (λ x, Name x = n) cs = [].
Proof.
  intros H. induction cs as [|y cs IH]; [done|].
  rewrite fmap_cons, not_elem_of_cons in H. destruct H as [Hy H].
  rewrite filter_cons_False by congruence. auto.
Qed.

(** C9. An upsert leaves a non-empty [currentContext] as it is; every
    stored context of another name keeps its index and its fields; and
    [currentContext] changes only when it was empty and the name was new,
    in which case it becomes the name of the inserted context. *)
Theorem C9_upsert_frame ctx c :
  (CurrentContext c ≠ "" →
   CurrentContext (fst (UpsertContext ctx c)) = CurrentContext c) ∧
  (∀ i x, Contexts c !! i = Some x → Name x ≠ Name ctx →
          Contexts (fst (UpsertContext ctx c)) !! i = Some x) ∧
  (CurrentContext (fst (UpsertContext ctx c)) ≠ CurrentContext c →
   CurrentContext c = "" ∧ (Name ctx ∉ names c) ∧
   CurrentContext (fst (UpsertContext ctx c)) = Name ctx) ∧
  (CurrentContext c = "" → Name ctx ∉ names c →
   CurrentContext (fst (UpsertContext ctx c)) = Name ctx).
Proof.
  destruct (UpsertContext_shape ctx c) as [l1 y l2 Hcs Hy Hl1|Habs]; simpl.
  - split_and!; try done.
    + intros i x Hi Hne. rewrite Hcs in Hi.
      destruct (decide (i < length l1)) as [Hlt|Hge].
      * rewrite lookup_app_l in Hi by done. by rewrite lookup_app_l.
      * rewrite lookup_app_r in Hi by lia. rewrite lookup_app_r by lia.
        destruct (i - length l1) as [|k]; simpl in *; [congruence|done].
    + intros _ Habs. exfalso. apply Habs. unfold names. rewrite Hcs.
      rewrite fmap_app, fmap_cons, Hy. apply elem_of_app. right.
      apply list_elem_of_here.
  - split_and!.
    + intros Hne. by rewrite decide_False.
    + intros i x Hi _. by apply lookup_app_l_Some.
    + destruct (decide (CurrentContext c = "")); done.
    + intros He _. by rewrite decide_True.
Qed.

(** C9 at a store whose current context is ["dev"]: upserting ["prod"]. *)
Lemma C9_upsert_frame_witness :
  let dev := mkContext "dev" "DEFAULT" "t1" "c1" "r1" "" "" in
  let prod := mkContext "prod" "PROD" "t2" "c2" "r2" "" "" in
  let c := mkConfig (mkOptions "" "" "") [dev] "dev" in
  CurrentContext (fst (UpsertContext prod c)) = "dev" ∧
  Contexts (fst (UpsertContext prod c)) !! 0 = Some dev.
Proof.
  intros dev prod c.
  destruct (C9_upsert_frame prod c) as (Hcur & Hpos & _).
  split.
  - apply Hcur. discriminate.
  - apply Hpos; [reflexivity | discriminate].
Defined.

(** *** Stored names stay pairwise distinct *)

Lemma UpsertContext_NoDup ctx c :
  NoDup (names c) → NoDup (names (fst (UpsertContext ctx c))).
Proof.
  intros Hnd.
  destruct (UpsertContext_shape ctx c) as [l1 y l2 Hcs Hy Hl1|Habs];
    unfold names in *; simpl.
  - rewrite Hcs in Hnd. rewrite fmap_app, fmap_cons in *. by rewrite <- Hy.
  - rewrite fmap_app. apply NoDup_app. split_and!; [done| |].
    + intros n Hn Hin. apply list_elem_of_singleton in Hin. by subst.
    + apply NoDup_singleton.
Qed.

Lemma DeleteContext_NoDup name c :
  NoDup (names c) → NoDup (names (fst (DeleteContext name c))).
Proof.
  intros Hnd. unfold DeleteContext.
  destruct (find_by_name name (Contexts c)) as [[i x]|] eqn:Hf; [|done].
  destruct (find_by_name_split _ _ _ _ Hf) as (l1 & l2 & Hcs & Hlen & _).
  unfold names in *. simpl. rewrite Hcs in *. subst i.
  rewrite take_app_length.
  rewrite drop_app_ge by lia.
  replace (S (length l1) - length l1) with 1 by lia. simpl.
  rewrite fmap_app, fmap_cons in Hnd. rewrite fmap_app.
  apply NoDup_app in Hnd as (H1 & H2 & H3). apply NoDup_cons in H3 as [_ H3].
  apply NoDup_app. split_and!; [done| |done].
  intros n Hn Hin. apply (H2 n Hn). by apply list_elem_of_further.
Qed.

Lemma apply_ops_NoDup ops c : NoDup (names c) → NoDup (names (apply_ops ops c)).
Proof.
  revert c. induction ops as [|o ops IH]; intros c Hnd; [done|].
  apply IH. destruct o; simpl;
    [by apply UpsertContext_NoDup | by apply DeleteContext_NoDup].
Qed.

Lemma upsert_twice_shape a b c :
  Name a = Name b →
  (∃ l1 x l2, Contexts c = (l1 ++ x :: l2)%list ∧ Name x = Name a ∧
     (Name a ∉ Name <$> l1) ∧
     Contexts (fst (UpsertContext b (fst (UpsertContext a c))))
       = (l1 ++ b :: l2)%list) ∨
  ((Name a ∉ names c) ∧
   Contexts (fst (UpsertContext b (fst (UpsertContext a c))))
     = (Contexts c ++ [b])%list).
Proof.
  intros Hab.
  destruct (UpsertContext_shape a c) as [l1 x l2 Hcs Hx Hl1|Habs].
  - left. exists l1, x, l2. split_and!; try done.
    unfold UpsertContext at 1. simpl.
    rewrite <- Hab. rewrite (find_by_name_app_cons (Name a) l1 a l2) by done.
    simpl. rewrite insert_app_r_alt by lia. by rewrite Nat.sub_diag.
  - right. split; [done|].
    unfold UpsertContext at 1. simpl.
    rewrite <- Hab.
    rewrite (find_by_name_app_cons (Name a) (Contexts c) a []) by done.
    simpl. rewrite insert_app_r_alt by lia. by rewrite Nat.sub_diag.
Qed.

(** C6 (amended). In a store whose context names are pairwise distinct,
    upserting two contexts of one name, one after the other, leaves exactly
    one stored context of that name, the second one, and the store has
    grown by at most one context. *)
Theorem C6_upsert_same_name_twice c a b :
  NoDup (names c) → upsert_twice_one_stored c a b.
Proof.
  intros Hnd Hab. unfold named.
  destruct (upsert_twice_shape a b c Hab)
    as [(l1 & x & l2 & Hcs & Hx & Hl1 & ->)|(Habs & ->)].
  - unfold names in Hnd. rewrite Hcs in *.
    rewrite fmap_app, fmap_cons in Hnd.
    apply NoDup_app in Hnd as (_ & _ & Hnd). apply NoDup_cons in Hnd as [Hl2 _].
    rewrite Hx in Hl2. split.
    + rewrite filter_app, filter_cons_True by done.
      by rewrite !filter_name_absent.
    + rewrite !length_app. simpl. lia.
  - split.
    + rewrite filter_app, filter_name_absent by done.
      by rewrite filter_cons_True.
    + rewrite length_app. simpl. lia.
Qed.

(** C6 at the empty store. *)
Lemma C6_upsert_same_name_twice_witness :
  let a := mkContext "dev" "DEFAULT" "t1" "c1" "r1" "" "" in
  let b := mkContext "dev" "OTHER" "t1" "c9" "r2" "u" "n" in
  let c := DefaultConfig "/home/u" in
  named "dev" (fst (UpsertContext b (fst (UpsertContext a c)))) = [b] ∧
  length (Contexts (fst (UpsertContext b (fst (UpsertContext a c))))) ≤ 1.
Proof.
  intros a b c.
  apply (C6_upsert_same_name_twice c a b); [apply NoDup_nil_2|reflexivity].
Defined.

(** C6 as worded fails on a store that already holds two contexts of the
    name (a hand-edited file loads as such a store): the upserts rewrite the
    first of them and the second one stays. *)
Lemma C6_counterexample_duplicate_names :
  let old1 := mkContext "dev" "P1" "t1" "c1" "r1" "" "" in
  let old2 := mkContext "dev" "P2" "t2" "c2" "r2" "" "" in
  let a := mkContext "dev" "DEFAULT" "t1" "c1" "r1" "" "" in
  let b := mkContext "dev" "OTHER" "t1" "c9" "r2" "u" "n" in
  let c := mkConfig (mkOptions "" "" "") [old1; old2] "dev" in
  named "dev" (fst (UpsertContext b (fst (UpsertContext a c)))) = [b; old2] ∧
  ¬ upsert_twice_one_stored c a b.
Proof.
  intros old1 old2 a b c. split; [reflexivity|].
  intros H. destruct (H eq_refl) as [Hone _]. discriminate Hone.
Qed.

End store.

(** ** The framed connection protocol *)
Section connection.
Import ipcmsg ipc.
Context {St : Type}.
Variable Unmarshal : list Byte.byte → option Request.
Variable handler : HandlerFunc St.
Implicit Types (cur l stream rest bad good : list Byte.byte) (s : St).

Local Abbreviation serve := (serve_line Unmarshal handler).
Local Abbreviation conn_from := (handleConn_from Unmarshal handler).
Local Abbreviation conn := (handleConn Unmarshal handler).

Lemma serve_line_invalid l s :
  Unmarshal l = None → serve l s = (invalid_request, s).
Proof. intros H. unfold serve_line. by rewrite H. Qed.

Lemma serve_line_valid l req s :
  Unmarshal l = Some req →
  serve l s = (reply_of (handler req s).1, (handler req s).2).
Proof.
  intros H. unfold serve_line. rewrite H.
  by destruct (handler req s) as [[d|e] s'].
Qed.

Lemma handleConn_from_cons cur b rest s :
  conn_from cur (b :: rest) s =
    if decide (b = newline) then
      let '(resp, s1) := serve (cur ++ [b]) s in
      let '(resps, s2) := conn_from [] rest s1 in
      (resp :: resps, s2)
    else conn_from (cur ++ [b]) rest s.
Proof. reflexivity. Qed.

(** Reading one complete line: the bytes before the newline are gathered,
    the line is served, and the loop goes on with the rest. *)
Lemma handleConn_from_line cur l rest s :
  newline ∉ l →
  conn_from cur (l ++ newline :: rest) s =
    ((serve (cur ++ framed l) s).1
       :: (conn_from [] rest (serve (cur ++ framed l) s).2).1,
     (conn_from [] rest (serve (cur ++ framed l) s).2).2).
Proof.
  revert cur. induction l as [|b l IH]; intros cur Hl.
  - rewrite app_nil_l, handleConn_from_cons.
    rewrite decide_True by done. unfold framed. rewrite app_nil_l.
    destruct (serve (cur ++ [newline]) s) as [resp s1].
    cbn [fst snd]. by destruct (conn_from [] rest s1).
  - apply not_elem_of_cons in Hl as [Hb Hl].
    rewrite <- app_comm_cons, handleConn_from_cons.
    rewrite decide_False by done. rewrite (IH (cur ++ [b]) Hl).
    unfold framed. by rewrite <- !app_assoc.
Qed.

Lemma handleConn_from_framed l rest s :
  newline ∉ l →
  conn_from [] (framed l ++ rest) s =
    ((serve (framed l) s).1 :: (conn_from [] rest (serve (framed l) s).2).1,
     (conn_from [] rest (serve (framed l) s).2).2).
Proof.
  intros Hl. unfold framed at 1. rewrite <- app_assoc. simpl.
  by rewrite (handleConn_from_line [] l).
Qed.

Lemma handleConn_wire_app (lines : list (list Byte.byte)) stream s :
  Forall (λ l, newline ∉ l) lines →
  conn (wire lines ++ stream) s =
    ((conn (wire lines) s).1 ++ (conn stream (conn (wire lines) s).2).1,
     (conn stream (conn (wire lines) s).2).2).
Proof.
  unfold handleConn, wire. intros Hl. revert s.
  induction Hl as [|l lines Hn _ IH]; intros s; simpl.
  - by destruct (conn_from [] stream s).
  - rewrite <- app_assoc. rewrite !handleConn_from_framed by done.
    cbn [fst snd]. by rewrite IH.
Qed.

(** Every newline on the stream is answered by one response: the loop only
    stops where the stream does. *)
Lemma handleConn_from_length cur stream s :
  length (conn_from cur stream s).1 = length (filter (λ b, b = newline) stream).
Proof.
  revert cur s. induction stream as [|b stream IH]; intros cur s; [done|].
  rewrite handleConn_from_cons. destruct (decide (b = newline)) as [->|Hb].
  - rewrite filter_cons_True by done.
    destruct (serve (cur ++ [newline]) s) as [resp s1].
    specialize (IH [] s1). destruct (conn_from [] stream s1). simpl in *.
    by rewrite IH.
  - rewrite filter_cons_False by done. apply IH.
Qed.

(** C3. On any connection, after any complete lines, a line the JSON
    decoder rejects is answered by [{ok:false, error:"invalid request"}],
    leaves the handler state as it was, and the request on the next line is
    handled and answered; the loop then goes on with the rest of the
    stream. The loop writes one response per newline received, so that it
    only ends where reading fails. *)
Theorem C3_invalid_request_keeps_connection
    (earlier : list (list Byte.byte)) bad good rest req s :
  Forall (λ l, newline ∉ l) earlier →
  newline ∉ bad → newline ∉ good →
  Unmarshal (framed bad) = None →
  Unmarshal (framed good) = Some req →
  let before := conn (wire earlier) s in
  let answered := handler req before.2 in
  let after := conn rest answered.2 in
  conn (wire earlier ++ framed bad ++ framed good ++ rest) s =
    (before.1 ++ invalid_request :: reply_of answered.1 :: after.1, after.2)
  ∧ ∀ stream s', length (conn stream s').1
                 = length (filter (λ b, b = newline) stream).
Proof.
  intros Hearlier Hbad Hgood Hb Hg before answered after. split.
  - rewrite handleConn_wire_app by done. fold before.
    unfold handleConn at 1 2.
    rewrite handleConn_from_framed, (serve_line_invalid _ _ Hb) by done.
    cbn [fst snd].
    rewrite handleConn_from_framed, (serve_line_valid _ _ _ Hg) by done.
    done.
  - intros stream s'. apply handleConn_from_length.
Qed.

End connection.

(** C3 on the daemon's own handler: the line [{not json], then a [list]
    request, on a fresh connection to a daemon that stores one context. *)
Lemma C3_invalid_request_keeps_connection_witness :
  let dev := config.mkContext "dev" "DEFAULT" "t1" "c1" "r1" "" "" in
  let st : daemon.State :=
    (daemon.mkService "/cfg.yml"
       (config.mkConfig (config.mkOptions "" "/d.sock" "") [dev] "dev"),
     config.mkWorld ∅ [] []) in
  let h := daemon.handle daemon.sample_UnmarshalContext in
  let bad := list_byte_of_string "{not json" in
  let good := list_byte_of_string ipc.list_request_text in
  ipc.handleConn ipc.sample_Unmarshal h (ipc.framed bad ++ ipc.framed good) st =
    ([ipcmsg.mkResponse false "invalid request" None;
      ipcmsg.mkResponse true "" (Some (ipcmsg.DContexts [dev]))], st).
Proof.
  intros dev st h bad good.
  pose proof (C3_invalid_request_keeps_connection ipc.sample_Unmarshal h
                [] bad good [] (ipcmsg.mkRequest "list" "" "" []) st) as H.
  destruct H as [H _].
  - apply Forall_nil_2.
  - refine (bool_decide_unpack _ _). vm_compute. exact I.
  - refine (bool_decide_unpack _ _). vm_compute. exact I.
  - reflexivity.
  - reflexivity.
  - rewrite app_nil_r in H. exact H.
Defined.

(** ** The daemon's export method *)
Section export.
Import config ipcmsg daemon.
Implicit Types (s : Service) (c : config.Context) (format : string).

Lemma export_json_like format s c :
  getCurrent s = inl c → format = "json" ∨ format = "" →
  export format s = inl (DContext c).
Proof.
  intros Hc Hf. unfold export. rewrite Hc.
  rewrite decide_False by (destruct Hf; by subst).
  by rewrite decide_True.
Qed.

Lemma getCurrent_set s :
  CurrentContext (cfg s) ≠ "" → CurrentContext (cfg s) ∈ names (cfg s) →
  ∃ c, getCurrent s = inl c ∧ c ∈ Contexts (cfg s) ∧
       config.Name c = CurrentContext (cfg s).
Proof.
  intros Hne Hin. unfold getCurrent, GetContext.
  rewrite decide_False by done.
  destruct (find_by_name _ _) as [[i c]|] eqn:Hf.
  - apply find_by_name_Some in Hf as (Hi & Hn & _).
    exists c. split_and!; [done| |done].
    apply list_elem_of_lookup. eauto.
  - apply find_by_name_None in Hf. done.
Qed.

Lemma getCurrent_error_not_unsupported s e format :
  getCurrent s = inr e → e ≠ unsupported format.
Proof.
  unfold getCurrent, GetContext.
  destruct (decide _); [intros [= <-]; discriminate|].
  destruct (find_by_name _ _) as [[i c]|]; [discriminate|].
  intros [= <-]. discriminate.
Qed.

(** C10. An [export] request with the empty format is answered as one with
    format ["json"]: by the current context itself whenever a current
    context is set (and stored). With a current context, the
    unsupported-format error is the answer exactly for the formats other
    than ["env"], ["json"] and the empty one; and no request with one of
    these three formats is ever answered by it. *)
Theorem C10_export_empty_format_is_json
    (UnmarshalContext : RawMessage → config.Context + error) s w :
  handle UnmarshalContext (mkRequest "export" "" "" []) (s, w)
    = handle UnmarshalContext (mkRequest "export" "" "json" []) (s, w)
  ∧ (CurrentContext (cfg s) ≠ "" → CurrentContext (cfg s) ∈ names (cfg s) →
     ∃ c, config.Name c = CurrentContext (cfg s) ∧ c ∈ Contexts (cfg s) ∧
          export "" s = inl (DContext c) ∧ export "json" s = inl (DContext c) ∧
          ∀ format, export format s = inr (unsupported format)
                    ↔ format ≠ "env" ∧ format ≠ "json" ∧ format ≠ "")
  ∧ (∀ format, export format s = inr (unsupported format) →
               format ≠ "env" ∧ format ≠ "json" ∧ format ≠ "").
Proof.
  split_and!.
  - unfold handle. simpl. unfold export.
    destruct (getCurrent s); [|done].
    rewrite !decide_False by done. rewrite !decide_True by auto. done.
  - intros Hne Hin.
    destruct (getCurrent_set s Hne Hin) as (c & Hc & Hin' & Hn).
    exists c. split_and!; try done.
    + apply export_json_like; auto.
    + apply export_json_like; auto.
    + intros format. unfold export. rewrite Hc. split.
      * destruct (decide (format = "env")); [done|].
        destruct (decide (format = "json" ∨ format = "")); [done|].
        intros _. split_and!; auto.
      * intros (H1 & H2 & H3). rewrite decide_False by done.
        rewrite decide_False by (intros [?|?]; done). done.
  - intros format. unfold export.
    destruct (getCurrent s) as [c|e] eqn:Hc.
    + destruct (decide (format = "env")); [done|].
      destruct (decide (format = "json" ∨ format = "")); [done|].
      intros _. split_and!; auto.
    + intros [= He]. by apply (getCurrent_error_not_unsupported _ _ format) in Hc.
Qed.

(** C10 at a daemon whose current context is ["dev"]. *)
Lemma C10_export_empty_format_is_json_witness :
  let dev := mkContext "dev" "DEFAULT" "t1" "c1" "r1" "" "" in
  let s := mkService "/cfg.yml" (mkConfig (mkOptions "" "" "") [dev] "dev") in
  export "" s = inl (DContext dev) ∧
  export "yaml" s = inr "unsupported format: yaml".
Proof.
  intros dev s.
  destruct (C10_export_empty_format_is_json sample_UnmarshalContext s
              (mkWorld ∅ [] [])) as (_ & H & _).
  destruct H as (c & Hn & Hin & He & _ & Hu).
  - discriminate.
  - apply list_elem_of_here.
  - split.
    + rewrite He. apply list_elem_of_singleton in Hin. by rewrite Hin.
    + apply (Hu "yaml"). split_and!; discriminate.
Defined.

End export.

(** ** Tenancies and their profiles *)
Section tenancies.
Import cmd.
Implicit Types (entries : list (string * ocicfg.Profile)) (t n : string).
Implicit Types (profiles : gmap string ocicfg.Profile).

Lemma tenantProfiles_of_lookup entries t :
  tenantProfiles_of entries !! t =
    match group_of t entries with [] => None | ns => Some ns end.
Proof.
  unfold tenantProfiles_of, group_of.
  induction entries as [|e es IH] using rev_ind; [done|].
  rewrite foldl_app, filter_app, fmap_app. simpl.
  destruct (decide (ocicfg.Tenancy e.2 = t)) as [He|He].
  - rewrite filter_cons_True by done. rewrite filter_nil. simpl.
    rewrite He, lookup_insert_eq, IH.
    by destruct ((filter _ es).*1).
  - rewrite filter_cons_False by done. rewrite filter_nil. simpl.
    rewrite app_nil_r, lookup_insert_ne by done. apply IH.
Qed.

Lemma tenantProfiles_of_default entries t :
  default [] (tenantProfiles_of entries !! t) = group_of t entries.
Proof. rewrite tenantProfiles_of_lookup. by destruct (group_of t entries). Qed.

Lemma group_of_perm t entries1 entries2 :
  entries1 ≡ₚ entries2 → group_of t entries1 ≡ₚ group_of t entries2.
Proof. intros H. unfold group_of. by rewrite H. Qed.

Lemma elem_of_group_of n t entries :
  n ∈ group_of t entries ↔ ∃ p, (n, p) ∈ entries ∧ ocicfg.Tenancy p = t.
Proof.
  unfold group_of. rewrite list_elem_of_fmap. split.
  - intros ([n' p] & -> & Hin). apply list_elem_of_filter in Hin as [Ht Hin].
    exists p. done.
  - intros (p & Hin & Ht). exists (n, p). split; [done|].
    apply list_elem_of_filter. done.
Qed.

Lemma sort_Strings_perm (l1 l2 : list string) :
  l1 ≡ₚ l2 → sort_Strings l1 = sort_Strings l2.
Proof.
  intros H. unfold sort_Strings.
  apply (Sorted_unique String.le); try apply Sorted_merge_sort; try apply _.
  by rewrite !merge_sort_Permutation.
Qed.

Lemma sort_Strings_sorted (l : list string) : Sorted String.le (sort_Strings l).
Proof. apply Sorted_merge_sort; apply _. Qed.

Lemma elem_of_sort_Strings n (l : list string) : n ∈ sort_Strings l ↔ n ∈ l.
Proof. unfold sort_Strings. by rewrite merge_sort_Permutation. Qed.

Lemma NoDup_sort_Strings (l : list string) : NoDup l → NoDup (sort_Strings l).
Proof. unfold sort_Strings. by rewrite merge_sort_Permutation. Qed.

Lemma elem_of_ocids_of t entries :
  t ∈ ocids_of entries ↔ ∃ n p, (n, p) ∈ entries ∧ ocicfg.Tenancy p = t.
Proof.
  unfold ocids_of. rewrite elem_of_sort_Strings, list_elem_of_fmap. split.
  - intros ([t' ns] & -> & Hin). apply elem_of_map_to_list in Hin.
    rewrite tenantProfiles_of_lookup in Hin. simpl in *.
    destruct (group_of t' entries) as [|n ns'] eqn:Hg; [done|].
    assert (n ∈ group_of t' entries) as Hn by (rewrite Hg; left).
    apply elem_of_group_of in Hn as (p & ? & ?). eauto.
  - intros (n & p & Hin & Ht).
    assert (n ∈ group_of t entries) as Hn by (apply elem_of_group_of; eauto).
    destruct (group_of t entries) as [|n' ns] eqn:Hg; [by apply elem_of_nil in Hn|].
    exists (t, n' :: ns). split; [done|]. apply elem_of_map_to_list.
    by rewrite tenantProfiles_of_lookup, Hg.
Qed.

Lemma NoDup_ocids_of entries : NoDup (ocids_of entries).
Proof. apply NoDup_sort_Strings, NoDup_fst_map_to_list. Qed.

Lemma ocids_of_perm entries1 entries2 :
  entries1 ≡ₚ entries2 → ocids_of entries1 = ocids_of entries2.
Proof.
  intros H. unfold ocids_of at 1 2. apply sort_Strings_perm.
  apply NoDup_Permutation; try apply NoDup_fst_map_to_list.
  intros t. pose proof (elem_of_ocids_of t entries1) as H1.
  pose proof (elem_of_ocids_of t entries2) as H2.
  unfold ocids_of in H1, H2. rewrite elem_of_sort_Strings in H1, H2.
  rewrite H1, H2. by setoid_rewrite H.
Qed.

Lemma tenanciesFromProfiles_ranged_rows tenancyNames entries :
  tenanciesFromProfiles_ranged tenancyNames entries
    = (λ t, tenancyRow (row_of tenancyNames entries t)) <$> ocids_of entries.
Proof.
  unfold tenanciesFromProfiles_ranged, ocids_of, row_of.
  apply list_fmap_ext. intros i t _. by rewrite tenantProfiles_of_default.
Qed.

Lemma filter_eq_NoDup t (l : list string) :
  NoDup l → filter (λ x, x = t) l = if decide (t ∈ l) then [t] else [].
Proof.
  induction 1 as [|x l Hx Hnd IH]; [done|].
  destruct (decide (x = t)) as [->|Hne].
  - rewrite filter_cons_True by done. rewrite IH.
    rewrite decide_False by done. rewrite decide_True by left. done.
  - rewrite filter_cons_False by done. rewrite IH.
    destruct (decide (t ∈ l)).
    + rewrite decide_True by (by right). done.
    + rewrite decide_False; [done|]. intros [?|?]%elem_of_cons; done.
Qed.

Lemma rows_of_tenancy_fmap tenancyNames entries t (l : list string) :
  rows_of_tenancy t ((λ t, tenancyRow (row_of tenancyNames entries t)) <$> l)
    = (λ t, tenancyRow (row_of tenancyNames entries t)) <$> filter (λ x, x = t) l.
Proof.
  unfold rows_of_tenancy. induction l as [|x l IH]; [done|].
  rewrite fmap_cons. destruct (decide (x = t)) as [Hx|Hx].
  - rewrite !filter_cons_True by done. by rewrite fmap_cons, IH.
  - rewrite !filter_cons_False by done. done.
Qed.

Lemma rows_of_tenancy_ranged tenancyNames entries t :
  rows_of_tenancy t (tenanciesFromProfiles_ranged tenancyNames entries)
    = if decide (t ∈ ocids_of entries)
      then [tenancyRow (row_of tenancyNames entries t)] else [].
Proof.
  rewrite tenanciesFromProfiles_ranged_rows, rows_of_tenancy_fmap.
  rewrite (filter_eq_NoDup _ _ (NoDup_ocids_of entries)).
  by destruct (decide _).
Qed.

Lemma le_empty_string (s : string) : String.le "" s.
Proof. by destruct s. Qed.

Lemma Sorted_head_least (x : string) (l : list string) n :
  Sorted String.le (x :: l) → n ∈ x :: l → String.le x n.
Proof.
  intros Hs Hn. apply Sorted_StronglySorted in Hs; [|apply _].
  apply StronglySorted_inv in Hs as [_ Hall].
  apply elem_of_cons in Hn as [->|Hn]; [reflexivity|].
  rewrite Forall_forall in Hall. by apply Hall.
Qed.

Lemma belongs_map_to_list profiles n t :
  belongs profiles n t ↔
  ∃ p, (n, p) ∈ map_to_list profiles ∧ ocicfg.Tenancy p = t.
Proof. unfold belongs. by setoid_rewrite elem_of_map_to_list. Qed.

Lemma NoDup_group_of t profiles : NoDup (group_of t (map_to_list profiles)).
Proof.
  unfold group_of.
  eapply (sublist_NoDup _ (map_to_list profiles).*1).
  - apply NoDup_fst_map_to_list.
  - apply fmap_sublist, sublist_filter.
Qed.

(** C7. Whatever the order in which the profile map is ranged over, the
    rows are the same. Each tenancy with a profile gets exactly one row and
    a tenancy without profiles gets none; the [Profiles] of a row are the
    names of the profiles of its tenancy, each once, in ascending order.
    Selecting a row yields the configured default profile when that
    profile exists and is of the row's tenancy, and otherwise the first
    (least) name of [Profiles]. *)
Theorem C7_tenancy_rows (tenancyNames : gmap string string) profiles
    (defaultProfile : string) :
  (∀ entries, entries ≡ₚ map_to_list profiles →
     tenanciesFromProfiles_ranged tenancyNames entries
       = tenanciesFromProfiles tenancyNames profiles)
  ∧ (∀ t, rows_of_tenancy t (tenanciesFromProfiles tenancyNames profiles) = []
          ∨ ∃ item, rows_of_tenancy t (tenanciesFromProfiles tenancyNames profiles)
                      = [tenancyRow item])
  ∧ (∀ t, (∃ n, belongs profiles n t) ↔
          rows_of_tenancy t (tenanciesFromProfiles tenancyNames profiles) ≠ [])
  ∧ (∀ it, it ∈ tenanciesFromProfiles tenancyNames profiles →
       ∃ item, it = tenancyRow item
         ∧ Sorted String.le (Profiles item)
         ∧ NoDup (Profiles item)
         ∧ (∀ n, n ∈ Profiles item ↔ belongs profiles n (TenancyOCID item))
         ∧ (belongs profiles defaultProfile (TenancyOCID item) →
            selectProfileForTenancy item profiles defaultProfile = defaultProfile)
         ∧ (¬ belongs profiles defaultProfile (TenancyOCID item) →
            head (Profiles item)
              = Some (selectProfileForTenancy item profiles defaultProfile)
            ∧ ∀ n, n ∈ Profiles item →
                   String.le (selectProfileForTenancy item profiles defaultProfile) n)).
Proof.
  unfold tenanciesFromProfiles. split_and!.
  - intros entries Hperm. rewrite !tenanciesFromProfiles_ranged_rows.
    rewrite (ocids_of_perm _ _ Hperm). apply list_fmap_ext. intros i t _.
    unfold row_of. by rewrite (sort_Strings_perm _ _ (group_of_perm t _ _ Hperm)).
  - intros t. rewrite rows_of_tenancy_ranged. destruct (decide _); eauto.
  - intros t. rewrite rows_of_tenancy_ranged.
    setoid_rewrite belongs_map_to_list. rewrite <- elem_of_ocids_of.
    destruct (decide _); naive_solver.
  - intros it Hit. rewrite tenanciesFromProfiles_ranged_rows in Hit.
    apply list_elem_of_fmap in Hit as (t & -> & Ht).
    set (entries := map_to_list profiles) in *.
    exists (row_of tenancyNames entries t).
    assert (∀ n, n ∈ Profiles (row_of tenancyNames entries t)
                 ↔ belongs profiles n t) as Hmem.
    { intros n. simpl. rewrite elem_of_sort_Strings, elem_of_group_of.
      by rewrite belongs_map_to_list. }
    assert (Sorted String.le (Profiles (row_of tenancyNames entries t))) as Hsorted
      by apply sort_Strings_sorted.
    apply elem_of_ocids_of in Ht as (n0 & p0 & Hin0 & Ht0).
    assert (n0 ∈ Profiles (row_of tenancyNames entries t)) as Hn0.
    { apply Hmem, belongs_map_to_list. eauto. }
    split_and!; try done.
    + apply NoDup_sort_Strings, NoDup_group_of.
    + intros Hd. pose proof Hd as (p & Hp & Hpt).
      unfold selectProfileForTenancy.
      destruct (decide (defaultProfile ≠ "")) as [Hne|He].
      * rewrite Hp. by rewrite decide_True.
      * apply dec_stable in He. subst defaultProfile.
        apply Hmem in Hd.
        destruct (Profiles (row_of tenancyNames entries t)) as [|x l] eqn:Hx;
          [by apply elem_of_nil in Hd|].
        apply (anti_symm String.le); [|apply le_empty_string].
        by eapply Sorted_head_least.
    + intros Hnd.
      assert (selectProfileForTenancy (row_of tenancyNames entries t) profiles
                defaultProfile
              = match Profiles (row_of tenancyNames entries t) with
                | p :: _ => p | [] => "" end) as ->.
      { unfold selectProfileForTenancy.
        destruct (decide (defaultProfile ≠ "")); [|done].
        destruct (profiles !! defaultProfile) as [p|] eqn:Hp; [|done].
        destruct (decide _) as [Hpt|]; [|done].
        exfalso. apply Hnd. exists p. done. }
      destruct (Profiles (row_of tenancyNames entries t)) as [|x l] eqn:Hx;
        [by apply elem_of_nil in Hn0|].
      split; [done|]. intros n Hn. by eapply Sorted_head_least.
Qed.

(** C7 on the profiles [A] and [B] of tenancy [t1], without a configured
    default profile. *)
Lemma C7_tenancy_rows_witness :
  let profiles : gmap string ocicfg.Profile :=
    <["A" := ocicfg.mkProfile "" "t1" "r1"]>
      (<["B" := ocicfg.mkProfile "" "t1" "r2"]> ∅) in
  tenanciesFromProfiles ∅ profiles = [tenancyRow (mkTenancyItem "t1" ["A"; "B"] "")]
  ∧ tenanciesFromProfiles_ranged ∅
      [("B", ocicfg.mkProfile "" "t1" "r2"); ("A", ocicfg.mkProfile "" "t1" "r1")]
    = tenanciesFromProfiles ∅ profiles
  ∧ selectProfileForTenancy (mkTenancyItem "t1" ["A"; "B"] "") profiles "" = "A".
Proof.
  intros profiles.
  destruct (C7_tenancy_rows ∅ profiles "") as (Hany & _ & _ & Hrow).
  split_and!.
  - vm_compute. reflexivity.
  - apply Hany.
    assert (map_to_list profiles
            = [("A", ocicfg.mkProfile "" "t1" "r1");
               ("B", ocicfg.mkProfile "" "t1" "r2")]) as ->
      by (vm_compute; reflexivity).
    apply perm_swap.
  - destruct (Hrow (tenancyRow (mkTenancyItem "t1" ["A"; "B"] ""))) as
      (item & Heq & _ & _ & _ & _ & Hsel).
    + assert (tenanciesFromProfiles ∅ profiles
              = [tenancyRow (mkTenancyItem "t1" ["A"; "B"] "")]) as ->
        by (vm_compute; reflexivity).
      apply list_elem_of_here.
    + assert (item = mkTenancyItem "t1" ["A"; "B"] "") as -> by congruence.
      destruct Hsel as [Hhead _].
      * intros (p & Hp & _). vm_compute in Hp. discriminate Hp.
      * apply (inj Some). symmetry. exact Hhead.
Defined.

End tenancies.

(** ** The interactive picker *)
Section picker.
Import cmd.
Context `{W : ListWidget}.
Implicit Types (m : tuiModel) (w : config.World) (msg : Msg) (key : string).
Implicit Types (l : Model) (r : Step).

(** *** What [refreshDelegates] changes: the four titles *)

Lemma refreshDelegates_titles m :
  ∃ t1 t2 t3 t4,
    refreshDelegates m =
      with_regions (SetTitle t4 (regions m))
        (with_comps (SetTitle t3 (comps m))
           (with_tenancies (SetTitle t2 (tenancies m))
              (with_list_ (SetTitle t1 (list_ m)) m))).
Proof.
  unfold refreshDelegates, applyDensityMode.
  destruct (ultraCompact m); [by eexists _, _, _, _|].
  simpl. destruct (decide (parentCrumb m ≠ "")); by eexists _, _, _, _.
Qed.

Lemma core_refreshDelegates m : core (refreshDelegates m) = core m.
Proof. destruct (refreshDelegates_titles m) as (?&?&?&?&->). done. Qed.

Lemma staging_refreshDelegates m : staging (refreshDelegates m) = staging m.
Proof. destruct (refreshDelegates_titles m) as (?&?&?&?&->). done. Qed.

Lemma mode_refreshDelegates m : mode (refreshDelegates m) = mode m.
Proof. destruct (refreshDelegates_titles m) as (?&?&?&?&->). done. Qed.

Lemma ctxItem_refreshDelegates m : ctxItem (refreshDelegates m) = ctxItem m.
Proof. destruct (refreshDelegates_titles m) as (?&?&?&?&->). done. Qed.

Lemma parentID_refreshDelegates m : parentID (refreshDelegates m) = parentID m.
Proof. destruct (refreshDelegates_titles m) as (?&?&?&?&->). done. Qed.

Lemma profiles_refreshDelegates m : profiles (refreshDelegates m) = profiles m.
Proof. destruct (refreshDelegates_titles m) as (?&?&?&?&->). done. Qed.

Lemma FilterState_refreshDelegates m :
  FilterState_of (active (refreshDelegates m)) = FilterState_of (active m).
Proof.
  destruct (refreshDelegates_titles m) as (?&?&?&?&->).
  unfold active. simpl. destruct (mode m); apply FilterState_SetTitle.
Qed.

Lemma lists_refreshDelegates m :
  (Items (list_ (refreshDelegates m)) = Items (list_ m) ∧
   Items (tenancies (refreshDelegates m)) = Items (tenancies m) ∧
   Items (comps (refreshDelegates m)) = Items (comps m) ∧
   Items (regions (refreshDelegates m)) = Items (regions m)) ∧
  (SelectedItem (list_ (refreshDelegates m)) = SelectedItem (list_ m) ∧
   SelectedItem (tenancies (refreshDelegates m)) = SelectedItem (tenancies m) ∧
   SelectedItem (comps (refreshDelegates m)) = SelectedItem (comps m) ∧
   SelectedItem (regions (refreshDelegates m)) = SelectedItem (regions m)) ∧
  (FilterState_of (list_ (refreshDelegates m)) = FilterState_of (list_ m) ∧
   FilterState_of (tenancies (refreshDelegates m)) = FilterState_of (tenancies m) ∧
   FilterState_of (comps (refreshDelegates m)) = FilterState_of (comps m) ∧
   FilterState_of (regions (refreshDelegates m)) = FilterState_of (regions m)).
Proof.
  destruct (refreshDelegates_titles m) as (?&?&?&?&->). simpl.
  by rewrite !Items_SetTitle, !SelectedItem_SetTitle, !FilterState_SetTitle.
Qed.

Lemma committable_refreshDelegates m :
  committable (refreshDelegates m) ↔ committable m.
Proof.
  unfold committable. rewrite mode_refreshDelegates, profiles_refreshDelegates.
  destruct (lists_refreshDelegates m) as (_ & (-> & -> & _ & ->) & _).
  assert (cfg (refreshDelegates m) = cfg m) as ->
    by (pose proof (core_refreshDelegates m); unfold core in *; congruence).
  done.
Qed.

(** *** The pieces of a step *)

Lemma core_with_active l m : core (with_active l m) = core m.
Proof. unfold with_active. by destruct (mode m). Qed.

Lemma staging_with_active l m : staging (with_active l m) = staging m.
Proof. unfold with_active. by destruct (mode m). Qed.


Lemma quiet_step_ok m0 m w r :
  core m = core m0 → quiet m w r → step_ok m0 w r.
Proof.
  unfold quiet, step_ok, core. intros [= Hc Hp Hf Hr] ([= Hc' Hp' Hf' Hr'] & Hw & Hcmd).
  split_and!.
  - congruence.
  - intros n. by rewrite Hr', Hr.
  - intros item Hit. by apply Hcmd in Hit.
  - left. split_and!; congruence.
Qed.

Lemma to_widget_quiet msg m w : quiet m w (to_widget msg m w).
Proof.
  unfold quiet, to_widget. destruct (Update_list msg (active m)) as [l c].
  simpl. split_and!; [apply core_with_active|done|done].
Qed.

Lemma UpsertContext_no_error ctx c : (config.UpsertContext ctx c).2 = None.
Proof. unfold config.UpsertContext. by destruct (config.find_by_name _ _) as [[??]|]. Qed.

Lemma save_calls_Save path c w :
  config.save_calls (config.Save path c w).2 = config.save_calls w ++ [(path, c)].
Proof. unfold config.Save. by destruct (config.faults w) as [|[e|] ?]. Qed.

(** [finalizeSelection]: one upsert of the active context, with the cursor
    as its compartment, into the configuration with that context as the
    current one; one [Save] of the result; and [tea.Quit]. *)
Lemma finalizeSelection_spec m w :
  let ctx := set_CompartmentOCID (parentID m) (ctxItem m) in
  let c1 := (config.UpsertContext ctx
               (set_CurrentContext (config.Name (ctxItem m)) (cfg m))).1 in
  let saved := config.Save (cfgPath m) c1 w in
  let r := finalizeSelection m w in
  r.1.2 = Quit ∧ r.2 = saved.2 ∧
  finalized r.1.1 = true ∧ selected r.1.1 = config.Name (ctxItem m) ∧
  ctxItem r.1.1 = ctx ∧ cfg r.1.1 = c1 ∧
  err r.1.1 = from_option Some (err m) saved.1 ∧
  cfgPath r.1.1 = cfgPath m ∧ regionCache r.1.1 = regionCache m ∧
  staging r.1.1 = staging m ∧ parentID r.1.1 = parentID m.
Proof.
  intros ctx c1 saved r. subst r saved c1 ctx. unfold finalizeSelection. simpl.
  pose proof (UpsertContext_no_error (set_CompartmentOCID (parentID m) (ctxItem m))
    (set_CurrentContext (config.Name (ctxItem m)) (cfg m))) as Hne.
  destruct (config.UpsertContext _ _) as [c0 o] eqn:Hup.
  simpl in Hne. subst o. simpl.
  destruct (config.Save _ _ _) as [[e|] w1] eqn:Hs; simpl; split_and!; done.
Qed.

Ltac core_facts :=
  repeat match goal with
  | H : core _ = core _ |- _ =>
      unfold core in H; injection H as ? ? ? ?
  end.

(* a step built from field assignments that touch neither the store nor the
   region cache and that issues no region fetch *)
Ltac plain_step :=
  unfold flow_ok; unfold step_ok; simpl; split_and!;
  [ congruence
  | intros ? ?; congruence
  | intros ? ?; discriminate
  | left; split_and!; congruence ].

Lemma finalizeSelection_step_ok m0 m w :
  core m = core m0 → step_ok m0 w (finalizeSelection m w).
Proof.
  intros Hc. core_facts.
  destruct (finalizeSelection_spec m w)
    as (Hq & Hw & Hfin & _ & _ & Hcfg & _ & Hpath & Hcache & _).
  unfold step_ok. split_and!.
  - congruence.
  - intros n ?. congruence.
  - intros item Hit. rewrite Hq in Hit. discriminate.
  - right. split_and!; [done..|].
    rewrite Hw, save_calls_Save, Hcfg. congruence.
Qed.


Lemma saveAndQuitCurrentMode_step_ok m0 m w :
  core m = core m0 → step_ok m0 w (saveAndQuitCurrentMode m w).
Proof.
  intros Hc. unfold saveAndQuitCurrentMode.
  repeat case_match; try (apply finalizeSelection_step_ok; exact Hc);
    core_facts; plain_step.
Qed.

Lemma open_compartments_step_ok m0 item m w :
  core m = core m0 →
  step_ok m0 w ((open_compartments item m).1, (open_compartments item m).2, w).
Proof. intros Hc. unfold open_compartments. core_facts. plain_step. Qed.

Lemma open_regions_step_ok m0 item m w :
  core m = core m0 →
  step_ok m0 w ((open_regions item m).1, (open_regions item m).2, w).
Proof.
  intros Hc. unfold open_regions. simpl.
  destruct (regionCache m !! config.Name item) eqn:Hl; core_facts.
  - plain_step.
  - unfold step_ok; simpl; split_and!;
      [congruence | intros ? ?; congruence | | left; split_and!; congruence].
    intros item' [= <-]. congruence.
Qed.

Lemma goUpOne_step_ok m0 m w :
  core m = core m0 → step_ok m0 w ((goUpOne m).1, (goUpOne m).2, w).
Proof.
  intros Hc. unfold goUpOne. core_facts. repeat case_match; plain_step.
Qed.

Lemma open_tenancies_flow_ok m0 m w :
  core m = core m0 → flow_ok m0 w (open_tenancies m w).
Proof.
  intros Hc. unfold open_tenancies. core_facts. case_match; simpl; plain_step.
Qed.

Lemma on_enter_flow_ok m0 m w :
  core m = core m0 → flow_ok m0 w (on_enter m w).
Proof.
  intros Hc. unfold on_enter.
  destruct (decide (FilterState_of (active m) = Filtering)).
  { simpl. eapply quiet_step_ok; [exact Hc|].
    unfold quiet. simpl. split_and!; [apply core_with_active|done|done]. }
  destruct (mode m).
  - destruct (SelectedItem (list_ m)) as [[item| | |]|]; try exact Hc.
    match goal with |- context [open_compartments ?i ?x] =>
      pose proof (open_compartments_step_ok m0 i x w) as Hstep;
      destruct (open_compartments i x) end.
    simpl. apply Hstep. exact Hc.
  - core_facts. repeat case_match; simpl; plain_step.
  - case_match; [simpl; by apply finalizeSelection_step_ok|].
    core_facts. repeat case_match; simpl; try plain_step; unfold core; congruence.
  - core_facts. repeat case_match; simpl; try plain_step; unfold core; congruence.
Qed.


Lemma core_on_space m : core (on_space m) = core m.
Proof. unfold on_space. repeat case_match; done. Qed.

Lemma on_back_flow_ok m0 m w :
  core m = core m0 → flow_ok m0 w (on_back m w).
Proof.
  intros Hc. unfold on_back. destruct (mode m); try exact Hc.
  - case_match; [|exact Hc]. core_facts. simpl. plain_step.
  - case_match; [|exact Hc].
    match goal with |- context [goUpOne ?x] =>
      pose proof (goUpOne_step_ok m0 x w) as Hstep; destruct (goUpOne x) end.
    simpl. apply Hstep. exact Hc.
  - case_match; [|exact Hc]. core_facts. simpl. plain_step.
Qed.

Lemma core_applyDensityMode m : core (applyDensityMode m) = core m.
Proof. apply core_refreshDelegates. Qed.

Lemma core_toggle_ultra m : core (toggle_ultra m) = core m.
Proof.
  unfold toggle_ultra.
  set (m1 := applyDensityMode (with_ultraCompact (negb (ultraCompact m)) m)).
  transitivity (core m1); [by destruct (ultraCompact m1)|].
  subst m1. by rewrite core_applyDensityMode.
Qed.

Ltac via_open_regions m0 w Hc :=
  match goal with |- context [open_regions ?i ?x] =>
    let Hstep := fresh "Hstep" in
    pose proof (open_regions_step_ok m0 i x w) as Hstep;
    destruct (open_regions i x); simpl; apply Hstep; exact Hc
  end.

Lemma case_r m0 m w :
  core m = core m0 →
  flow_ok m0 w
    (match mode m, SelectedItem (list_ m) with
     | ModeContexts, Some (ctxRow item) =>
         let m := with_ctxItem item m in
         let '(m, c) := open_regions item m in Return (m, c, w)
     | _, _ => Leave m
     end).
Proof.
  intros Hc. destruct (mode m); try exact Hc.
  destruct (SelectedItem (list_ m)) as [[item| | |]|]; try exact Hc.
  cbv zeta. via_open_regions m0 w Hc.
Qed.

Lemma case_R m0 m w :
  core m = core m0 →
  flow_ok m0 w
    (match mode m with
     | ModeContexts => Leave m
     | _ => let '(m, c) := open_regions (ctxItem m) m in Return (m, c, w)
     end).
Proof.
  intros Hc. destruct (mode m); try exact Hc; via_open_regions m0 w Hc.
Qed.

Lemma case_c m0 m w :
  core m = core m0 →
  flow_ok m0 w
    (match mode m, SelectedItem (list_ m) with
     | ModeContexts, Some (ctxRow item) =>
         let m := with_ctxItem item m in
         let '(m, c) := open_compartments item m in Return (m, c, w)
     | _, _ => Leave m
     end).
Proof.
  intros Hc. destruct (mode m); try exact Hc.
  destruct (SelectedItem (list_ m)) as [[item| | |]|]; try exact Hc.
  cbv zeta.
  pose proof (open_compartments_step_ok m0 item (with_ctxItem item m) w Hc) as Hs.
  by destruct (open_compartments item (with_ctxItem item m)).
Qed.

Lemma case_C m0 m w :
  core m = core m0 →
  flow_ok m0 w
    (match mode m with
     | ModeContexts => Leave m
     | _ =>
        let m :=
          if decide (ctxItem m = zero_contextItem) then
            match selectInitialContext (Items (list_ m))
                    (config.CurrentContext (cfg m)) with
            | Some ctx => with_ctxItem ctx m
            | None => m
            end
          else m in
        let '(m, c) := open_compartments (ctxItem m) m in Return (m, c, w)
     end).
Proof.
  intros Hc. destruct (mode m); try exact Hc; cbv zeta;
    match goal with |- context [open_compartments ?i ?x] =>
      pose proof (open_compartments_step_ok m0 i x w) as Hs;
      destruct (open_compartments i x); simpl; apply Hs;
      repeat case_match; exact Hc
    end.
Qed.

Lemma case_plain m0 m w :
  core m = core m0 →
  flow_ok m0 w (Return (m, Quit, w)) ∧
  flow_ok m0 w (match mode m with
                | ModeContexts => Leave (with_status "" (with_mode ModeContexts m))
                | _ => Leave m
                end) ∧
  flow_ok m0 w (match mode m with
                | ModeContexts => Return (with_status "" m, CmdNil, w)
                | _ => Leave m
                end) ∧
  flow_ok m0 w (match mode m with
                | ModeContexts => Leave m
                | _ =>
                    let m := with_mode ModeContexts m in
                    let m := with_status "" m in
                    let m := with_crumb "" m in
                    Return (m, CmdNil, w)
                end).
Proof.
  intros Hc. split_and!.
  - core_facts. plain_step.
  - destruct (mode m); exact Hc.
  - destruct (mode m); try exact Hc. core_facts. plain_step.
  - destruct (mode m); try exact Hc; core_facts; plain_step.
Qed.

Lemma case_quiet m0 m w :
  core m = core m0 →
  flow_ok m0 w (Return (on_space m, CmdNil, w)) ∧
  flow_ok m0 w (Return (with_active (start_filtering (active m)) m, CmdNil, w)) ∧
  flow_ok m0 w (Return (toggle_ultra m, CmdNil, w)).
Proof.
  intros Hc. split_and!; (eapply quiet_step_ok; [exact Hc|]);
    unfold quiet; (split_and!; [|done|done]).
  - apply core_on_space.
  - apply core_with_active.
  - apply core_toggle_ultra.
Qed.

Lemma case_tenancies m0 m w :
  core m = core m0 →
  flow_ok m0 w (match mode m with
                | ModeContexts => open_tenancies m w
                | _ => Leave m
                end) ∧
  flow_ok m0 w (match mode m with
                | ModeContexts => Leave m
                | _ => open_tenancies m w
                end).
Proof.
  intros Hc. split; destruct (mode m); try exact Hc;
    by apply open_tenancies_flow_ok.
Qed.

Lemma key_switch_flow_ok m0 key m w :
  core m = core m0 → flow_ok m0 w (key_switch key m w).
Proof.
  intros Hc. unfold key_switch.
  destruct (case_plain m0 m w Hc) as (Hquit & Hb & Hp & HP).
  destruct (case_quiet m0 m w Hc) as (Hspace & Hslash & Hu).
  destruct (case_tenancies m0 m w Hc) as (Ht & HT).
  repeat match goal with
  | |- flow_ok _ _ (match decide ?P with left _ => _ | right _ => _ end) =>
      destruct (decide P)
  end; try done.
  - by apply on_enter_flow_ok.
  - by apply saveAndQuitCurrentMode_step_ok.
  - by apply saveAndQuitCurrentMode_step_ok.
  - by apply on_back_flow_ok.
  - by apply case_r.
  - by apply case_R.
  - by apply case_c.
  - by apply case_C.
Qed.


Lemma core_note_children (items : list compItem) m :
  core (note_children items m) = core m.
Proof.
  unfold note_children. revert m.
  induction items as [|it items IH]; intros m; [done|].
  simpl. by rewrite IH.
Qed.

Lemma staging_note_children (items : list compItem) m :
  staging (note_children items m) = staging m.
Proof.
  unfold note_children. revert m.
  induction items as [|it items IH]; intros m; [done|].
  simpl. by rewrite IH.
Qed.

Lemma after_switch_step_ok m0 msg m w :
  core m = core m0 → step_ok m0 w (after_switch msg m w).
Proof.
  intros Hc. unfold after_switch.
  destruct msg as [key|width height|parent items [e|]|ctxName items [e|]|tag];
    try (eapply quiet_step_ok; [exact Hc|apply to_widget_quiet]).
  - core_facts. plain_step.
  - eapply quiet_step_ok; [|apply to_widget_quiet].
    rewrite <- Hc.
    transitivity (core (note_children items
                          (with_compCache (<[parent:=items]> (compCache m)) m)));
      [by destruct (decide (length items = 0))|].
    by rewrite core_note_children.
  - core_facts. unfold step_ok; simpl; split_and!;
      [congruence | | intros ? ?; discriminate | left; split_and!; congruence].
    intros n Hn. apply lookup_insert_is_Some'. right. congruence.
  - core_facts. unfold step_ok; simpl; split_and!;
      [congruence | | intros ? ?; discriminate | left; split_and!; congruence].
    intros n Hn. apply lookup_insert_is_Some'. right. congruence.
Qed.

(** Every step is of one of the two kinds of [step_ok]. *)
Lemma Update_step_ok msg m w : step_ok m w (Update msg m w).
Proof.
  unfold Update.
  pose proof (core_refreshDelegates m) as Hc.
  destruct msg as [key|width height|parent items e|ctxName items e|tag];
    try (by apply after_switch_step_ok).
  - case_decide.
    + eapply quiet_step_ok; [exact Hc|apply to_widget_quiet].
    + pose proof (key_switch_flow_ok m key (refreshDelegates m) w Hc) as Hk.
      destruct (key_switch key (refreshDelegates m) w); [done|].
      by apply after_switch_step_ok.
  - apply after_switch_step_ok. by rewrite core_with_active.
Qed.


(** *** Sessions *)

Lemma session_cons msg msgs m w :
  session (msg :: msgs) m w =
    match (Update msg m w).1.2 with
    | Quit => ([Quit], (Update msg m w).1.1, (Update msg m w).2)
    | c => (c :: (session msgs (Update msg m w).1.1 (Update msg m w).2).1.1,
            (session msgs (Update msg m w).1.1 (Update msg m w).2).1.2,
            (session msgs (Update msg m w).1.1 (Update msg m w).2).2)
    end.
Proof.
  simpl. destruct (Update msg m w) as [[m1 c] w1]. simpl.
  destruct c; try done;
    by destruct (session msgs m1 w1) as [[cs m2] w2].
Qed.

(** A session leaves the store alone, or ends in the one step that
    commits. *)
Lemma session_store msgs m w :
  ((session msgs m w).2 = w ∧ cfg (session msgs m w).1.2 = cfg m ∧
   finalized (session msgs m w).1.2 = finalized m) ∨
  (finalized (session msgs m w).1.2 = true ∧
   last (session msgs m w).1.1 = Some Quit ∧
   config.save_calls (session msgs m w).2
     = config.save_calls w ++ [(cfgPath m, cfg (session msgs m w).1.2)]).
Proof.
  revert m w. induction msgs as [|msg msgs IH]; intros m w; [by left|].
  rewrite session_cons.
  destruct (Update_step_ok msg m w) as (Hp & _ & _ & Hs).
  destruct Hs as [(Hw & Hc & Hf)|(Hq & Hf & Hs)].
  - destruct ((Update msg m w).1.2) eqn:Hcmd; simpl;
      try (by left);
      (destruct (IH (Update msg m w).1.1 (Update msg m w).2)
         as [(Hw' & Hc' & Hf')|(Hf' & Hl' & Hs')];
       [left; split_and!; congruence|right; split_and!; [done| |]]);
      try (rewrite Hs'; congruence);
      by destruct ((session msgs _ _).1.1).
  - rewrite Hq. right. done.
Qed.

Lemma session_cache msgs m w n :
  is_Some (regionCache m !! n) →
  is_Some (regionCache (session msgs m w).1.2 !! n) ∧
  Forall (λ c, ¬ fetches_regions_of n c) (session msgs m w).1.1.
Proof.
  revert m w. induction msgs as [|msg msgs IH]; intros m w Hn; [done|].
  rewrite session_cons.
  destruct (Update_step_ok msg m w) as (_ & Hmono & Hfetch & _).
  assert (¬ fetches_regions_of n (Update msg m w).1.2) as Hno.
  { destruct ((Update msg m w).1.2) eqn:Hcmd; simpl; try tauto.
    intros <-. rewrite (Hfetch _ eq_refl) in Hn. by destruct Hn. }
  destruct (IH (Update msg m w).1.1 (Update msg m w).2 (Hmono n Hn)) as [Hc Hall].
  destruct ((Update msg m w).1.2) eqn:Hcmd; simpl;
    (split; [auto|]); repeat constructor; auto.
Qed.

Lemma key_switch_quit key m w :
  quit_key key → key_switch key m w = Return (m, Quit, w).
Proof. by intros [-> | ->]. Qed.

Lemma key_switch_commit key m w :
  commit_key key → key_switch key m w = Return (saveAndQuitCurrentMode m w).
Proof. by intros [-> | ->]. Qed.

Lemma quit_key_not_enter key : quit_key key → key ≠ "enter".
Proof. by intros [-> | ->]. Qed.

Lemma commit_key_not_enter key : commit_key key → key ≠ "enter".
Proof. by intros [-> | ->]. Qed.

Lemma Update_key_not_filtering key m w :
  FilterState_of (active m) ≠ Filtering →
  Update (KeyMsg key) m w =
    match key_switch key (refreshDelegates m) w with
    | Return r => r
    | Leave m1 => after_switch (KeyMsg key) m1 w
    end.
Proof.
  intros Hf. unfold Update. rewrite decide_False; [done|].
  rewrite FilterState_refreshDelegates. tauto.
Qed.

Lemma Update_key_filtering key m w :
  FilterState_of (active m) = Filtering → key ≠ "enter" →
  Update (KeyMsg key) m w = to_widget (KeyMsg key) (refreshDelegates m) w.
Proof.
  intros Hf Hk. unfold Update. rewrite decide_True; [done|].
  by rewrite FilterState_refreshDelegates.
Qed.

Lemma saveAndQuitCurrentMode_committable m w :
  committable m →
  ∃ m1, core m1 = core m ∧ saveAndQuitCurrentMode m w = finalizeSelection m1 w.
Proof.
  unfold committable, saveAndQuitCurrentMode. destruct (mode m).
  - intros [item ->]. eexists. split; [|reflexivity]. done.
  - intros (item & -> & [p ->]). eexists. split; [|reflexivity]. done.
  - by exists m.
  - intros [item ->]. eexists. split; [|reflexivity]. by destruct (decide _).
Qed.

Lemma saveAndQuitCurrentMode_not_committable m w :
  ¬ committable m → saveAndQuitCurrentMode m w = (m, CmdNil, w).
Proof.
  unfold committable, saveAndQuitCurrentMode. intros Hn. destruct (mode m).
  - destruct (SelectedItem (list_ m)) as [[item| | |]|]; try done.
    destruct Hn. eauto.
  - destruct (SelectedItem (tenancies m)) as [[|item| |]|]; try done.
    destruct (profiles m !! _) eqn:Hp; [|done].
    destruct Hn. exists item. by rewrite Hp.
  - done.
  - destruct (SelectedItem (regions m)) as [[| | |item]|]; try done.
    destruct Hn. eauto.
Qed.

(** C1 (amended). The quit keys ([esc], [ctrl+c]) never touch the store:
    the files, the configuration and [finalized] are as before; and when
    the current list is not being filtered they end the session at once.
    The commit keys ([ctrl+s], [q]) on a list that is not being filtered
    end the session with one [Save] when a row is selected that can be
    committed, and do nothing otherwise. No session calls [Save] more than
    once, and one that does ends with [finalized] set. *)
Theorem C1_quit_never_saves_commit_saves_once m w :
  (∀ key, quit_key key →
     ((Update (KeyMsg key) m w).2 = w ∧
      cfg (Update (KeyMsg key) m w).1.1 = cfg m ∧
      finalized (Update (KeyMsg key) m w).1.1 = finalized m) ∧
     (FilterState_of (active m) ≠ Filtering →
      Update (KeyMsg key) m w = (refreshDelegates m, Quit, w)))
  ∧ (∀ key, commit_key key → FilterState_of (active m) ≠ Filtering →
       (committable m →
        (Update (KeyMsg key) m w).1.2 = Quit ∧
        finalized (Update (KeyMsg key) m w).1.1 = true ∧
        config.save_calls (Update (KeyMsg key) m w).2
          = config.save_calls w
              ++ [(cfgPath m, cfg (Update (KeyMsg key) m w).1.1)]) ∧
       (¬ committable m →
        Update (KeyMsg key) m w = (refreshDelegates m, CmdNil, w)))
  ∧ (∀ msgs,
       config.save_calls (session msgs m w).2 = config.save_calls w ∨
       (finalized (session msgs m w).1.2 = true ∧
        config.save_calls (session msgs m w).2
          = config.save_calls w ++ [(cfgPath m, cfg (session msgs m w).1.2)])).
Proof.
  split_and!.
  - intros key Hk.
    assert (FilterState_of (active m) ≠ Filtering →
            Update (KeyMsg key) m w = (refreshDelegates m, Quit, w)) as Hquit.
    { intros Hf. rewrite Update_key_not_filtering by done.
      by rewrite key_switch_quit. }
    split; [|done].
    destruct (decide (FilterState_of (active m) = Filtering)) as [Hf|Hf].
    + rewrite Update_key_filtering by auto using quit_key_not_enter.
      destruct (to_widget_quiet (KeyMsg key) (refreshDelegates m) w)
        as (Hc & Hw & _).
      rewrite core_refreshDelegates in Hc. core_facts. done.
    + rewrite (Hquit Hf). simpl.
      pose proof (core_refreshDelegates m) as Hc. core_facts. done.
  - intros key Hk Hf. rewrite Update_key_not_filtering by done.
    rewrite key_switch_commit by done. split.
    + intros Hcm. apply committable_refreshDelegates in Hcm.
      destruct (saveAndQuitCurrentMode_committable _ w Hcm) as (m1 & Hc & ->).
      rewrite core_refreshDelegates in Hc.
      destruct (finalizeSelection_spec m1 w)
        as (Hq & Hw & Hfin & _ & _ & Hcfg & _ & Hpath & _).
      split_and!; [done..|].
      rewrite Hw, save_calls_Save, Hcfg. core_facts. congruence.
    + intros Hcm. rewrite <- committable_refreshDelegates in Hcm.
      by rewrite saveAndQuitCurrentMode_not_committable.
  - intros msgs.
    destruct (session_store msgs m w) as [(-> & _)|(Hf & _ & Hs)]; auto.
Qed.

(** *** The leaf policy *)

Lemma UpsertContext_keeps_current ctx c :
  config.CurrentContext c = config.Name ctx →
  config.CurrentContext (config.UpsertContext ctx c).1 = config.Name ctx.
Proof.
  intros Hc. unfold config.UpsertContext.
  destruct (config.find_by_name _ _) as [[i x]|]; simpl; [done|].
  by destruct (decide _).
Qed.

Lemma GetContext_UpsertContext ctx c :
  config.GetContext (config.UpsertContext ctx c).1 (config.Name ctx) = inl ctx.
Proof.
  unfold config.GetContext.
  destruct (UpsertContext_shape ctx c) as [l1 y l2 Hcs Hy Hl1|Habs]; simpl.
  - by rewrite find_by_name_app_cons.
  - rewrite (find_by_name_app_cons _ _ ctx []); done.
Qed.

Lemma files_Save path c w :
  (∃ e, head (config.faults w) = Some (Some e)) ∨
  config.files (config.Save path c w).2 !! path = Some c.
Proof.
  unfold config.Save. destruct (config.faults w) as [|[e|] ?]; simpl.
  - right. apply lookup_insert_eq.
  - left. eauto.
  - right. apply lookup_insert_eq.
Qed.

Lemma on_enter_leaf m w :
  mode m = ModeCompartments → FilterState_of (comps m) ≠ Filtering →
  Items (comps m) = [] →
  on_enter m w = Return (finalizeSelection m w).
Proof.
  intros Hm Hf Hi. unfold on_enter, active. rewrite Hm.
  rewrite decide_False by done. rewrite Hi. done.
Qed.

(** C5 (amended). In compartments mode, when the list of children is empty
    and is not being filtered, [enter] commits the cursor: the session ends
    finalized, the active context has the cursor as its compartment and is
    stored under its name in the configuration, whose current context is
    that name; [Save] is called once with this configuration, and the file
    holds it unless the save failed. *)
Theorem C5_leaf_confirm_commits_parent m w :
  FilterState_of (comps m) ≠ Filtering → leaf_confirm_commits m w.
Proof.
  intros Hf Hm Hi r ctx. subst r.
  assert (FilterState_of (active m) ≠ Filtering) as Hfa
    by (unfold active; by rewrite Hm).
  rewrite Update_key_not_filtering by done.
  assert (key_switch "enter" (refreshDelegates m) w
          = on_enter (refreshDelegates m) w) as -> by done.
  destruct (lists_refreshDelegates m) as ((_ & _ & HI & _) & _ & (_ & _ & HF & _)).
  rewrite on_enter_leaf;
    [|by rewrite mode_refreshDelegates|by rewrite HF|by rewrite HI].
  destruct (finalizeSelection_spec (refreshDelegates m) w)
    as (Hq & Hw & Hfin & _ & Hctx & Hcfg & _ & Hpath & _).
  pose proof (core_refreshDelegates m) as Hc. core_facts.
  rewrite ctxItem_refreshDelegates, parentID_refreshDelegates in *.
  fold ctx in Hctx, Hcfg.
  replace (cfg (refreshDelegates m)) with (cfg m) in * by done.
  replace (cfgPath (refreshDelegates m)) with (cfgPath m) in * by done.
  assert (config.Name ctx = config.Name (ctxItem m)) as Hname by done.
  split_and!; try done.
  - by rewrite Hctx.
  - rewrite Hcfg, <- Hname. by apply UpsertContext_keeps_current.
  - rewrite Hcfg, <- Hname. apply GetContext_UpsertContext.
  - rewrite Hw, save_calls_Save. by rewrite Hcfg.
  - rewrite Hw, Hcfg. apply files_Save.
Qed.

(** *** Staging across the lists *)

Lemma staging_to_widget msg m w : staging (to_widget msg m w).1.1 = staging m.
Proof.
  unfold to_widget. destruct (Update_list msg (active m)) as [l c]. simpl.
  apply staging_with_active.
Qed.

Lemma staging_open_regions item m : staging (open_regions item m).1 = staging m.
Proof.
  unfold open_regions. simpl. destruct (regionCache m !! _); reflexivity.
Qed.

Lemma staging_open_compartments item m :
  staging (open_compartments item m).1 = staging m.
Proof. reflexivity. Qed.

Lemma open_tenancies_keeps_staging m w :
  flow_keeps_staging m (open_tenancies m w).
Proof.
  unfold open_tenancies. destruct (decide _); simpl; (split; [reflexivity|discriminate]).
Qed.

Lemma open_regions_keeps_staging item m0 m w :
  staging m = staging m0 →
  flow_keeps_staging m0
    (let '(m1, c) := open_regions item m in Return (m1, c, w)).
Proof.
  intros Hs. unfold open_regions. simpl.
  destruct (regionCache m !! _); simpl;
    (split; [rewrite <- Hs; reflexivity|discriminate]).
Qed.

(** The keys that switch between the lists leave what is staged alone and
    do not end the session. *)
Lemma key_switch_t m w :
  key_switch "t" m w
  = match mode m with ModeContexts => open_tenancies m w | _ => Leave m end.
Proof. reflexivity. Qed.

Lemma key_switch_T m w :
  key_switch "T" m w
  = match mode m with ModeContexts => Leave m | _ => open_tenancies m w end.
Proof. reflexivity. Qed.

Lemma key_switch_c m w :
  key_switch "c" m w
  = match mode m, SelectedItem (list_ m) with
    | ModeContexts, Some (ctxRow item) =>
        let m := with_ctxItem item m in
        let '(m, c) := open_compartments item m in Return (m, c, w)
    | _, _ => Leave m
    end.
Proof. reflexivity. Qed.

Lemma key_switch_C m w :
  key_switch "C" m w
  = match mode m with
    | ModeContexts => Leave m
    | _ =>
        let m :=
          if decide (ctxItem m = zero_contextItem) then
            match selectInitialContext (Items (list_ m))
                    (config.CurrentContext (cfg m)) with
            | Some ctx => with_ctxItem ctx m
            | None => m
            end
          else m in
        let '(m, c) := open_compartments (ctxItem m) m in Return (m, c, w)
    end.
Proof. reflexivity. Qed.

Lemma key_switch_r m w :
  key_switch "r" m w
  = match mode m, SelectedItem (list_ m) with
    | ModeContexts, Some (ctxRow item) =>
        let m := with_ctxItem item m in
        let '(m, c) := open_regions item m in Return (m, c, w)
    | _, _ => Leave m
    end.
Proof. reflexivity. Qed.

Lemma key_switch_R m w :
  key_switch "R" m w
  = match mode m with
    | ModeContexts => Leave m
    | _ => let '(m, c) := open_regions (ctxItem m) m in Return (m, c, w)
    end.
Proof. reflexivity. Qed.

Lemma key_switch_p m w :
  key_switch "p" m w
  = match mode m with
    | ModeContexts => Return (with_status "" m, CmdNil, w)
    | _ => Leave m
    end.
Proof. reflexivity. Qed.

Lemma key_switch_P m w :
  key_switch "P" m w
  = match mode m with
    | ModeContexts => Leave m
    | _ =>
        let m := with_mode ModeContexts m in
        let m := with_status "" m in
        let m := with_crumb "" m in
        Return (m, CmdNil, w)
    end.
Proof. reflexivity. Qed.

Lemma key_switch_b m w :
  key_switch "b" m w
  = match mode m with
    | ModeContexts => Leave (with_status "" (with_mode ModeContexts m))
    | _ => Leave m
    end.
Proof. reflexivity. Qed.

Lemma open_compartments_not_Quit item m : (open_compartments item m).2 ≠ Quit.
Proof. discriminate. Qed.

Lemma open_compartments_keeps_staging item m0 m w :
  staging m = staging m0 →
  flow_keeps_staging m0
    (let '(m1, c) := open_compartments item m in Return (m1, c, w)).
Proof.
  intros Hs.
  pose proof (staging_open_compartments item m) as H1.
  pose proof (open_compartments_not_Quit item m) as H2.
  destruct (open_compartments item m) as [m1 c]. simpl in *.
  split; [by rewrite H1|done].
Qed.

(** The keys that switch between the lists leave what is staged alone and
    do not end the session. *)
Lemma key_switch_keeps_staging key m w :
  key ∈ switch_keys → flow_keeps_staging m (key_switch key m w).
Proof.
  intros Hk. unfold switch_keys in Hk.
  repeat (apply elem_of_cons in Hk as [->|Hk]); [..|by apply elem_of_nil in Hk].
  - rewrite key_switch_t.
    destruct (mode m); try reflexivity. apply open_tenancies_keeps_staging.
  - rewrite key_switch_T.
    destruct (mode m); try reflexivity; apply open_tenancies_keeps_staging.
  - rewrite key_switch_c.
    destruct (mode m); try reflexivity.
    destruct (SelectedItem (list_ m)) as [[item| | |]|]; try reflexivity.
    by apply open_compartments_keeps_staging.
  - rewrite key_switch_C.
    destruct (mode m); try reflexivity; cbv zeta;
      apply open_compartments_keeps_staging;
      repeat case_match; reflexivity.
  - rewrite key_switch_r.
    destruct (mode m); try reflexivity.
    destruct (SelectedItem (list_ m)) as [[item| | |]|]; try reflexivity.
    by apply open_regions_keeps_staging.
  - rewrite key_switch_R.
    destruct (mode m); try reflexivity; by apply open_regions_keeps_staging.
  - rewrite key_switch_p.
    destruct (mode m); try reflexivity. simpl. split; [reflexivity|discriminate].
  - rewrite key_switch_P.
    destruct (mode m); try reflexivity; simpl; (split; [reflexivity|discriminate]).
  - rewrite key_switch_b. destruct (mode m); reflexivity.
Qed.

Lemma to_widget_not_Quit msg m w : (to_widget msg m w).1.2 ≠ Quit.
Proof. unfold to_widget. destruct (Update_list _ _). simpl. discriminate. Qed.

Lemma Update_switch_keeps_staging key m w :
  key ∈ switch_keys →
  staging (Update (KeyMsg key) m w).1.1 = staging m ∧
  (Update (KeyMsg key) m w).1.2 ≠ Quit.
Proof.
  intros Hk. unfold Update. rewrite <- (staging_refreshDelegates m).
  case_decide; [split; [apply staging_to_widget|apply to_widget_not_Quit]|].
  pose proof (key_switch_keeps_staging key (refreshDelegates m) w Hk) as H'.
  destruct (key_switch key (refreshDelegates m) w); [exact H'|].
  simpl in H'. rewrite <- H'.
  split; [apply staging_to_widget|apply to_widget_not_Quit].
Qed.

Lemma staging_Update_switch key m w :
  key ∈ switch_keys → staging (Update (KeyMsg key) m w).1.1 = staging m.
Proof. intros Hk. by apply Update_switch_keeps_staging. Qed.

Lemma staging_session_switch (keys : list string) m w :
  Forall (λ key, key ∈ switch_keys) keys →
  staging (session (KeyMsg <$> keys) m w).1.2 = staging m.
Proof.
  intros Hk. revert m w. induction Hk as [|key keys Hkey _ IH]; intros m w; [done|].
  rewrite fmap_cons, session_cons.
  destruct (Update_switch_keeps_staging key m w Hkey) as [Hs Hq].
  destruct ((Update (KeyMsg key) m w).1.2); try done; simpl;
    by rewrite IH.
Qed.

Lemma marks_of_staging m1 m2 :
  staging m1 = staging m2 →
  pendingSelectionID m1 = pendingSelectionID m2 ∧
  (∀ it, comp_marked m1 it = comp_marked m2 it) ∧
  staged_meta m1 = staged_meta m2.
Proof.
  unfold staging. intros [= H1 H2 H3 H4]. split_and!; [done| |].
  - intros [| |c|]; simpl; by rewrite ?H3.
  - unfold staged_meta. by rewrite H1, H2, H3, H4.
Qed.

Lemma Update_T_from_compartments m w :
  mode m = ModeCompartments → FilterState_of (comps m) ≠ Filtering →
  Items (tenancies m) ≠ [] →
  Update (KeyMsg "T") m w =
    (with_status "Select tenancy (Enter to use a profile and open root)"
       (with_mode ModeTenancies (refreshDelegates m)), CmdNil, w).
Proof.
  intros Hm Hf Hi.
  rewrite Update_key_not_filtering by (unfold active; by rewrite Hm).
  rewrite key_switch_T, mode_refreshDelegates, Hm.
  unfold open_tenancies.
  destruct (lists_refreshDelegates m) as ((_ & -> & _) & _).
  rewrite decide_False; [reflexivity|]. by destruct (Items (tenancies m)).
Qed.

Lemma mode_open_compartments item m :
  mode (open_compartments item m).1 = ModeCompartments.
Proof. reflexivity. Qed.

Lemma mode_Update_C m w :
  mode m = ModeTenancies → FilterState_of (tenancies m) ≠ Filtering →
  mode (Update (KeyMsg "C") m w).1.1 = ModeCompartments.
Proof.
  intros Hm Hf.
  rewrite Update_key_not_filtering by (unfold active; by rewrite Hm).
  rewrite key_switch_C, mode_refreshDelegates, Hm. cbv zeta.
  match goal with |- context [open_compartments ?i ?x] =>
    pose proof (mode_open_compartments i x) as Ho;
    destruct (open_compartments i x) end.
  exact Ho.
Qed.

(** C8. Going from the compartments list to the tenancies list ([T]) and
    back ([C]) leaves what is staged as it was: the staged compartment id
    is the same, the same rows are drawn as staged, and the status line
    names the same staged selection. The same holds for every sequence of
    the keys that switch between the lists. *)
Theorem C8_staged_compartment_survives_switching m w :
  (pendingSelectionID
     (Update (KeyMsg "C") (Update (KeyMsg "T") m w).1.1
        (Update (KeyMsg "T") m w).2).1.1 = pendingSelectionID m
   ∧ (∀ it, comp_marked
              (Update (KeyMsg "C") (Update (KeyMsg "T") m w).1.1
                 (Update (KeyMsg "T") m w).2).1.1 it = comp_marked m it)
   ∧ staged_meta
       (Update (KeyMsg "C") (Update (KeyMsg "T") m w).1.1
          (Update (KeyMsg "T") m w).2).1.1 = staged_meta m)
  ∧ (mode m = ModeCompartments → FilterState_of (comps m) ≠ Filtering →
     FilterState_of (tenancies m) ≠ Filtering → Items (tenancies m) ≠ [] →
     mode (Update (KeyMsg "T") m w).1.1 = ModeTenancies ∧
     mode (Update (KeyMsg "C") (Update (KeyMsg "T") m w).1.1
             (Update (KeyMsg "T") m w).2).1.1 = ModeCompartments)
  ∧ (∀ keys, Forall (λ key, key ∈ switch_keys) keys →
       pendingSelectionID (session (KeyMsg <$> keys) m w).1.2
         = pendingSelectionID m
       ∧ (∀ it, comp_marked (session (KeyMsg <$> keys) m w).1.2 it
                = comp_marked m it)
       ∧ staged_meta (session (KeyMsg <$> keys) m w).1.2 = staged_meta m).
Proof.
  assert ("T" ∈ switch_keys) as HT
    by (unfold switch_keys; apply list_elem_of_further, list_elem_of_here).
  assert ("C" ∈ switch_keys) as HC
    by (unfold switch_keys; do 3 apply list_elem_of_further;
        apply list_elem_of_here).
  split; [|split].
  - apply marks_of_staging.
    by rewrite (staging_Update_switch "C"), (staging_Update_switch "T").
  - intros Hm Hfc Hft Hi. rewrite Update_T_from_compartments by done.
    split; [reflexivity|]. apply mode_Update_C; [reflexivity|].
    cbn [fst snd tenancies with_status with_mode].
    by destruct (lists_refreshDelegates m) as (_ & _ & (_ & -> & _)).
  - intros keys Hk. apply marks_of_staging. by apply staging_session_switch.
Qed.

(** *** The region cache *)

Lemma regions_refreshDelegates m :
  regions (refreshDelegates m) = SetTitle (region_title m) (regions m).
Proof.
  unfold refreshDelegates, applyDensityMode, region_title.
  destruct (ultraCompact m); [reflexivity|].
  cbv zeta. destruct (decide _); reflexivity.
Qed.

Lemma regionCache_refreshDelegates m :
  regionCache (refreshDelegates m) = regionCache m.
Proof. pose proof (core_refreshDelegates m). by core_facts. Qed.

Lemma Update_region_failure ctxName items e m w :
  let r := Update (regionResultMsg ctxName items (Some e)) m w in
  r.1.2 = CmdNil ∧ r.2 = w ∧
  regionCache r.1.1 = <[ctxName := fallbackRegions]> (regionCache m) ∧
  regions r.1.1
    = Select 0 (SetItems (toRegionList fallbackRegions)
                  (SetTitle (region_title m) (regions m))) ∧
  status r.1.1 = "Region fetch failed: " +:+ e +:+ " (showing defaults)".
Proof.
  intros r. subst r. unfold Update, after_switch.
  cbn [fst snd regionCache regions status with_regions with_regionCache with_status].
  by rewrite regionCache_refreshDelegates, regions_refreshDelegates.
Qed.

Lemma open_regions_cached item cached m :
  regionCache m !! config.Name item = Some cached →
  (open_regions item m).2 = CmdNil ∧
  mode (open_regions item m).1 = ModeRegions ∧
  regions (open_regions item m).1
    = Select 0 (SetItems (toRegionList cached) (regions m)).
Proof.
  intros Hc. unfold open_regions.
  cbn [regionCache with_status with_mode]. rewrite Hc. done.
Qed.

Lemma enter_regions_cached msg item cached m0 m w :
  regionCache m !! config.Name item = Some cached →
  regions m = SetTitle (region_title m0) (regions m0) →
  let r := match (let '(m1, c) := open_regions item m in Return (m1, c, w)) with
           | Return r => r
           | Leave m1 => after_switch msg m1 w
           end in
  r.1.2 = CmdNil ∧ mode r.1.1 = ModeRegions ∧
  regions r.1.1
    = Select 0 (SetItems (toRegionList cached)
                  (SetTitle (region_title m0) (regions m0))).
Proof.
  intros Hc Hr. destruct (open_regions_cached item cached m Hc) as (H1 & H2 & H3).
  destruct (open_regions item m) as [m1 c]. simpl in *. by rewrite <- Hr.
Qed.

(** C4. When the region fetch for a context fails, the built-in list is
    put in the region list and cached under the name of the context, and
    no error ends the session. From then on, whatever messages the session
    handles, the name stays cached and no command fetches the regions of a
    context of that name; entering the region list for such a context (with
    [r] from the contexts list, or [R] from another list) shows the cached
    list and issues no command. *)
Theorem C4_region_fallback_is_cached ctxName items e m w :
  let r := Update (regionResultMsg ctxName items (Some e)) m w in
  (r.1.2 = CmdNil ∧ r.2 = w ∧
   regionCache r.1.1 !! ctxName = Some fallbackRegions ∧
   regions r.1.1
     = Select 0 (SetItems (toRegionList fallbackRegions)
                   (SetTitle (region_title m) (regions m))))
  ∧ (∀ msgs,
       is_Some (regionCache (session msgs r.1.1 r.2).1.2 !! ctxName) ∧
       Forall (λ c, ¬ fetches_regions_of ctxName c)
              (session msgs r.1.1 r.2).1.1)
  ∧ (∀ m2 w2 cached item,
       regionCache m2 !! ctxName = Some cached →
       config.Name item = ctxName →
       (mode m2 = ModeContexts → FilterState_of (list_ m2) ≠ Filtering →
        SelectedItem (list_ m2) = Some (ctxRow item) →
        (Update (KeyMsg "r") m2 w2).1.2 = CmdNil ∧
        mode (Update (KeyMsg "r") m2 w2).1.1 = ModeRegions ∧
        regions (Update (KeyMsg "r") m2 w2).1.1
          = Select 0 (SetItems (toRegionList cached)
                        (SetTitle (region_title m2) (regions m2)))) ∧
       (mode m2 ≠ ModeContexts → FilterState_of (active m2) ≠ Filtering →
        ctxItem m2 = item →
        (Update (KeyMsg "R") m2 w2).1.2 = CmdNil ∧
        mode (Update (KeyMsg "R") m2 w2).1.1 = ModeRegions ∧
        regions (Update (KeyMsg "R") m2 w2).1.1
          = Select 0 (SetItems (toRegionList cached)
                        (SetTitle (region_title m2) (regions m2))))).
Proof.
  intros r.
  destruct (Update_region_failure ctxName items e m w) as (Hc & Hw & Hcache & Hreg & _).
  fold r in Hc, Hw, Hcache, Hreg.
  assert (regionCache r.1.1 !! ctxName = Some fallbackRegions) as Hhit
    by (rewrite Hcache; apply lookup_insert_eq).
  split; [done|]. split.
  - intros msgs. apply session_cache. by rewrite Hhit.
  - intros m2 w2 cached item Hcached <-. split.
    + intros Hm Hf Hsel.
      rewrite Update_key_not_filtering by (unfold active; by rewrite Hm).
      rewrite key_switch_r, mode_refreshDelegates, Hm.
      destruct (lists_refreshDelegates m2) as (_ & (-> & _) & _). rewrite Hsel.
      cbv zeta. apply enter_regions_cached.
      * cbn [regionCache with_ctxItem]. by rewrite regionCache_refreshDelegates.
      * cbn [regions with_ctxItem]. apply regions_refreshDelegates.
    + intros Hm Hf Hitem.
      rewrite Update_key_not_filtering by done.
      rewrite key_switch_R, mode_refreshDelegates.
      assert (∀ f : Flow, match mode m2 with
                          | ModeContexts => Leave (refreshDelegates m2)
                          | _ => f end = f) as ->
        by (intros x; by destruct (mode m2)).
      apply enter_regions_cached.
      * rewrite regionCache_refreshDelegates, ctxItem_refreshDelegates.
        by rewrite Hitem.
      * apply regions_refreshDelegates.
Qed.

End picker.

(** ** The picker on the sample data *)
Section examples.
Import cmd.

(** C1 on the sample model: [esc] at the start, and [ctrl+s] on the
    highlighted context. *)
Lemma C1_quit_never_saves_commit_saves_once_witness :
  Update (KeyMsg "esc") sample_model sample_world
    = (refreshDelegates sample_model, Quit, sample_world)
  ∧ (Update (KeyMsg "ctrl+s") sample_model sample_world).1.2 = Quit
  ∧ length (config.save_calls
              (Update (KeyMsg "ctrl+s") sample_model sample_world).2) = 1.
Proof.
  destruct (C1_quit_never_saves_commit_saves_once sample_model sample_world)
    as (Hquit & Hcommit & _).
  split.
  - apply (Hquit "esc"); [by left|]. vm_compute. discriminate.
  - destruct (Hcommit "ctrl+s") as [Hsave _]; [by left|vm_compute; discriminate|].
    destruct Hsave as (Hq & _ & Hs).
    + exists sample_ctx. vm_compute. reflexivity.
    + split; [exact Hq|]. rewrite Hs. reflexivity.
Defined.

(** C1 as worded fails in two states. With nothing listed, [ctrl+s] saves
    nothing and the session goes on. While the contexts list is being
    filtered (after [/]), [esc] goes to the list and the session goes on. *)
Lemma C1_counterexample_no_row_and_filtering :
  ¬ commit_saves_once empty_model sample_world
  ∧ FilterState_of (active (after [KeyMsg "/"] sample_model)) = Filtering
  ∧ ¬ quit_ends_session (after [KeyMsg "/"] sample_model) sample_world.
Proof.
  split_and!.
  - intros H. destruct (H "ctrl+s") as [c Hc]; [by left|].
    vm_compute in Hc. discriminate Hc.
  - vm_compute. reflexivity.
  - intros H. destruct (H "esc") as (Hq & _); [by left|].
    vm_compute in Hq. discriminate Hq.
Qed.

(** C5 on the sample model: the context is opened, no children come back,
    and [enter] commits the tenancy as the compartment. *)
Lemma C5_leaf_confirm_commits_parent_witness :
  let m := after [KeyMsg "enter";
                  compResultMsg "ocid1.tenancy.oc1..ten" [] None] sample_model in
  let r := Update (KeyMsg "enter") m sample_world in
  r.1.2 = Quit ∧ finalized r.1.1 = true ∧
  config.CompartmentOCID (ctxItem r.1.1) = "ocid1.tenancy.oc1..ten" ∧
  config.CurrentContext (cfg r.1.1) = "dev" ∧
  config.save_calls r.2 = [("/tmp/config.yml", cfg r.1.1)].
Proof.
  intros m r.
  assert (FilterState_of (comps m) ≠ Filtering) as Hf
    by (vm_compute; discriminate).
  assert (mode m = ModeCompartments) as Hm by (vm_compute; reflexivity).
  assert (Items (comps m) = []) as Hi by (vm_compute; reflexivity).
  destruct (C5_leaf_confirm_commits_parent m sample_world Hf Hm Hi)
    as (Hq & Hfin & _ & Hcomp & Hcur & _ & _ & Hsaves & _).
  fold r in Hq, Hfin, Hcomp, Hcur, Hsaves.
  split_and!; [exact Hq|exact Hfin| | |].
  - rewrite Hcomp. vm_compute. reflexivity.
  - rewrite Hcur. vm_compute. reflexivity.
  - rewrite Hsaves. reflexivity.
Defined.

(** C5 as worded fails while the empty list of children is being filtered:
    after [/], [enter] ends the filtering and commits nothing. *)
Lemma C5_counterexample_filtering :
  let m := after [KeyMsg "enter";
                  compResultMsg "ocid1.tenancy.oc1..ten" [] None;
                  KeyMsg "/"] sample_model in
  mode m = ModeCompartments ∧ Items (comps m) = [] ∧
  Update (KeyMsg "enter") m sample_world
    = (after [KeyMsg "enter";
              compResultMsg "ocid1.tenancy.oc1..ten" [] None;
              KeyMsg "/"; KeyMsg "enter"] sample_model, CmdNil, sample_world) ∧
  ¬ leaf_confirm_commits m sample_world.
Proof.
  intros m.
  assert (mode m = ModeCompartments) as Hm by (vm_compute; reflexivity).
  assert (Items (comps m) = []) as Hi by (vm_compute; reflexivity).
  split_and!; [done|done|vm_compute; reflexivity|].
  intros H. destruct (H Hm Hi) as (Hq & _).
  vm_compute in Hq. discriminate Hq.
Qed.

(** C8 on the sample model: a child compartment is staged with [space],
    then [T] and [C]. *)
Lemma C8_staged_compartment_survives_switching_witness :
  let m := after [KeyMsg "enter";
                  compResultMsg "ocid1.tenancy.oc1..ten" [sample_child] None;
                  KeyMsg " "] sample_model in
  let on_T := Update (KeyMsg "T") m sample_world in
  let on_C := Update (KeyMsg "C") on_T.1.1 on_T.2 in
  pendingSelectionID m = "ocid1.compartment.oc1..child" ∧
  mode on_T.1.1 = ModeTenancies ∧
  mode on_C.1.1 = ModeCompartments ∧
  pendingSelectionID on_C.1.1 = "ocid1.compartment.oc1..child" ∧
  comp_marked on_C.1.1 (compRow sample_child) = true ∧
  pendingSelectionID (after [KeyMsg "T"; KeyMsg "C"] m)
    = "ocid1.compartment.oc1..child".
Proof.
  intros m on_T on_C.
  destruct (C8_staged_compartment_survives_switching m sample_world)
    as ((Hid & Hmark & _) & Hmodes & Hkeys).
  fold on_T in Hid, Hmark, Hmodes. fold on_C in Hid, Hmark, Hmodes.
  assert (pendingSelectionID m = "ocid1.compartment.oc1..child") as Hstaged
    by (vm_compute; reflexivity).
  destruct Hmodes as [HT HC].
  { vm_compute. reflexivity. }
  { vm_compute. discriminate. }
  { vm_compute. discriminate. }
  { vm_compute. discriminate. }
  destruct (Hkeys ["T"; "C"]) as (Hid' & _).
  { repeat constructor. }
  split_and!.
  - exact Hstaged.
  - exact HT.
  - exact HC.
  - rewrite Hid. exact Hstaged.
  - rewrite Hmark. vm_compute. reflexivity.
  - unfold after. simpl fmap in Hid'. rewrite Hid'. exact Hstaged.
Defined.

(** C4 on the sample model: [r] starts the fetch for ["dev"], the fetch
    fails, the user goes back and presses [r] again. *)
Lemma C4_region_fallback_is_cached_witness :
  let m := after [KeyMsg "r"] sample_model in
  let failed :=
    Update (regionResultMsg "dev" [] (Some ("timeout" : error))) m sample_world in
  let back := Update (KeyMsg "backspace") failed.1.1 failed.2 in
  let again := Update (KeyMsg "r") back.1.1 back.2 in
  (Update (KeyMsg "r") sample_model sample_world).1.2 = loadRegionsCmd sample_ctx ∧
  regionCache failed.1.1 !! "dev" = Some fallbackRegions ∧
  Items (regions failed.1.1) = toRegionList fallbackRegions ∧
  again.1.2 = CmdNil ∧ mode again.1.1 = ModeRegions ∧
  Items (regions again.1.1) = toRegionList fallbackRegions ∧
  Forall (λ c, ¬ fetches_regions_of "dev" c)
         (session [KeyMsg "backspace"; KeyMsg "r"] failed.1.1 failed.2).1.1.
Proof.
  intros m failed back again.
  destruct (C4_region_fallback_is_cached "dev" [] "timeout" m sample_world)
    as ((_ & _ & Hhit & Hshown) & Hlater & Hentry).
  fold failed in Hhit, Hshown, Hlater.
  destruct (Hlater [KeyMsg "backspace"; KeyMsg "r"]) as [_ Hnofetch].
  destruct (Hentry back.1.1 back.2 fallbackRegions sample_ctx) as [Hr _].
  { vm_compute. reflexivity. }
  { reflexivity. }
  destruct Hr as (Hcmd & Hmode & Hlist).
  { vm_compute. reflexivity. }
  { vm_compute. discriminate. }
  { vm_compute. reflexivity. }
  fold again in Hcmd, Hmode, Hlist.
  split_and!.
  - vm_compute. reflexivity.
  - exact Hhit.
  - rewrite Hshown. vm_compute. reflexivity.
  - exact Hcmd.
  - exact Hmode.
  - rewrite Hlist. vm_compute. reflexivity.
  - exact Hnofetch.
Defined.

End examples.

(** ** The context store: lookups, deletions and their compositions *)
Section store_lookups.
Import config.
Implicit Types (c : Config) (ctx x : Context) (cs : list Context).
Implicit Types (n name : string) (i j idx : nat).

Lemma find_by_name_head n cs :
  snd <$> find_by_name n cs = head (filter (λ x, Name x = n) cs).
Proof.
  unfold find_by_name. induction cs as [|y cs IH]; [done|]. simpl.
  destruct (decide (Name y = n)) as [Hy|Hy].
  - by rewrite filter_cons_True.
  - rewrite filter_cons_False by done. rewrite <- IH.
    by destruct (list_find _ cs) as [[??]|].
Qed.

(** [GetContext] returns the first stored context of the name. *)
Lemma GetContext_named c n :
  GetContext c n = from_option inl (inr ErrContextNotFound) (head (named n c)).
Proof.
  unfold GetContext, named. rewrite <- find_by_name_head.
  by destruct (find_by_name n (Contexts c)) as [[??]|].
Qed.

Lemma named_UpsertContext ctx c n :
  n ≠ Name ctx → named n (UpsertContext ctx c).1 = named n c.
Proof.
  intros Hn. unfold named.
  destruct (UpsertContext_shape ctx c) as [l1 y l2 Hcs Hy Hl1|Habs]; simpl.
  - rewrite Hcs, !filter_app, !filter_cons_False by congruence. done.
  - rewrite filter_app, filter_cons_False by congruence. by rewrite app_nil_r.
Qed.

(** X1. Looking a name up after an upsert gives the upserted context for
    its own name and what the store gave before for every other name. *)
Theorem GetContext_after_UpsertContext ctx c n :
  GetContext (UpsertContext ctx c).1 n =
    if decide (n = Name ctx) then inl ctx else GetContext c n.
Proof.
  destruct (decide (n = Name ctx)) as [->|Hn].
  - apply GetContext_UpsertContext.
  - by rewrite !GetContext_named, named_UpsertContext.
Qed.

Lemma named_DeleteContext name c n :
  named n (DeleteContext name c).1 =
    if decide (n = name) then tail (named n c) else named n c.
Proof.
  unfold DeleteContext, named.
  destruct (find_by_name name (Contexts c)) as [[i x]|] eqn:Hf; simpl.
  - destruct (find_by_name_split _ _ _ _ Hf) as (l1 & l2 & Hcs & Hlen & Hx & Hl1).
    rewrite Hcs. subst i. rewrite take_app_length, drop_app_ge by lia.
    replace (S (length l1) - length l1) with 1 by lia. simpl.
    rewrite !filter_app. destruct (decide (n = name)) as [->|Hn].
    + rewrite filter_cons_True by done.
      by rewrite (filter_name_absent _ _ Hl1).
    + rewrite filter_cons_False by congruence. done.
  - apply find_by_name_None in Hf.
    destruct (decide (n = name)) as [->|Hn]; [|done].
    by rewrite (filter_name_absent _ _ Hf).
Qed.

(** X2. [DeleteContext] removes the first stored context of the name and
    nothing else: the contexts of the name lose their first one, those of
    every other name stay as they are; it reports [ErrContextNotFound]
    exactly when no context has the name, and then the store is left as it
    was. *)
Theorem DeleteContext_removes_first name c :
  (∀ n, named n (DeleteContext name c).1 =
          if decide (n = name) then tail (named n c) else named n c) ∧
  (DeleteContext name c).2 =
    (if decide (name ∈ names c) then None else Some ErrContextNotFound) ∧
  (name ∉ names c → (DeleteContext name c).1 = c).
Proof.
  split_and!.
  - intros n. apply named_DeleteContext.
  - unfold DeleteContext.
    destruct (find_by_name name (Contexts c)) as [[i x]|] eqn:Hf; simpl.
    + rewrite decide_True; [done|].
      apply find_by_name_Some in Hf as (Hi & Hx & _).
      unfold names. apply list_elem_of_fmap. exists x. split; [done|].
      apply list_elem_of_lookup. eauto.
    + apply find_by_name_None in Hf. by rewrite decide_False.
  - intros Hn. apply find_by_name_None in Hn. unfold DeleteContext. by rewrite Hn.
Qed.

Lemma NoDup_names_named c n :
  NoDup (names c) → tail (named n c) = [].
Proof.
  unfold names, named. induction (Contexts c) as [|y cs IH]; [done|].
  rewrite fmap_cons. intros [Hy Hnd]%NoDup_cons.
  destruct (decide (Name y = n)) as [<-|Hne].
  - rewrite filter_cons_True by done. simpl. by apply filter_name_absent.
  - rewrite filter_cons_False by done. auto.
Qed.

(** X3. In a store whose names are pairwise distinct, a deleted name is no
    longer found, and every other name is looked up as before. *)
Theorem GetContext_after_DeleteContext name c n :
  NoDup (names c) →
  GetContext (DeleteContext name c).1 n =
    if decide (n = name) then inr ErrContextNotFound else GetContext c n.
Proof.
  intros Hnd. rewrite !GetContext_named, named_DeleteContext.
  destruct (decide (n = name)) as [->|Hn]; [|done].
  by rewrite NoDup_names_named.
Qed.

(** X4. Upserting a context under a new name and deleting that name again
    gives back the store, [currentContext] included, provided
    [currentContext] was empty or named a stored context. *)
Theorem DeleteContext_undoes_UpsertContext ctx c :
  current_ok c → Name ctx ∉ names c →
  DeleteContext (Name ctx) (UpsertContext ctx c).1 = (c, None).
Proof.
  intros Hok Hn. pose proof Hn as Hf. apply find_by_name_None in Hf.
  unfold UpsertContext. rewrite Hf. unfold DeleteContext. cbn [fst Contexts].
  rewrite (find_by_name_app_cons (Name ctx) (Contexts c) ctx []) by done.
  cbn [cOptions CurrentContext Contexts].
  rewrite take_app_length, drop_app_ge by lia.
  replace (S (length (Contexts c)) - length (Contexts c)) with 1 by lia.
  simpl. rewrite app_nil_r. f_equal.
  destruct c as [o cs cur]. simpl in *. f_equal.
  destruct (decide (cur = "")) as [->|Hc].
  - by rewrite decide_True.
  - rewrite decide_False; [done|].
    intros ->. destruct Hok as [?|Hin]; done.
Qed.

(** X5. Upserting the same context a second time changes nothing. *)
Theorem UpsertContext_idempotent ctx c :
  UpsertContext ctx (UpsertContext ctx c).1 = UpsertContext ctx c.
Proof.
  destruct (UpsertContext_shape ctx c) as [l1 y l2 Hcs Hy Hl1|Habs].
  - unfold UpsertContext at 1. cbn [Contexts cOptions CurrentContext].
    rewrite (find_by_name_app_cons (Name ctx) l1 ctx l2) by done.
    rewrite insert_app_r_alt by lia. rewrite Nat.sub_diag. simpl.
    unfold UpsertContext. rewrite Hcs.
    rewrite (find_by_name_app_cons (Name ctx) l1 y l2) by done.
    rewrite insert_app_r_alt by lia. rewrite Nat.sub_diag. done.
  - unfold UpsertContext at 1. cbn [Contexts cOptions CurrentContext].
    rewrite (find_by_name_app_cons (Name ctx) (Contexts c) ctx []) by done.
    rewrite insert_app_r_alt by lia. rewrite Nat.sub_diag. simpl.
    apply find_by_name_None in Habs. unfold UpsertContext. by rewrite Habs.
Qed.

(** X6. Whatever upserts and deletes are applied, the names of the stored
    contexts stay pairwise distinct if they were. *)
Theorem store_names_stay_distinct ops c :
  NoDup (names c) → NoDup (names (apply_ops ops c)).
Proof. apply apply_ops_NoDup. Qed.

End store_lookups.

(** X2 at a store with one context: deleting a name that is not stored. *)
Lemma DeleteContext_removes_first_witness :
  let dev := config.mkContext "dev" "DEFAULT" "t1" "c1" "r1" "" "" in
  let c := config.mkConfig (config.mkOptions "" "" "") [dev] "dev" in
  config.DeleteContext "prod" c = (c, Some config.ErrContextNotFound) ∧
  config.named "dev" (config.DeleteContext "dev" c).1 = [].
Proof.
  intros dev c.
  destruct (DeleteContext_removes_first "prod" c) as (_ & He & Hc).
  destruct (DeleteContext_removes_first "dev" c) as (Hn & _ & _).
  split.
  - apply injective_projections; [apply Hc|exact He].
    refine (bool_decide_unpack _ _). vm_compute. exact I.
  - rewrite (Hn "dev"). reflexivity.
Defined.

(** X3 at a store of two contexts: ["dev"] is deleted, ["prod"] stays. *)
Lemma GetContext_after_DeleteContext_witness :
  let dev := config.mkContext "dev" "DEFAULT" "t1" "c1" "r1" "" "" in
  let prod := config.mkContext "prod" "PROD" "t2" "c2" "r2" "" "" in
  let c := config.mkConfig (config.mkOptions "" "" "") [dev; prod] "dev" in
  config.GetContext (config.DeleteContext "dev" c).1 "dev"
    = inr config.ErrContextNotFound ∧
  config.GetContext (config.DeleteContext "dev" c).1 "prod" = inl prod.
Proof.
  intros dev prod c.
  assert (NoDup (config.names c)) as Hnd.
  { refine (bool_decide_unpack _ _). vm_compute. exact I. }
  split.
  - exact (GetContext_after_DeleteContext "dev" c "dev" Hnd).
  - exact (GetContext_after_DeleteContext "dev" c "prod" Hnd).
Defined.

(** X4 at a store whose current context is ["dev"]. *)
Lemma DeleteContext_undoes_UpsertContext_witness :
  let dev := config.mkContext "dev" "DEFAULT" "t1" "c1" "r1" "" "" in
  let prod := config.mkContext "prod" "PROD" "t2" "c2" "r2" "" "" in
  let c := config.mkConfig (config.mkOptions "" "" "") [dev] "dev" in
  config.DeleteContext "prod" (config.UpsertContext prod c).1 = (c, None).
Proof.
  intros dev prod c.
  apply (DeleteContext_undoes_UpsertContext prod c).
  - right. apply list_elem_of_here.
  - refine (bool_decide_unpack _ _). vm_compute. exact I.
Defined.

(** X6 at the empty store. *)
Lemma store_names_stay_distinct_witness :
  let dev := config.mkContext "dev" "DEFAULT" "t1" "c1" "r1" "" "" in
  let dev' := config.mkContext "dev" "OTHER" "t1" "c9" "r2" "" "" in
  NoDup (config.names
           (config.apply_ops [config.OpUpsert dev; config.OpUpsert dev';
                              config.OpDelete "prod"]
              (config.DefaultConfig "/home/u"))).
Proof.
  intros dev dev'.
  apply store_names_stay_distinct. apply NoDup_nil_2.
Defined.

(** ** The daemon's request handler *)
Section service.
Import config ipcmsg ipc daemon.
Variable Unmarshal : list Byte.byte → option Request.
Variable UnmarshalContext : RawMessage → config.Context + error.
Implicit Types (s : Service) (w : World) (st : State) (req : Request).
Implicit Types (name : string) (stream cur : list Byte.byte).

Local Abbreviation serve := (handle UnmarshalContext).

Lemma Save_outcome path c w :
  ((Save path c w).1 = None ∧ files (Save path c w).2 = <[path := c]> (files w))
  ∨ ((∃ e, (Save path c w).1 = Some e) ∧ files (Save path c w).2 = files w).
Proof.
  unfold Save. destruct (faults w) as [|[e|] rest]; simpl; eauto.
Qed.










(** X9. A request whose method is not [use_context], [add_context] or
    [delete_context] leaves the service and the files as they are, and
    [Save] is not called. *)
Theorem handle_read_only req st :
  Method req ∉ mutating → (serve req st).2 = st.
Proof.
  intros Hm. unfold mutating in Hm.
  rewrite !not_elem_of_cons in Hm. destruct Hm as (H1 & H2 & H3 & _).
  unfold handle. repeat case_decide; done.
Qed.


(** X11. A request answered without an error, on a service whose file
    holds its configuration, leaves a service whose file holds its
    configuration: what the daemon acknowledges is on disk. *)
Theorem handle_ok_is_saved req st d st' :
  serve req st = (inl d, st') → synced st → synced st'.
Proof.
  destruct st as [s w]. unfold synced, handle. cbn [fst snd].
  repeat case_decide.
  - by intros [= _ <-].
  - by intros [= _ <-].
  - unfold useContext. destruct (GetContext _ _); [|done].
    unfold Save. destruct (faults w) as [|[e|] rest]; intros [= _ <-] _;
      cbn [fst snd files cfgPath set_cfg cfg]; apply lookup_insert_eq.
  - unfold addContext. destruct (UnmarshalContext _) as [ctx|]; [|done].
    destruct (Validate ctx); [done|].
    destruct (UpsertContext ctx (cfg s)) as [c1 [e|]]; [done|].
    unfold Save. destruct (faults w) as [|[e|] rest]; intros [= _ <-] _;
      cbn [fst snd files cfgPath set_cfg cfg]; apply lookup_insert_eq.
  - unfold deleteContext.
    destruct (DeleteContext _ (cfg s)) as [c1 [e|]]; [done|].
    unfold Save. destruct (faults w) as [|[e|] rest]; intros [= _ <-] _;
      cbn [fst snd files cfgPath set_cfg cfg]; apply lookup_insert_eq.
  - by intros [= _ <-].
  - done.
Qed.

(** X12. An [add_context] request that is answered without an error has
    stored a context that passed [Validate]: the answer is that context,
    and a lookup of its name in the service's configuration returns it. *)
Theorem addContext_ok_is_stored raw st d st' :
  addContext UnmarshalContext raw st = (inl d, st') →
  ∃ ctx, UnmarshalContext raw = inl ctx ∧ d = DContext ctx ∧
         Validate ctx = None ∧
         GetContext (cfg st'.1) (config.Name ctx) = inl ctx ∧
         cfg st'.1 = (UpsertContext ctx (cfg st.1)).1.
Proof.
  destruct st as [s w]. unfold addContext. cbn [fst snd].
  destruct (UnmarshalContext raw) as [ctx|]; [|done].
  destruct (Validate ctx) eqn:Hv; [done|].
  pose proof (GetContext_UpsertContext ctx (cfg s)) as Hg.
  destruct (UpsertContext ctx (cfg s)) as [c1 [e|]] eqn:Hu; [done|].
  destruct (Save _ _ w) as [[e|] w1]; [done|]. intros [= <- <-].
  exists ctx. split_and!; try done. by rewrite Hu.
Qed.

End service.



(** X9 for an [export] request. *)
Lemma handle_read_only_witness :
  let dev := config.mkContext "dev" "DEFAULT" "t1" "c1" "r1" "" "" in
  let st : daemon.State :=
    (daemon.mkService "/cfg.yml"
       (config.mkConfig (config.mkOptions "" "/d.sock" "") [dev] "dev"),
     config.mkWorld ∅ [] [Some "disk full"]) in
  (daemon.handle daemon.sample_UnmarshalContext
     (ipcmsg.mkRequest "export" "" "env" []) st).2 = st.
Proof.
  intros dev st.
  apply (handle_read_only daemon.sample_UnmarshalContext).
  refine (bool_decide_unpack _ _). vm_compute. exact I.
Defined.


(** X11 for a [delete_context] request on a daemon whose file is in step. *)
Lemma handle_ok_is_saved_witness :
  let dev := config.mkContext "dev" "DEFAULT" "t1" "c1" "r1" "" "" in
  let c := config.mkConfig (config.mkOptions "" "/d.sock" "") [dev] "dev" in
  let st : daemon.State :=
    (daemon.mkService "/cfg.yml" c, config.mkWorld {["/cfg.yml" := c]} [] []) in
  daemon.synced (daemon.handle daemon.sample_UnmarshalContext
            (ipcmsg.mkRequest "delete_context" "dev" "" []) st).2.
Proof.
  intros dev c st.
  eapply (handle_ok_is_saved daemon.sample_UnmarshalContext
            (ipcmsg.mkRequest "delete_context" "dev" "" []) st).
  - reflexivity.
  - reflexivity.
Defined.

(** X12 with a decoder that reads every payload as the context ["prod"]. *)
Lemma addContext_ok_is_stored_witness :
  let dev := config.mkContext "dev" "DEFAULT" "t1" "c1" "r1" "" "" in
  let prod := config.mkContext "prod" "PROD" "t2" "c2" "r2" "" "" in
  let st : daemon.State :=
    (daemon.mkService "/cfg.yml"
       (config.mkConfig (config.mkOptions "" "/d.sock" "") [dev] "dev"),
     config.mkWorld ∅ [] []) in
  let r := daemon.addContext (λ _, inl prod) [] st in
  ∃ ctx, r.1 = inl (ipcmsg.DContext ctx) ∧ config.Validate ctx = None ∧
         config.GetContext (daemon.cfg r.2.1) (config.Name ctx) = inl ctx.
Proof.
  intros dev prod st r.
  destruct (addContext_ok_is_stored (λ _, inl prod) [] st
              (ipcmsg.DContext prod) r.2 eq_refl)
    as (ctx & Hu & Hd & Hv & Hg & _).
  exists ctx. split_and!; [|exact Hv|exact Hg].
  injection Hd as <-. reflexivity.
Defined.

(** ** The connection loop: unfinished lines and pipelined requests *)
Section pipelining.
Import ipcmsg ipc.
Context {St : Type}.
Variable Unmarshal : list Byte.byte → option Request.
Variable handler : HandlerFunc St.
Implicit Types (cur l stream rest partial : list Byte.byte) (s : St).

Local Abbreviation conn_from := (handleConn_from Unmarshal handler).
Local Abbreviation conn := (handleConn Unmarshal handler).

Lemma handleConn_from_partial cur stream partial s :
  newline ∉ partial →
  conn_from cur (stream ++ partial) s = conn_from cur stream s.
Proof.
  intros Hp. revert cur s. induction stream as [|b stream IH]; intros cur s.
  - rewrite app_nil_l. change (conn_from cur [] s) with (@nil Response, s).
    clear -Hp. revert cur.
    induction partial as [|b partial IH]; intros cur; [done|].
    apply not_elem_of_cons in Hp as [Hb Hp]. rewrite handleConn_from_cons.
    rewrite decide_False by done. by apply IH.
  - rewrite <- app_comm_cons, !handleConn_from_cons.
    destruct (decide (b = newline)); [|apply IH].
    destruct (serve_line Unmarshal handler (cur ++ [b]) s) as [resp s1].
    by rewrite IH.
Qed.

Lemma handleConn_from_split cur stream rest s :
  conn_from cur (stream ++ newline :: rest) s =
    let r := conn_from cur (stream ++ [newline]) s in
    (r.1 ++ (conn_from [] rest r.2).1, (conn_from [] rest r.2).2).
Proof.
  revert cur s. induction stream as [|b stream IH]; intros cur s.
  - rewrite !app_nil_l, !handleConn_from_cons. rewrite !decide_True by done.
    destruct (serve_line Unmarshal handler (cur ++ [newline]) s) as [resp s1].
    cbn. by destruct (conn_from [] rest s1).
  - rewrite <- !app_comm_cons, !handleConn_from_cons.
    destruct (decide (b = newline)); [|apply IH].
    destruct (serve_line Unmarshal handler (cur ++ [b]) s) as [resp s1].
    rewrite IH. cbn zeta.
    destruct (conn_from [] (stream ++ [newline]) s1) as [r1 s2]. cbn [fst snd].
    by destruct (conn_from [] rest s2).
Qed.

(** X13. Bytes that follow the last newline of a stream are never
    answered and never reach the handler: the stream with an unfinished last
    line is served as the stream without it. *)
Theorem handleConn_drops_unfinished_line stream partial s :
  newline ∉ partial →
  conn (stream ++ partial) s = conn stream s.
Proof. apply handleConn_from_partial. Qed.

(** X14. Requests sent ahead of their answers are served as if they came
    one connection after the other: a stream cut after any newline is
    answered by the answers to the first part followed by the answers to the
    rest, the rest being served from the handler state the first part left. *)
Theorem handleConn_pipelined stream rest s :
  let first := conn (stream ++ [newline]) s in
  conn (stream ++ newline :: rest) s =
    (first.1 ++ (conn rest first.2).1, (conn rest first.2).2).
Proof. apply handleConn_from_split. Qed.

End pipelining.

(** X13 on the daemon: a [list] request followed by an unfinished line. *)
Lemma handleConn_drops_unfinished_line_witness :
  let dev := config.mkContext "dev" "DEFAULT" "t1" "c1" "r1" "" "" in
  let st : daemon.State :=
    (daemon.mkService "/cfg.yml"
       (config.mkConfig (config.mkOptions "" "/d.sock" "") [dev] "dev"),
     config.mkWorld ∅ [] []) in
  let h := daemon.handle daemon.sample_UnmarshalContext in
  let good := ipc.framed (list_byte_of_string ipc.list_request_text) in
  ipc.handleConn ipc.sample_Unmarshal h
    (good ++ list_byte_of_string ipc.export_request_text) st
  = ipc.handleConn ipc.sample_Unmarshal h good st.
Proof.
  intros dev st h good.
  apply (handleConn_drops_unfinished_line ipc.sample_Unmarshal h).
  refine (bool_decide_unpack _ _). vm_compute. exact I.
Defined.

(** ** The commands [set] and [export], the name cache and the prompts *)
Section commands.
Import config cmd.
Implicit Types (c cfg : Config) (ctx old : config.Context) (w : World).
Implicit Types (f : setFlags) (name n path : string).

Lemma Name_set_fields f ctx : config.Name (set_fields f ctx) = config.Name ctx.
Proof. unfold set_fields. by repeat case_decide. Qed.

Lemma Validate_set_fields f ctx :
  Validate ctx = None → Validate (set_fields f ctx) = None.
Proof.
  unfold Validate. repeat (case_decide; [done|]). intros _.
  assert (config.Profile (set_fields f ctx) ≠ "" ∧
          config.TenancyOCID (set_fields f ctx) ≠ "" ∧
          config.CompartmentOCID (set_fields f ctx) ≠ "") as (Hp & Ht & Hc).
  { unfold set_fields. repeat case_decide; simpl; done. }
  rewrite Name_set_fields. by rewrite !decide_False by done.
Qed.

Lemma GetContext_inl_Name c n ctx :
  GetContext c n = inl ctx → config.Name ctx = n ∧ n ∈ names c.
Proof.
  unfold GetContext.
  destruct (find_by_name n (Contexts c)) as [[i y]|] eqn:Hf; [|done].
  intros [= <-]. apply find_by_name_Some in Hf as (Hi & Hy & _).
  split; [done|]. unfold names. apply list_elem_of_fmap. exists y.
  split; [done|]. apply list_elem_of_lookup. eauto.
Qed.

Lemma set_fields_spec f ctx :
  set_fields f ctx =
    mkContext (config.Name ctx)
      (if decide (flag_profile f ≠ "") then flag_profile f else config.Profile ctx)
      (if decide (flag_tenancy f ≠ "") then flag_tenancy f else config.TenancyOCID ctx)
      (if decide (flag_compartment f ≠ "") then flag_compartment f
       else config.CompartmentOCID ctx)
      (if decide (flag_region f ≠ "") then flag_region f else config.Region ctx)
      (if decide (flag_user f ≠ "") then flag_user f else config.User ctx)
      (if decide (flag_notes f ≠ "") then flag_notes f else config.Notes ctx).
Proof. unfold set_fields. destruct ctx. by repeat case_decide. Qed.

Lemma UpsertContext_present ctx c :
  config.Name ctx ∈ names c →
  names (UpsertContext ctx c).1 = names c ∧
  CurrentContext (UpsertContext ctx c).1 = CurrentContext c.
Proof.
  intros Hin.
  destruct (find_by_name (config.Name ctx) (Contexts c)) as [[i y]|] eqn:Hf.
  - split; [by eapply UpsertContext_names_present|].
    unfold UpsertContext. by rewrite Hf.
  - by apply find_by_name_None in Hf.
Qed.

(** X15. A [set] that succeeds has written a store with the same context
    names in the same order and the same [currentContext]; the context of
    the given name has the given non-empty flags as its fields and is
    otherwise as before, every other name is looked up as before; and a
    context that passed [Validate] still passes it: no flag can empty a
    field. *)
Theorem set_keeps_store_shape name f path cfg w out w' :
  newSetCmd_RunE name f (inl (path, cfg)) w = (out, None, w') →
  ∃ old cfg',
    GetContext cfg name = inl old ∧
    files w' !! path = Some cfg' ∧
    names cfg' = names cfg ∧
    CurrentContext cfg' = CurrentContext cfg ∧
    GetContext cfg' name = inl (set_fields f old) ∧
    (∀ n, n ≠ name → GetContext cfg' n = GetContext cfg n) ∧
    set_fields f old =
      mkContext name
        (if decide (flag_profile f ≠ "") then flag_profile f else config.Profile old)
        (if decide (flag_tenancy f ≠ "") then flag_tenancy f else config.TenancyOCID old)
        (if decide (flag_compartment f ≠ "") then flag_compartment f
         else config.CompartmentOCID old)
        (if decide (flag_region f ≠ "") then flag_region f else config.Region old)
        (if decide (flag_user f ≠ "") then flag_user f else config.User old)
        (if decide (flag_notes f ≠ "") then flag_notes f else config.Notes old) ∧
    (Validate old = None → Validate (set_fields f old) = None).
Proof.
  unfold newSetCmd_RunE.
  destruct (GetContext cfg name) as [old|e] eqn:Hg; [|done].
  destruct (GetContext_inl_Name _ _ _ Hg) as [Hn Hin].
  pose proof (GetContext_after_UpsertContext (set_fields f old) cfg) as Hlook.
  destruct (UpsertContext_present (set_fields f old) cfg) as [Hnames Hcur].
  { by rewrite Name_set_fields, Hn. }
  destruct (UpsertContext (set_fields f old) cfg) as [cfg1 [e|]]; [done|].
  cbn [fst] in *.
  unfold Save. destruct (faults w) as [|[e|] rest]; intros [= <- <-];
    exists old, cfg1; cbn [files];
    (split_and!;
     [done|apply lookup_insert_eq|done|done|
      by rewrite Hlook, Name_set_fields, Hn, decide_True|
      intros n Hne; by rewrite Hlook, Name_set_fields, Hn, decide_False|
      rewrite <- Hn; apply set_fields_spec|
      apply Validate_set_fields]).
Qed.

(** X16. For every format but the empty one the [export] command gives
    what the daemon's [export] method answers on the same configuration:
    the same error, the daemon's [env] lines each behind [export ] and
    joined by newlines, or the same context handed to the JSON encoder. On
    the empty format the two part: the command exports as for [env], the
    daemon as for [json]. *)
Theorem export_command_matches_daemon format s encode_err :
  (format ≠ "" →
   export_as_command (daemon.export format s) encode_err
     = Some (newExportCmd_RunE format (inl (daemon.cfg s)) encode_err)) ∧
  newExportCmd_RunE "" (inl (daemon.cfg s)) encode_err
    = newExportCmd_RunE "env" (inl (daemon.cfg s)) encode_err ∧
  daemon.export "" s = daemon.export "json" s.
Proof.
  split_and!.
  - intros Hf. unfold daemon.export, daemon.getCurrent, newExportCmd_RunE.
    destruct (decide (CurrentContext (daemon.cfg s) = "")); [done|].
    destruct (GetContext _ _) as [ctx|e]; [|done].
    destruct (decide (format = "env")) as [->|Henv].
    + rewrite (decide_True (P := "env" = "env" ∨ "env" = "")) by (by left).
      cbn [export_as_command].
      destruct (decide (config.Region ctx ≠ "")); by rewrite lookup_singleton_eq.
    + rewrite (decide_False (P := format = "env" ∨ format = "")) by tauto.
      destruct (decide (format = "json")) as [->|Hj].
      * rewrite (decide_True (P := "json" = "json" ∨ "json" = "")) by (by left).
        done.
      * rewrite (decide_False (P := format = "json" ∨ format = "")) by tauto.
        done.
  - unfold newExportCmd_RunE.
    destruct (decide (CurrentContext (daemon.cfg s) = "")); [done|].
    destruct (GetContext _ _) as [ctx|e]; [|done].
    rewrite (decide_True (P := "" = "env" ∨ "" = "")) by (by right).
    by rewrite (decide_True (P := "env" = "env" ∨ "env" = "")) by (by left).
  - unfold daemon.export. destruct (daemon.getCurrent s); [|done].
    rewrite !decide_False by done.
    rewrite (decide_True (P := "" = "json" ∨ "" = "")) by (by right).
    by rewrite (decide_True (P := "json" = "json" ∨ "json" = "")) by (by left).
Qed.

(** X17. Recording a tenancy name keeps the cache free of empty ids and
    empty names (an empty id or name is not recorded); a lookup after it
    gives the recorded name for the recorded id and the cached name for
    every other id; and in such a cache a lookup gives the empty string
    exactly for the ids that are not cached. *)
Theorem recordTenancyName_lookup ocid name (tenancyNames : gmap string string) :
  cache_ok tenancyNames →
  cache_ok (recordTenancyName ocid name tenancyNames) ∧
  (∀ k, lookupTenancyName (recordTenancyName ocid name tenancyNames) k =
        if decide (k = ocid ∧ ocid ≠ "" ∧ name ≠ "") then name
        else lookupTenancyName tenancyNames k) ∧
  (∀ k, lookupTenancyName tenancyNames k = "" ↔ tenancyNames !! k = None).
Proof.
  intros Hok. unfold recordTenancyName, lookupTenancyName, at_key. split_and!.
  - destruct (decide (ocid = "" ∨ name = "")) as [|Hne]; [done|].
    intros k v. destruct (decide (k = ocid)) as [->|Hk].
    + rewrite lookup_insert_eq. intros [= <-]. tauto.
    + rewrite lookup_insert_ne by done. apply Hok.
  - intros k. destruct (decide (ocid = "" ∨ name = "")) as [He|Hne].
    + rewrite decide_False; [done|]. intros (_ & ? & ?). tauto.
    + destruct (decide (k = ocid)) as [->|Hk].
      * rewrite lookup_insert_eq, decide_True; [done|].
        split_and!; [done|intros ->; tauto|intros ->; tauto].
      * rewrite lookup_insert_ne by done. rewrite decide_False; [done|].
        intros (? & _). done.
  - intros k. destruct (tenancyNames !! k) as [v|] eqn:Hk; simpl; [|done].
    split; [|done]. intros ->. by destruct (Hok _ _ Hk).
Qed.

(** X18. A choice that [readChoice] accepts is the index of one of the
    [n] rows offered, and one that [readChoiceZero] accepts is such an
    index or -1, which it gives exactly for the choice 0: the rows are
    never indexed out of range. *)
Theorem readChoice_in_range {A} (rows : list A) read idx :
  (readChoice read (Z.of_nat (length rows)) = inl idx →
     (0 ≤ idx)%Z ∧ is_Some (rows !! Z.to_nat idx) ∧ read = inl (idx + 1)%Z) ∧
  (readChoiceZero read (Z.of_nat (length rows)) = inl idx →
     (idx = (-1)%Z ∧ read = inl 0%Z) ∨
     ((0 ≤ idx)%Z ∧ is_Some (rows !! Z.to_nat idx) ∧ read = inl (idx + 1)%Z)).
Proof.
  unfold readChoice, readChoiceZero. destruct read as [choice|e]; [|done].
  split.
  - case_decide; [done|]. intros [= <-]. split_and!; [lia| |f_equal; lia].
    apply lookup_lt_is_Some. lia.
  - case_decide; [intros [= <-]; left; by subst|].
    case_decide; [done|]. intros [= <-]. right.
    split_and!; [lia| |f_equal; lia]. apply lookup_lt_is_Some. lia.
Qed.

End commands.

(** X15 for [set dev --region eu-frankfurt-1] on a store with one context. *)
Lemma set_keeps_store_shape_witness :
  let dev := config.mkContext "dev" "DEFAULT" "t1" "c1" "r1" "" "" in
  let cfg := config.mkConfig (config.mkOptions "" "" "") [dev] "dev" in
  let f := cmd.mkSetFlags "eu-frankfurt-1" "" "" "" "" "" in
  let r := cmd.newSetCmd_RunE "dev" f (inl ("/cfg.yml", cfg))
             (config.mkWorld ∅ [] []) in
  ∃ cfg', config.files r.2 !! "/cfg.yml" = Some cfg' ∧
          config.names cfg' = ["dev"] ∧
          config.GetContext cfg' "dev"
            = inl (config.mkContext "dev" "DEFAULT" "t1" "c1" "eu-frankfurt-1" "" "").
Proof.
  intros dev cfg f r.
  destruct (set_keeps_store_shape "dev" f "/cfg.yml" cfg (config.mkWorld ∅ [] [])
              r.1.1 r.2 eq_refl)
    as (old & cfg' & Hold & Hfile & Hnames & _ & Hget & _ & Hspec & _).
  injection Hold as <-.
  exists cfg'. split_and!; [exact Hfile|exact Hnames|].
  rewrite Hget. reflexivity.
Defined.

(** X16 for the format [env] on a daemon whose current context is ["dev"]. *)
Lemma export_command_matches_daemon_witness :
  let dev := config.mkContext "dev" "DEFAULT" "t1" "c1" "" "" "" in
  let s := daemon.mkService "/cfg.yml"
             (config.mkConfig (config.mkOptions "" "" "") [dev] "dev") in
  cmd.export_as_command (daemon.export "env" s) None
    = Some (cmd.newExportCmd_RunE "env" (inl (daemon.cfg s)) None).
Proof.
  intros dev s.
  destruct (export_command_matches_daemon "env" s None) as [H _].
  apply H. discriminate.
Defined.

(** X17 on the empty cache. *)
Lemma recordTenancyName_lookup_witness :
  cmd.lookupTenancyName (cmd.recordTenancyName "ocid1.tenancy.oc1..t" "Acme" ∅)
    "ocid1.tenancy.oc1..t" = "Acme" ∧
  cmd.lookupTenancyName (cmd.recordTenancyName "ocid1.tenancy.oc1..t" "" ∅)
    "ocid1.tenancy.oc1..t" = "".
Proof.
  assert (cmd.cache_ok ∅) as Hok.
  { intros k v Hk. by rewrite lookup_empty in Hk. }
  split.
  - destruct (recordTenancyName_lookup "ocid1.tenancy.oc1..t" "Acme" ∅ Hok)
      as (_ & H & _).
    rewrite H. reflexivity.
  - destruct (recordTenancyName_lookup "ocid1.tenancy.oc1..t" "" ∅ Hok)
      as (_ & H & _).
    rewrite H. reflexivity.
Defined.

(** X18 for three rows and the choices 3 and 0. *)
Lemma readChoice_in_range_witness :
  is_Some (["a"; "b"; "c"] !! Z.to_nat 2) ∧
  cmd.readChoiceZero (inl 0%Z) 3 = inl (-1)%Z.
Proof.
  split.
  - destruct (readChoice_in_range ["a"; "b"; "c"] (inl 3%Z) 2%Z) as [H _].
    destruct (H eq_refl) as (_ & Hrow & _). exact Hrow.
  - reflexivity.
Defined.

(** ** The profile parser *)
Section parser.
Import gostrings ocicfg.
Implicit Types (p q : Profile) (profiles acc m : gmap string Profile).
Implicit Types (entries : list (string * Profile)) (name k : string).
Implicit Types (l r : list ascii) (s text : string).

(** *** The validation loop *)

Lemma with_user_id p : User p ≠ "" → with_user p = p.
Proof. intros H. unfold with_user. rewrite decide_False by done. by destruct p. Qed.

Lemma validate_ranged_inl entries acc :
  NoDup entries.*1 →
  (∀ name p, (name, p) ∈ entries → acc !! name = Some p) →
  Forall (λ e, complete e.2) entries →
  validate_ranged entries acc
    = inl ((with_user <$> (list_to_map entries : gmap string Profile)) ∪ acc).
Proof.
  revert acc. induction entries as [|[name p] entries IH]; intros acc Hnd Hacc Hall.
  - simpl. by rewrite fmap_empty, (left_id_L ∅ (∪)).
  - rewrite fmap_cons in Hnd. apply NoDup_cons in Hnd as [Hname Hnd].
    apply Forall_cons in Hall as [[Ht Hr] Hall]. simpl in Ht, Hr.
    cbn [validate_ranged]. rewrite !decide_False by done.
    assert ((if decide (User p = "")
             then <[name := mkProfile (Tenancy p) (Tenancy p) (Region p)]> acc
             else acc) = <[name := with_user p]> acc) as ->.
    { unfold with_user. destruct (decide (User p = "")); [done|].
      symmetry. apply insert_id. rewrite (Hacc name p) by apply list_elem_of_here.
      by destruct p. }
    rewrite IH; [|done| |done].
    + f_equal. cbn [list_to_map foldr fst snd]. rewrite fmap_insert.
      apply map_eq. intros k. rewrite !lookup_union.
      destruct (decide (k = name)) as [->|Hk].
      * rewrite !lookup_insert_eq.
        rewrite lookup_fmap.
        rewrite (not_elem_of_list_to_map_1 _ name) by done. simpl.
        by destruct (acc !! name).
      * by rewrite !lookup_insert_ne by done.
    + intros n q Hin. rewrite lookup_insert_ne; [apply Hacc; by right|].
      intros <-. apply Hname. apply list_elem_of_fmap. by exists (name, q).
Qed.

Lemma validate_ranged_inr entries acc e :
  validate_ranged entries acc = inr e →
  ∃ name p, (name, p) ∈ entries ∧
    ((Tenancy p = "" ∧ e = missing name "tenancy") ∨
     (Tenancy p ≠ "" ∧ Region p = "" ∧ e = missing name "region")).
Proof.
  revert acc. induction entries as [|[name p] entries IH]; intros acc; [done|].
  cbn [validate_ranged].
  destruct (decide (Tenancy p = "")) as [Ht|Ht].
  { intros [= <-]. exists name, p. split; [apply list_elem_of_here|by left]. }
  destruct (decide (Region p = "")) as [Hr|Hr].
  { intros [= <-]. exists name, p. split; [apply list_elem_of_here|by right]. }
  intros H. destruct (IH _ H) as (n & q & Hin & Hq).
  exists n, q. split; [by right|done].
Qed.

Lemma validate_ranged_complete entries acc m :
  validate_ranged entries acc = inl m → Forall (λ e, complete e.2) entries.
Proof.
  revert acc. induction entries as [|[name p] entries IH]; intros acc; [done|].
  cbn [validate_ranged].
  destruct (decide (Tenancy p = "")); [done|].
  destruct (decide (Region p = "")); [done|].
  intros H. apply Forall_cons. split; [done|]. by eapply IH.
Qed.

(** X19. The validation of the parsed profiles does not depend on the
    order in which the map is ranged over, except for which incomplete
    profile an error names: it succeeds exactly when every profile has a
    tenancy and a region, and then returns every profile with a missing
    user replaced by the tenancy; an error names a profile that lacks the
    tenancy, or has one and lacks the region. *)
Theorem validate_ranged_any_order profiles entries :
  entries ≡ₚ map_to_list profiles →
  (∀ m, validate_ranged entries profiles = inl m ↔
        map_Forall (λ _ p, complete p) profiles ∧ m = with_user <$> profiles) ∧
  (∀ e, validate_ranged entries profiles = inr e →
        ∃ name p, profiles !! name = Some p ∧
          ((Tenancy p = "" ∧ e = missing name "tenancy") ∨
           (Tenancy p ≠ "" ∧ Region p = "" ∧ e = missing name "region"))).
Proof.
  intros Hperm.
  assert (NoDup entries.*1) as Hnd.
  { rewrite Hperm. apply NoDup_fst_map_to_list. }
  assert (∀ name p, (name, p) ∈ entries ↔ profiles !! name = Some p) as Hin.
  { intros name p. rewrite Hperm. apply elem_of_map_to_list. }
  assert ((list_to_map entries : gmap string Profile) = profiles) as Hmap.
  { rewrite <- (list_to_map_to_list profiles). by apply list_to_map_proper. }
  assert (Forall (λ e, complete e.2) entries ↔
          map_Forall (λ _ p, complete p) profiles) as Hall.
  { rewrite Forall_forall. split.
    - intros H name p Hp. apply (H (name, p)). by apply Hin.
    - intros H [name p] Hp. apply (H name p). by apply Hin. }
  split.
  - intros m. split.
    + intros Hv. pose proof (validate_ranged_complete _ _ _ Hv) as Hc.
      split; [by apply Hall|].
      rewrite validate_ranged_inl in Hv; [|done|intros ??; apply Hin|done].
      injection Hv as <-. rewrite Hmap. apply map_eq. intros k.
      rewrite lookup_union, lookup_fmap. by destruct (profiles !! k).
    + intros [Hc ->].
      rewrite validate_ranged_inl; [|done|intros ??; apply Hin|by apply Hall].
      f_equal. rewrite Hmap. apply map_eq. intros k.
      rewrite lookup_union, lookup_fmap. by destruct (profiles !! k).
  - intros e He. destruct (validate_ranged_inr _ _ _ He) as (name & p & Hp & H).
    exists name, p. split; [by apply Hin|done].
Qed.

(** *** The scanning loop *)

Lemma scan_line_unnamed st text :
  unnamed_is_zero st.1 → unnamed_is_zero (scan_line st text).1.
Proof.
  destruct st as [profiles current]. unfold scan_line. cbn [fst].
  intros Hz. repeat case_match; try done; cbn [fst].
  - intros p. destruct (decide (TrimSpace (inner (TrimSpace text)) = "")) as [->|Hne].
    + rewrite lookup_insert_eq. congruence.
    + rewrite lookup_insert_ne by done. apply Hz.
  - intros p. rewrite lookup_insert_ne by done. apply Hz.
Qed.

Lemma scan_unnamed texts : unnamed_is_zero (scan texts).1.
Proof.
  unfold scan.
  assert (unnamed_is_zero ((∅ : gmap string Profile), "").1) as H0.
  { intros p. cbn [fst]. by rewrite lookup_empty. }
  revert H0. generalize ((∅ : gmap string Profile), "").
  induction texts as [|text texts IH]; intros st Hst; [done|].
  simpl. apply IH. by apply scan_line_unnamed.
Qed.

(** X20. Every profile that [LoadProfiles] returns has a name, a tenancy,
    a region and a user that are not empty; a file with a section of the
    empty name is rejected. *)
Theorem LoadProfiles_complete file m :
  LoadProfiles file = inl m →
  ∀ name p, m !! name = Some p →
    name ≠ "" ∧ User p ≠ "" ∧ Tenancy p ≠ "" ∧ Region p ≠ "".
Proof.
  unfold LoadProfiles. destruct file as [[texts [e|]]|e]; try done.
  intros Hv name p Hp.
  destruct (validate_ranged_any_order (scan texts).1 (map_to_list (scan texts).1))
    as [Hok _]; [done|].
  apply Hok in Hv as [Hc ->].
  rewrite lookup_fmap in Hp.
  destruct ((scan texts).1 !! name) as [q|] eqn:Hq; [|done].
  injection Hp as <-. destruct (Hc name q Hq) as [Ht Hr].
  split_and!; try done.
  - intros ->. apply scan_unnamed in Hq. by subst q.
  - unfold with_user. simpl. by destruct (decide (User q = "")).
Qed.

(** X21. A blank line, a comment line, and a line that is neither a
    section header nor holds a [=] can stand anywhere in the file: the
    profiles loaded, or the error, are those of the file without it. *)
Theorem LoadProfiles_passes_over text (before rest : list string) scan_err :
  passed_over text →
  LoadProfiles (inl (before ++ text :: rest, scan_err))
    = LoadProfiles (inl (before ++ rest, scan_err)).
Proof.
  intros Hp.
  assert (∀ st, scan_line st text = st) as Hst.
  { intros [profiles current]. unfold scan_line.
    destruct Hp as [->|[->|[->|[-> Hc]]]]; repeat case_match; try done.
    all: unfold SplitN_2 in *; rewrite Hc in *; done. }
  unfold LoadProfiles, scan. rewrite !foldl_app. simpl. by rewrite Hst.
Qed.

End parser.

(** ** The profile parser on well-formed sections *)
Section sections.
Import gostrings ocicfg.
Implicit Types (p q : Profile) (profiles acc m : gmap string Profile).
Implicit Types (name k n v : string) (l r : list ascii) (a b c : ascii).

Lemma str_bytes s : str (bytes s) = s.
Proof. apply string_of_list_ascii_of_string. Qed.

Lemma bytes_str l : bytes (str l) = l.
Proof. apply list_ascii_of_string_of_list_ascii. Qed.

Lemma bytes_app s1 s2 : bytes (s1 +:+ s2) = bytes s1 ++ bytes s2.
Proof.
  unfold bytes. induction s1 as [|a s1 IH]; [done|].
  cbn. by rewrite <- IH.
Qed.

Lemma drop_while_space_0 (w : list ascii → nat) rounds l :
  w l = 0 → drop_while_space w rounds l = l.
Proof. intros H. destruct rounds; simpl; [done|]. by rewrite H. Qed.

Lemma drop_while_space_length (w : list ascii → nat) rounds l :
  length (drop_while_space w rounds l) ≤ length l.
Proof.
  revert l. induction rounds as [|rounds IH]; intros l; simpl; [done|].
  destruct (w l) as [|n]; [done|].
  etrans; [apply IH|]. rewrite length_drop. lia.
Qed.

Lemma drop_while_space_fixed (w : list ascii → nat) l :
  w [] = 0 →
  length (drop_while_space w (length l) l) = length l → w l = 0.
Proof.
  intros H0. destruct l as [|a l]; [done|].
  simpl. destruct (w (a :: l)) as [|n] eqn:Hw; [done|].
  intros H. pose proof (drop_while_space_length w (length l) (drop n l)) as Hl.
  rewrite H in Hl. rewrite length_drop in Hl. simpl in Hl. lia.
Qed.

Lemma trim_leading_length l : length (trim_leading l) ≤ length l.
Proof. apply drop_while_space_length. Qed.

Lemma trim_trailing_length l : length (trim_trailing l) ≤ length l.
Proof.
  unfold trim_trailing. rewrite length_reverse.
  etrans; [apply drop_while_space_length|]. by rewrite length_reverse.
Qed.

Lemma trim_leading_id l : leading_space l = 0 → trim_leading l = l.
Proof. apply drop_while_space_0. Qed.

Lemma trim_trailing_id l : trailing_space (reverse l) = 0 → trim_trailing l = l.
Proof.
  intros H. unfold trim_trailing. rewrite drop_while_space_0 by done.
  apply reverse_involutive.
Qed.

(** A string that [TrimSpace] leaves as it is starts and ends with no
    white-space rune, and conversely. *)
Lemma TrimSpace_fixed s :
  TrimSpace s = s ↔
  leading_space (bytes s) = 0 ∧ trailing_space (reverse (bytes s)) = 0.
Proof.
  unfold TrimSpace. split.
  - intros H. apply (f_equal bytes) in H. rewrite bytes_str in H.
    pose proof (trim_trailing_length (trim_leading (bytes s))) as H1.
    pose proof (trim_leading_length (bytes s)) as H2.
    rewrite H in H1.
    assert (leading_space (bytes s) = 0) as Hl.
    { apply drop_while_space_fixed; [done|]. unfold trim_leading in *. lia. }
    split; [done|].
    rewrite (trim_leading_id _ Hl) in H.
    apply drop_while_space_fixed; [done|].
    apply (f_equal length) in H. unfold trim_trailing in H.
    by rewrite !length_reverse in *.
  - intros [H1 H2]. rewrite trim_leading_id, trim_trailing_id by done.
    apply str_bytes.
Qed.

Lemma leading_space_printable a l : printable a → leading_space (a :: l) = 0.
Proof.
  intros [H1 H2]. unfold leading_space. rewrite H1.
  destruct l as [|b l]; [done|].
  assert (is_space2 a b = false) as ->.
  { apply bool_decide_eq_false. intros [? _]. lia. }
  destruct l as [|c l]; [done|].
  assert (is_space3 a b c = false) as ->; [|done].
  apply bool_decide_eq_false. intros [[? _]|[[? _]|[[? _]|[? _]]]]; lia.
Qed.

Lemma not_space2_printable b c : printable b → is_space2 b c = false.
Proof. intros [_ H]. apply bool_decide_eq_false. intros [? _]. lia. Qed.

Lemma not_space3_printable a b c : printable a → is_space3 a b c = false.
Proof.
  intros [_ H]. apply bool_decide_eq_false.
  intros [[? _]|[[? _]|[[? _]|[? _]]]]; lia.
Qed.

Lemma not_space2_last b c : printable c → is_space2 b c = false.
Proof.
  intros [_ H]. apply bool_decide_eq_false. intros [_ [?|?]]; lia.
Qed.

Lemma not_space3_last a b c : printable c → is_space3 a b c = false.
Proof.
  intros [_ H]. apply bool_decide_eq_false.
  intros [(_ & _ & ?)|[(_ & _ & [[? ?]|[?|[?|?]]])|[(_ & _ & ?)|(_ & _ & ?)]]]; lia.
Qed.

Lemma trailing_space_printable c r : printable c → trailing_space (c :: r) = 0.
Proof.
  intros Hc. unfold trailing_space. destruct Hc as [H1 H2]. rewrite H1.
  destruct r as [|b r]; [done|].
  rewrite not_space2_last by done.
  destruct r as [|a r]; [done|].
  by rewrite not_space3_last.
Qed.

(** The last rune of a string is decoded from its own bytes when what
    stands before them is printable. *)
Lemma trailing_space_app r pre :
  r ≠ [] → Forall printable pre →
  trailing_space (r ++ pre) = trailing_space r.
Proof.
  intros Hr Hpre. destruct r as [|c r]; [done|]. simpl.
  destruct (is_space1 c); [done|].
  destruct r as [|b r]; simpl.
  - destruct pre as [|b pre]; [done|].
    apply Forall_cons in Hpre as [Hb Hpre].
    rewrite not_space2_printable by done.
    destruct pre as [|a pre]; [done|].
    apply Forall_cons in Hpre as [Ha _].
    by rewrite not_space3_printable.
  - destruct (is_space2 b c); [done|].
    destruct r as [|a r]; simpl; [|done].
    destruct pre as [|a pre]; [done|].
    apply Forall_cons in Hpre as [Ha _].
    by rewrite not_space3_printable.
Qed.

(** A string behind a printable, non-empty text. *)
Lemma TrimSpace_behind pre v :
  pre ≠ "" → Forall printable (bytes pre) → TrimSpace v = v →
  TrimSpace (pre +:+ v) = pre +:+ v.
Proof.
  intros Hne Hpre Hv. apply TrimSpace_fixed in Hv as [_ Hv].
  apply TrimSpace_fixed. rewrite bytes_app. split.
  - destruct pre as [|a pre]; [done|]. cbn.
    apply leading_space_printable. by apply Forall_cons in Hpre as [? _].
  - rewrite reverse_app.
    destruct (reverse (bytes v)) as [|c r] eqn:Hr.
    + rewrite app_nil_l.
      destruct (reverse (bytes pre)) as [|c r] eqn:Hp.
      * apply (f_equal reverse) in Hp. rewrite reverse_involutive in Hp.
        destruct pre; done.
      * apply trailing_space_printable.
        assert (c ∈ bytes pre) as Hin.
        { apply elem_of_reverse. rewrite Hp. apply list_elem_of_here. }
        by eapply Forall_forall in Hpre.
    + rewrite trailing_space_app; [done|done|].
      by apply Forall_reverse.
Qed.

Lemma HasPrefix_byte a s c :
  HasPrefix (String a s) (String c "") = bool_decide (c = a).
Proof.
  unfold HasPrefix. apply bool_decide_ext. cbn. split.
  - intros [k Hk]. by injection Hk.
  - intros ->. by exists (list_ascii_of_string s).
Qed.

Lemma printable_literal (pre : string) :
  forallb (λ a, negb (is_space1 a) && bool_decide (code a < 128)%N) (bytes pre) = true →
  Forall printable (bytes pre).
Proof.
  rewrite forallb_forall, Forall_forall. intros H a Ha.
  specialize (H a). rewrite <- list_elem_of_In in H. specialize (H Ha).
  apply andb_true_iff in H as [H1 H2]. split.
  - by apply negb_true_iff.
  - by apply bool_decide_eq_true in H2.
Qed.

(** The scanning loop on a section header. *)
Lemma scan_line_header profiles current n :
  TrimSpace n = n →
  scan_line (profiles, current) ("[" +:+ n +:+ "]")
    = (match profiles !! n with
       | Some _ => profiles
       | None => <[n := zero]> profiles
       end, n).
Proof.
  intros Hn. unfold scan_line.
  assert (TrimSpace ("[" +:+ n +:+ "]") = "[" +:+ n +:+ "]") as ->.
  { apply TrimSpace_fixed. split.
    - cbn. by apply leading_space_printable.
    - rewrite !bytes_app, !reverse_app. cbn.
      by apply trailing_space_printable. }
  rewrite decide_False by done.
  change ("[" +:+ n +:+ "]") with (String "[" (n +:+ "]")) at 1 2 3.
  rewrite !HasPrefix_byte.
  rewrite (bool_decide_eq_false_2 ("#"%char = "["%char)) by done.
  rewrite (bool_decide_eq_false_2 (";"%char = "["%char)) by done.
  rewrite (bool_decide_eq_true_2 ("["%char = "["%char)) by done.
  assert (HasSuffix ("[" +:+ n +:+ "]") "]" = true) as ->.
  { apply bool_decide_eq_true. rewrite !bytes_app. cbn.
    exists ("["%char :: bytes n). by rewrite app_comm_cons. }
  assert (inner ("[" +:+ n +:+ "]") = n) as ->.
  { unfold inner. rewrite !bytes_app. cbn.
    rewrite length_app, drop_0. cbn.
    replace (length (bytes n) + 1 - 1) with (length (bytes n)) by lia.
    rewrite take_app_length. apply str_bytes. }
  cbn [andb]. by rewrite Hn.
Qed.

(** The scanning loop on a line [key=value] inside a section. *)
Lemma scan_line_key profiles current key v :
  key ∈ ["user"; "tenancy"; "region"] → current ≠ "" → TrimSpace v = v →
  scan_line (profiles, current) (key +:+ "=" +:+ v)
    = (<[current := set_key key v (default zero (profiles !! current))]> profiles,
       current).
Proof.
  intros Hkey Hcur Hv.
  assert (key +:+ "=" +:+ v = (key +:+ "=") +:+ v ∧
          key +:+ "=" ≠ "" ∧
          Forall printable (bytes (key +:+ "=")) ∧
          cut "="%char (bytes (key +:+ "=") ++ bytes v) = Some (bytes key, bytes v) ∧
          TrimSpace key = key ∧
          ∃ a rest, key +:+ "=" +:+ v = String a rest ∧
            a ≠ "#"%char ∧ a ≠ ";"%char ∧ a ≠ "["%char)
    as (Hassoc & Hne & Hpr & Hcut & Hk & a & rest & Heq & H1 & H2 & H3).
  { rewrite !elem_of_cons in Hkey.
    destruct Hkey as [->|[->|[->|Hkey]]]; [| | |by apply elem_of_nil in Hkey].
    all: split_and!;
      [reflexivity|done|by apply printable_literal|reflexivity|reflexivity|
       eexists _, _; split; [reflexivity|done]]. }
  unfold scan_line.
  assert (TrimSpace (key +:+ "=" +:+ v) = key +:+ "=" +:+ v) as ->.
  { rewrite Hassoc. by apply TrimSpace_behind. }
  assert (SplitN_2 (key +:+ "=" +:+ v) "=" = [key; v]) as Hsplit.
  { unfold SplitN_2. rewrite Hassoc, bytes_app, Hcut. by rewrite !str_bytes. }
  rewrite decide_False by (rewrite Heq; done).
  rewrite Hsplit. rewrite Heq, !HasPrefix_byte.
  rewrite !bool_decide_eq_false_2 by done. cbn [andb].
  rewrite decide_False by done. by rewrite Hk, Hv.
Qed.

(** The scanning loop on the four lines of a tidy section. *)
Lemma scan_section profiles current sec :
  sec.1 ≠ "" → tidy sec →
  foldl scan_line (profiles, current) (section_lines sec)
    = (<[sec.1 := sec.2]> profiles, sec.1).
Proof.
  destruct sec as [n [u t r]]. unfold tidy, section_lines. cbn [fst snd User Tenancy Region].
  intros Hn (Hname & Hu & Ht & Hr). cbn [foldl].
  rewrite scan_line_header by done.
  change ("user=" +:+ u) with ("user" +:+ "=" +:+ u).
  change ("tenancy=" +:+ t) with ("tenancy" +:+ "=" +:+ t).
  change ("region=" +:+ r) with ("region" +:+ "=" +:+ r).
  rewrite !scan_line_key by (done || set_solver).
  f_equal. rewrite !lookup_insert_eq. cbn [default].
  rewrite !insert_insert_eq. unfold set_key. simpl.
  destruct (profiles !! n); [done|]. by rewrite insert_insert_eq.
Qed.

Lemma scan_sections st secs :
  Forall (λ sec, sec.1 ≠ "" ∧ tidy sec) secs →
  (foldl scan_line st (concat (section_lines <$> secs))).1
    = foldl (λ m sec, <[sec.1 := sec.2]> m) st.1 secs.
Proof.
  intros Hall. revert st.
  induction Hall as [|sec secs [Hn Ht] _ IH]; intros [profiles current]; [done|].
  rewrite fmap_cons, concat_cons, foldl_app.
  rewrite scan_section by done. rewrite IH. done.
Qed.

Lemma foldl_insert_reverse (secs : list (string * Profile)) :
  foldl (λ m sec, <[sec.1 := sec.2]> m) (∅ : gmap string Profile) secs
    = list_to_map (reverse secs).
Proof.
  induction secs as [|sec secs IH] using rev_ind; [done|].
  rewrite foldl_app, reverse_app. simpl. by rewrite IH.
Qed.

(** X22. A file made of sections that each give a user, a tenancy and a
    region is read back as written: every section name is a profile with
    the fields of its section (of the last one when a name is written
    twice), a user left empty being replaced by the tenancy. This holds
    whenever the names are not empty, the tenancies and regions are not
    empty, and no name or value starts or ends with white space. *)
Theorem LoadProfiles_reads_sections (secs : list (string * Profile)) :
  Forall (λ sec, sec.1 ≠ "" ∧ tidy sec ∧ complete sec.2) secs →
  LoadProfiles (inl (concat (section_lines <$> secs), None))
    = inl (with_user <$> list_to_map (reverse secs)).
Proof.
  intros Hall. unfold LoadProfiles, scan.
  rewrite scan_sections by (eapply Forall_impl; [done|]; by intros ? (? & ? & _)).
  cbn [fst]. rewrite foldl_insert_reverse.
  apply (validate_ranged_any_order (list_to_map (reverse secs))); [done|].
  split; [|done].
  intros name p Hp. apply elem_of_list_to_map_2 in Hp.
  apply elem_of_reverse_2 in Hp. rewrite reverse_involutive in Hp.
  rewrite Forall_forall in Hall. by destruct (Hall _ Hp) as (_ & _ & ?).
Qed.

End sections.

(** X19 on one profile without a user. *)
Lemma validate_ranged_any_order_witness :
  let profiles : gmap string ocicfg.Profile :=
    {["SECOND" := ocicfg.mkProfile "" "ocid1.tenancy.oc1..t" "us-phoenix-1"]} in
  ocicfg.validate_ranged (map_to_list profiles) profiles
    = inl (ocicfg.with_user <$> profiles).
Proof.
  intros profiles.
  destruct (validate_ranged_any_order profiles (map_to_list profiles)) as [H _];
    [reflexivity|].
  apply H. split; [|reflexivity].
  apply map_Forall_singleton. split; discriminate.
Defined.

(** X20 on a file with one section that gives no user. *)
Lemma LoadProfiles_complete_witness :
  let file : list string * option error + error :=
    inl (["[SECOND]"; "tenancy=ocid1.tenancy.oc1..t"; "region=us-phoenix-1"], None) in
  ∃ m, ocicfg.LoadProfiles file = inl m ∧
       ∀ name p, m !! name = Some p →
         name ≠ "" ∧ ocicfg.User p ≠ "" ∧ ocicfg.Tenancy p ≠ "" ∧ ocicfg.Region p ≠ "".
Proof.
  intros file.
  destruct (ocicfg.LoadProfiles file) as [m|e] eqn:Hm; [|by vm_compute in Hm].
  exists m. split; [reflexivity|].
  exact (LoadProfiles_complete file m Hm).
Defined.

(** X21 for a comment line between a header and its keys. *)
Lemma LoadProfiles_passes_over_witness :
  ocicfg.LoadProfiles
    (inl (["[A]"] ++ "  # the tenancy" :: ["tenancy=t"; "region=r"], None))
  = ocicfg.LoadProfiles (inl (["[A]"] ++ ["tenancy=t"; "region=r"], None)).
Proof.
  apply LoadProfiles_passes_over.
  right. left. vm_compute. reflexivity.
Defined.

(** X22 on the two sections of the repository's own test file. *)
Lemma LoadProfiles_reads_sections_witness :
  let secs :=
    [("DEFAULT", ocicfg.mkProfile "ocid1.user.oc1..user123"
                   "ocid1.tenancy.oc1..ten123" "us-ashburn-1");
     ("SECOND", ocicfg.mkProfile "" "ocid1.tenancy.oc1..ten456" "us-phoenix-1")] in
  ocicfg.LoadProfiles (inl (concat (ocicfg.section_lines <$> secs), None))
    = inl (ocicfg.with_user <$> list_to_map (reverse secs)).
Proof.
  intros secs. apply LoadProfiles_reads_sections.
  apply Forall_cons. split; [|apply Forall_cons; split; [|apply Forall_nil_2]].
  - split; [discriminate|]. split; [|split; discriminate].
    repeat split; vm_compute; reflexivity.
  - split; [discriminate|]. split; [|split; discriminate].
    repeat split; vm_compute; reflexivity.
Defined.

(** ** The command [import] *)
Section import.
Import config ocicfg cmd.
Implicit Types (cfg c : Config) (p q : Profile) (name n : string).
Implicit Types (entries : list (string * Profile)) (overwrite : bool).
Implicit Types (log : list Written) (imported skipped : nat).

Lemma GetContext_is_inl c n :
  match GetContext c n with inl _ => true | inr _ => false end
    = bool_decide (n ∈ names c).
Proof.
  unfold GetContext.
  destruct (find_by_name n (Contexts c)) as [[i y]|] eqn:Hf.
  - symmetry. apply bool_decide_eq_true.
    apply find_by_name_Some in Hf as (Hi & Hy & _).
    unfold names. apply list_elem_of_fmap. exists y. split; [done|].
    apply list_elem_of_lookup. eauto.
  - symmetry. apply bool_decide_eq_false. by apply find_by_name_None.
Qed.

Lemma names_UpsertContext ctx c n :
  n ∈ names (UpsertContext ctx c).1 ↔ n ∈ names c ∨ n = config.Name ctx.
Proof.
  destruct (find_by_name (config.Name ctx) (Contexts c)) as [[i y]|] eqn:Hf.
  - rewrite (UpsertContext_names_present _ _ _ _ Hf). split; [by left|].
    intros [?| ->]; [done|].
    apply find_by_name_Some in Hf as (Hi & Hy & _).
    unfold names. apply list_elem_of_fmap. exists y. split; [done|].
    apply list_elem_of_lookup. eauto.
  - rewrite (UpsertContext_names_absent _ _ Hf).
    rewrite elem_of_app, list_elem_of_singleton. done.
Qed.

Lemma UpsertContext_fresh_appends ctx c :
  config.Name ctx ∉ names c →
  Contexts (UpsertContext ctx c).1 = Contexts c ++ [ctx].
Proof.
  intros Hn. apply find_by_name_None in Hn. unfold UpsertContext. by rewrite Hn.
Qed.

(** What the loop of [import] leaves when it ends without an error. *)
Lemma import_ranged_inl overwrite entries cfg imported skipped log cfg' imported' skipped' :
  NoDup entries.*1 →
  import_ranged overwrite entries cfg imported skipped
    = (log, inl (cfg', imported', skipped')) →
  imported' + skipped' = imported + skipped + length entries ∧
  length log = length entries ∧
  (∀ n, n ∉ entries.*1 → GetContext cfg' n = GetContext cfg n) ∧
  (∀ name p, (name, p) ∈ entries →
     GetContext cfg' name =
       if negb overwrite && bool_decide (name ∈ names cfg)
       then GetContext cfg name
       else inl (context_of_profile name p)) ∧
  (overwrite = false → Contexts cfg `prefix_of` Contexts cfg') ∧
  (current_ok cfg → current_ok cfg') ∧
  (NoDup (names cfg) → NoDup (names cfg')).
Proof.
  revert cfg imported skipped log.
  induction entries as [|[name p] entries IH]; intros cfg imported skipped log Hnd.
  { intros [= <- <- <- <-]. split_and!; try done.
    all: try (simpl; lia). all: try by intros ?? ?%elem_of_nil. }
  rewrite fmap_cons in Hnd. apply NoDup_cons in Hnd as [Hname Hnd].
  cbn [import_ranged].
  destruct (Validate (context_of_profile name p)) as [e|]; [done|].
  rewrite GetContext_is_inl.
  destruct (negb overwrite && bool_decide (name ∈ names cfg)) eqn:Hskip.
  - destruct (import_ranged overwrite entries cfg imported (S skipped))
      as [log1 r] eqn:Hr. intros [= <- ->].
    destruct (IH _ _ _ _ Hnd Hr) as (Hcount & Hlog & Hframe & Hget & Hpre & Hok & Hdup).
    split_and!; try done.
    + simpl. lia.
    + simpl. lia.
    + intros n Hn. apply Hframe. rewrite fmap_cons in Hn.
      by apply not_elem_of_cons in Hn as [_ ?].
    + intros n q [[= -> ->]|Hin]%elem_of_cons.
      * rewrite Hskip. by apply Hframe.
      * by apply Hget.
  - pose proof (UpsertContext_no_error (context_of_profile name p) cfg) as Hne.
    pose proof (GetContext_after_UpsertContext (context_of_profile name p) cfg) as Hlook.
    pose proof (names_UpsertContext (context_of_profile name p) cfg) as Hnames.
    pose proof (UpsertContext_current_ok (context_of_profile name p) cfg) as Hcok.
    pose proof (UpsertContext_NoDup (context_of_profile name p) cfg) as Hcnd.
    pose proof (UpsertContext_fresh_appends (context_of_profile name p) cfg) as Happ.
    destruct (UpsertContext (context_of_profile name p) cfg) as [cfg1 oe].
    cbn [fst snd] in *. subst oe.
    destruct (import_ranged overwrite entries cfg1 (S imported) skipped)
      as [log1 r] eqn:Hr. intros [= <- ->].
    destruct (IH _ _ _ _ Hnd Hr) as (Hcount & Hlog & Hframe & Hget & Hpre & Hok & Hdup).
    split_and!.
    + simpl. lia.
    + simpl. lia.
    + intros n Hn. rewrite fmap_cons in Hn.
      apply not_elem_of_cons in Hn as [Hn1 Hn2]. simpl in Hn1.
      rewrite (Hframe n Hn2), Hlook. by rewrite decide_False.
    + intros n q [[= -> ->]|Hin]%elem_of_cons.
      * rewrite Hskip, (Hframe _ Hname), Hlook. by rewrite decide_True.
      * assert (n ≠ name) as Hne.
        { intros ->. apply Hname. apply list_elem_of_fmap. by exists (name, q). }
        rewrite (Hget n q Hin), Hlook. cbn [config.Name context_of_profile].
        rewrite decide_False by done.
        assert (bool_decide (n ∈ names cfg1) = bool_decide (n ∈ names cfg)) as ->; [|done].
        apply bool_decide_ext. rewrite Hnames. simpl.
        split; [intros [?|?]; done|by left].
    + intros ->. etrans; [|by apply Hpre].
      rewrite Happ; [by apply prefix_app_r|].
      simpl in Hskip. by apply bool_decide_eq_false in Hskip.
    + auto.
    + auto.
Qed.

(** The loop fails on no profile that has a name and a tenancy. *)
Lemma import_ranged_named overwrite entries cfg imported skipped :
  Forall (λ e, e.1 ≠ "" ∧ Tenancy e.2 ≠ "") entries →
  ∃ log r, import_ranged overwrite entries cfg imported skipped = (log, inl r).
Proof.
  intros Hall. revert cfg imported skipped.
  induction Hall as [|[name p] entries [Hn Ht] _ IH]; intros cfg imported skipped.
  { by eexists _, _. }
  cbn [import_ranged]. simpl in Hn, Ht.
  assert (Validate (context_of_profile name p) = None) as ->.
  { unfold Validate, context_of_profile. simpl. by rewrite !decide_False. }
  destruct (negb overwrite && _).
  - destruct (IH cfg imported (S skipped)) as (log & r & ->). by eexists _, _.
  - pose proof (UpsertContext_no_error (context_of_profile name p) cfg) as Hne.
    destruct (UpsertContext (context_of_profile name p) cfg) as [cfg1 oe].
    simpl in Hne. subst oe.
    destruct (IH cfg1 (S imported) skipped) as (log & r & ->). by eexists _, _.
Qed.

(** X23. When the loop of [import] ends without an error, every profile
    has been counted once, as imported or as skipped; every context whose
    name is no profile is looked up as before; a profile whose name was not
    stored, or any profile under [--overwrite], is looked up as the context
    made of it, and without [--overwrite] a stored name keeps its context;
    without [--overwrite] the contexts stored before are the first contexts
    of the store afterwards; and [currentContext] stays empty or the name of
    a stored context, and the names stay pairwise distinct, if they were.
    This holds in whatever order the map of profiles is ranged over. *)
Theorem import_keeps_and_adds overwrite (profiles : gmap string Profile) entries cfg
    log cfg' imported skipped :
  entries ≡ₚ map_to_list profiles →
  import_ranged overwrite entries cfg 0 0 = (log, inl (cfg', imported, skipped)) →
  imported + skipped = size profiles ∧
  (∀ n, profiles !! n = None → GetContext cfg' n = GetContext cfg n) ∧
  (∀ name p, profiles !! name = Some p →
     GetContext cfg' name =
       if negb overwrite && bool_decide (name ∈ names cfg)
       then GetContext cfg name
       else inl (context_of_profile name p)) ∧
  (overwrite = false → Contexts cfg `prefix_of` Contexts cfg') ∧
  (current_ok cfg → current_ok cfg') ∧
  (NoDup (names cfg) → NoDup (names cfg')).
Proof.
  intros Hperm Hr.
  assert (NoDup entries.*1) as Hnd.
  { rewrite Hperm. apply NoDup_fst_map_to_list. }
  assert (∀ name p, (name, p) ∈ entries ↔ profiles !! name = Some p) as Hin.
  { intros name p. rewrite Hperm. apply elem_of_map_to_list. }
  destruct (import_ranged_inl _ _ _ _ _ _ _ _ _ Hnd Hr)
    as (Hcount & _ & Hframe & Hget & Hpre & Hok & Hdup).
  split_and!; try done.
  - rewrite Hcount, Hperm, length_map_to_list. lia.
  - intros n Hn. apply Hframe. intros ((k & p) & -> & Hkp)%list_elem_of_fmap.
    apply Hin in Hkp. simpl in Hn. congruence.
  - intros name p Hp. apply Hget. by apply Hin.
Qed.

(** X24. An import of the profiles that [LoadProfiles] returned never
    fails on a profile: each of them gives a context that passes
    [Validate]. With a save that succeeds the command ends without an
    error, reports the two counts, whose sum is the number of profiles, and
    has written a store in which every profile name is a context name. *)
Theorem import_of_loaded_profiles overwrite path cfg from file
    (profiles : gmap string Profile) entries w :
  LoadProfiles file = inl profiles →
  entries ≡ₚ map_to_list profiles →
  faults w = [] →
  ∃ log cfg' imported skipped,
    newImportCmd_RunE overwrite (inl (path, cfg)) (inl from) (inl profiles) entries w
      = ([Summary imported skipped from], log, None,
         mkWorld (<[path := cfg']> (files w)) (save_calls w ++ [(path, cfg')]) []) ∧
    imported + skipped = size profiles ∧
    ∀ name, is_Some (profiles !! name) → name ∈ names cfg'.
Proof.
  intros Hload Hperm Hw.
  assert (Forall (λ e, e.1 ≠ "" ∧ Tenancy e.2 ≠ "") entries) as Hall.
  { apply Forall_forall. intros [name p] Hin. rewrite Hperm in Hin.
    apply elem_of_map_to_list in Hin.
    destruct (LoadProfiles_complete _ _ Hload _ _ Hin) as (? & _ & ? & _). done. }
  destruct (import_ranged_named overwrite entries cfg 0 0 Hall)
    as (log & [[cfg' imported] skipped] & Hr).
  exists log, cfg', imported, skipped.
  destruct (import_keeps_and_adds _ _ _ _ _ _ _ _ Hperm Hr)
    as (Hcount & _ & Hget & _).
  split_and!; [|done|].
  - unfold newImportCmd_RunE. rewrite Hr. unfold Save. by rewrite Hw.
  - intros name [p Hp]. specialize (Hget name p Hp).
    destruct (negb overwrite && bool_decide (name ∈ names cfg)) eqn:Hs.
    + apply andb_true_iff in Hs as [_ Hs]. apply bool_decide_eq_true in Hs.
      assert (match GetContext cfg' name with inl _ => true | inr _ => false end
              = true) as Ht.
      { rewrite Hget, GetContext_is_inl. by apply bool_decide_eq_true. }
      rewrite GetContext_is_inl in Ht. by apply bool_decide_eq_true in Ht.
    + by apply GetContext_inl_Name in Hget as [_ ?].
Qed.

End import.

(** X23 for one profile and a store that holds another context. *)
Lemma import_keeps_and_adds_witness :
  let dev := config.mkContext "dev" "DEFAULT" "t1" "c1" "r1" "" "" in
  let cfg := config.mkConfig (config.mkOptions "" "" "") [dev] "dev" in
  let profiles : gmap string ocicfg.Profile :=
    {["PROD" := ocicfg.mkProfile "u" "t2" "r2"]} in
  let r := cmd.import_ranged false (map_to_list profiles) cfg 0 0 in
  ∃ cfg' imported skipped,
    r.2 = inl (cfg', imported, skipped) ∧
    imported + skipped = 1 ∧
    config.GetContext cfg' "dev" = inl dev ∧
    config.GetContext cfg' "PROD"
      = inl (cmd.context_of_profile "PROD" (ocicfg.mkProfile "u" "t2" "r2")).
Proof.
  intros dev cfg profiles r.
  destruct r as [log [[[cfg' imported] skipped]|e]] eqn:Hr; [|by vm_compute in Hr].
  exists cfg', imported, skipped.
  destruct (import_keeps_and_adds false profiles (map_to_list profiles) cfg
              log cfg' imported skipped (reflexivity _) Hr)
    as (Hcount & Hframe & Hget & _).
  split_and!; [reflexivity|exact Hcount| |].
  - rewrite (Hframe "dev" eq_refl). reflexivity.
  - rewrite (Hget "PROD" _ eq_refl). reflexivity.
Defined.

(** X24 for a file with one section, into an empty store. *)
Lemma import_of_loaded_profiles_witness :
  let file : list string * option error + error :=
    inl (["[PROD]"; "tenancy=t2"; "region=r2"], None) in
  let profiles : gmap string ocicfg.Profile :=
    {["PROD" := ocicfg.mkProfile "t2" "t2" "r2"]} in
  let r := cmd.newImportCmd_RunE false
             (inl ("/cfg.yml", config.DefaultConfig "/home/u"))
             (inl "/home/u/.oci/config") (inl profiles) (map_to_list profiles)
             (config.mkWorld ∅ [] []) in
  r.1.2 = None ∧ r.1.1.1 = [cmd.Summary 1 0 "/home/u/.oci/config"].
Proof.
  intros file profiles r.
  destruct (import_of_loaded_profiles false "/cfg.yml" (config.DefaultConfig "/home/u")
              "/home/u/.oci/config" file profiles (map_to_list profiles)
              (config.mkWorld ∅ [] []))
    as (log & cfg' & imported & skipped & Hr & _ & _).
  - vm_compute. reflexivity.
  - reflexivity.
  - reflexivity.
  - split; [|reflexivity]. unfold r. rewrite Hr. reflexivity.
Defined.

(** ** The picker: filtering, and staging with the space bar *)
Section picker_keys.
Import cmd.
Context `{W : ListWidget}.
Implicit Types (m : tuiModel) (w : config.World) (msg : Msg) (key : string).
Implicit Types (l : Model) (r : Step).



Lemma key_switch_space m w :
  key_switch " " m w = Return (on_space m, CmdNil, w).
Proof. reflexivity. Qed.

Lemma mode_on_space m : mode (on_space m) = mode m.
Proof. unfold on_space. repeat case_match; done. Qed.

(** X26. The space bar, on a list that is not being filtered, stages the
    selected row and does nothing else: no file is written, the store and
    the mode are as before, and the session goes on. In the context list the
    selected context becomes the active one and the only thing staged; in
    the compartment list the selected compartment is staged beside what was
    staged; in the region list the selected region is staged and set in the
    active context. Without a selected row of the list's kind nothing is
    staged. *)
Theorem space_stages_selection m w :
  FilterState_of (active m) ≠ Filtering →
  let r := Update (KeyMsg " ") m w in
  r = (on_space (refreshDelegates m), CmdNil, w) ∧
  core r.1.1 = core m ∧ mode r.1.1 = mode m ∧
  match mode m, SelectedItem (active m) with
  | ModeContexts, Some (ctxRow item) =>
      ctxItem r.1.1 = item ∧ staging r.1.1 = (config.Name item, "", "", "") ∧
      parentID r.1.1 = start_parent item
  | ModeCompartments, Some (compRow item) =>
      staging r.1.1 = (pendingContextName m, pendingTenancyOCID m,
                       oci.ID (oc item), pendingRegion m) ∧
      parentID r.1.1 = oci.ID (oc item) ∧ ctxItem r.1.1 = ctxItem m
  | ModeRegions, Some (regionRow item) =>
      staging r.1.1 = (pendingContextName m, pendingTenancyOCID m,
                       pendingSelectionID m, name item) ∧
      ctxItem r.1.1 = set_Region (name item) (ctxItem m)
  | ModeTenancies, Some (tenancyRow item) =>
      pendingTenancyOCID r.1.1 = TenancyOCID item
  | _, _ => staging r.1.1 = staging m ∧ ctxItem r.1.1 = ctxItem m
  end.
Proof.
  intros Hf r. unfold r. rewrite (Update_key_not_filtering " " m w Hf).
  rewrite key_switch_space. split; [done|]. cbn [fst snd].
  rewrite core_on_space, core_refreshDelegates, mode_on_space, mode_refreshDelegates.
  split; [done|]. split; [done|].
  pose proof (staging_refreshDelegates m) as Hs.
  pose proof (ctxItem_refreshDelegates m) as Hc.
  pose proof (mode_refreshDelegates m) as Hm.
  destruct (lists_refreshDelegates m) as (_ & (H1 & H2 & H3 & H4) & _).
  unfold staging in *. unfold active, on_space. rewrite Hm.
  destruct (mode m).
  - rewrite H1. destruct (SelectedItem (list_ m)) as [[item| | |]|]; try done.
  - rewrite H2. destruct (SelectedItem (tenancies m)) as [[|item| |]|]; try done.
    by case_match.
  - rewrite H3. destruct (SelectedItem (comps m)) as [[| |item|]|]; try done.
    injection Hs as Hs1 Hs2 Hs3 Hs4. split_and!; [|done|done].
    cbn. congruence.
  - rewrite H4. destruct (SelectedItem (regions m)) as [[| | |item]|]; try done.
    injection Hs as Hs1 Hs2 Hs3 Hs4. split; [|cbn; congruence].
    cbn. congruence.
Qed.

End picker_keys.

Section examples_keys.
Import cmd.


(** X26 on the sample model: the space bar stages the context ["dev"]. *)
Lemma space_stages_selection_witness :
  staging (Update (KeyMsg " ") sample_model sample_world).1.1 = ("dev", "", "", "") ∧
  (Update (KeyMsg " ") sample_model sample_world).2 = sample_world.
Proof.
  assert (FilterState_of (active sample_model) ≠ Filtering) as Hf.
  { vm_compute. discriminate. }
  destruct (space_stages_selection sample_model sample_world Hf) as (Heq & _ & _ & H).
  split.
  - assert (mode sample_model = ModeContexts) as Hm by reflexivity.
    assert (SelectedItem (active sample_model) = Some (ctxRow sample_ctx)) as Hs
      by (vm_compute; reflexivity).
    rewrite Hm, Hs in H. destruct H as (_ & H & _). exact H.
  - rewrite Heq. reflexivity.
Defined.

End examples_keys.

(** ** The context rows made of the profiles *)
Section context_rows.
Import cmd.
Implicit Types (profiles : gmap string ocicfg.Profile) (names : list string).

Lemma FilterValue_omap_profiles profiles names :
  (∀ n, n ∈ names → is_Some (profiles !! n)) →
  FilterValue <$>
    omap (λ name, (λ p, ctxRow (contextItemForProfile name p)) <$> profiles !! name)
         names = names.
Proof.
  induction names as [|n names IH]; intros Hall; [done|].
  destruct (Hall n) as [p Hp]; [apply list_elem_of_here|].
  cbn [omap list_omap]. rewrite Hp. cbn. f_equal.
  apply IH. intros k Hk. apply Hall. by right.
Qed.

(** X27. The context rows made of the profiles are one row per profile,
    in ascending order of the profile names, whatever the order in which the
    map is ranged over; the row of a profile has the profile's name as its
    name and as its profile, the profile's tenancy as its tenancy and as its
    compartment, and the profile's region and user. *)
Theorem contextsFromProfiles_rows profiles :
  let rows := contextsFromProfiles profiles in
  FilterValue <$> rows = sort_Strings (map_to_list profiles).*1 ∧
  (∀ names, names ≡ₚ (map_to_list profiles).*1 →
     sort_Strings names = sort_Strings (map_to_list profiles).*1) ∧
  Sorted String.le (FilterValue <$> rows) ∧
  NoDup (FilterValue <$> rows) ∧
  length rows = size profiles ∧
  (∀ it, it ∈ rows ↔
     ∃ name p, profiles !! name = Some p ∧
               it = ctxRow (config.mkContext name name (ocicfg.Tenancy p)
                              (ocicfg.Tenancy p) (ocicfg.Region p)
                              (ocicfg.User p) "")).
Proof.
  intros rows.
  assert (∀ n, n ∈ sort_Strings (map_to_list profiles).*1 ↔ is_Some (profiles !! n))
    as Hkeys.
  { intros n. rewrite elem_of_sort_Strings, list_elem_of_fmap. split.
    - intros ([k p] & -> & Hin). apply elem_of_map_to_list in Hin. by exists p.
    - intros [p Hp]. exists (n, p). split; [done|]. by apply elem_of_map_to_list. }
  assert (FilterValue <$> rows = sort_Strings (map_to_list profiles).*1) as Hrows.
  { apply FilterValue_omap_profiles. intros n. apply Hkeys. }
  split_and!.
  - done.
  - intros names Hperm. by apply sort_Strings_perm.
  - rewrite Hrows. apply sort_Strings_sorted.
  - rewrite Hrows. apply NoDup_sort_Strings, NoDup_fst_map_to_list.
  - rewrite <- (length_fmap FilterValue), Hrows.
    rewrite <- (length_map_to_list profiles), <- (length_fmap fst (map_to_list profiles)).
    apply Permutation_length. unfold sort_Strings. apply merge_sort_Permutation.
  - intros it. unfold rows, contextsFromProfiles. rewrite list_elem_of_omap. split.
    + intros (n & Hn & Hit). destruct (profiles !! n) as [p|] eqn:Hp; [|done].
      injection Hit as <-. by exists n, p.
    + intros (n & p & Hp & ->). exists n. split.
      * apply Hkeys. by exists p.
      * by rewrite Hp.
Qed.

End context_rows.

(** X27 on two profiles, ranged over in either order. *)
Lemma contextsFromProfiles_rows_witness :
  let profiles : gmap string ocicfg.Profile :=
    {["PROD" := ocicfg.mkProfile "u2" "t2" "r2"; "DEFAULT" := ocicfg.mkProfile "u1" "t1" "r1"]} in
  cmd.FilterValue <$> cmd.contextsFromProfiles profiles = ["DEFAULT"; "PROD"] ∧
  cmd.sort_Strings (reverse (map_to_list profiles).*1)
    = cmd.sort_Strings (map_to_list profiles).*1.
Proof.
  intros profiles.
  destruct (contextsFromProfiles_rows profiles) as (Hrows & Horder & _).
  split.
  - rewrite Hrows. vm_compute. reflexivity.
  - apply Horder. apply reverse_Permutation.
Defined.

(** ** The picker: walking the compartments *)
Section picker_walk.
Import cmd.
Context `{W : ListWidget}.
Implicit Types (m : tuiModel) (w : config.World) (msg : Msg) (key : string).
Implicit Types (l : Model) (r : Step) (item : compItem).

Lemma goUpOne_root m :
  parentID m = config.TenancyOCID (ctxItem m) →
  (goUpOne m).2 = CmdNil ∧ mode (goUpOne m).1 = ModeContexts ∧
  parentID (goUpOne m).1 = parentID m ∧ ctxItem (goUpOne m).1 = ctxItem m ∧
  staging (goUpOne m).1 = staging m ∧ core (goUpOne m).1 = core m.
Proof.
  intros H. unfold goUpOne. rewrite decide_True by done. done.
Qed.

Lemma goUpOne_up m :
  parentID m ≠ config.TenancyOCID (ctxItem m) →
  let up := if decide (at_key (parentMap m) (parentID m) = "")
            then config.TenancyOCID (ctxItem m)
            else at_key (parentMap m) (parentID m) in
  (goUpOne m).2 = loadCompsCmd (ctxItem m) up ∧ mode (goUpOne m).1 = mode m ∧
  parentID (goUpOne m).1 = up ∧ ctxItem (goUpOne m).1 = ctxItem m ∧
  staging (goUpOne m).1 = staging m ∧ core (goUpOne m).1 = core m.
Proof.
  intros H up. unfold goUpOne. rewrite decide_False by done. cbv zeta.
  fold up. destruct (decide (at_key _ up ≠ "")); done.
Qed.

Lemma key_switch_backspace m w :
  key_switch "backspace" m w = on_back m w.
Proof. reflexivity. Qed.

Lemma parentMap_refreshDelegates m : parentMap (refreshDelegates m) = parentMap m.
Proof. destruct (refreshDelegates_titles m) as (?&?&?&?&->). done. Qed.

Lemma FilterState_comps_refreshDelegates m :
  FilterState_of (comps (refreshDelegates m)) = FilterState_of (comps m).
Proof.
  destruct (refreshDelegates_titles m) as (?&?&?&?&->). simpl.
  apply FilterState_SetTitle.
Qed.

Lemma Update_backspace m w :
  mode m = ModeCompartments → FilterState_of (comps m) ≠ Filtering →
  let r := Update (KeyMsg "backspace") m w in
  let up := if decide (at_key (parentMap m) (parentID m) = "")
            then config.TenancyOCID (ctxItem m)
            else at_key (parentMap m) (parentID m) in
  r.2 = w ∧ core r.1.1 = core m ∧ staging r.1.1 = staging m ∧
  ctxItem r.1.1 = ctxItem m ∧
  (parentID m = config.TenancyOCID (ctxItem m) →
   r.1.2 = CmdNil ∧ mode r.1.1 = ModeContexts) ∧
  (parentID m ≠ config.TenancyOCID (ctxItem m) →
   r.1.2 = loadCompsCmd (ctxItem m) up ∧ mode r.1.1 = ModeCompartments ∧
   parentID r.1.1 = up).
Proof.
  intros Hm Hf r up.
  assert (FilterState_of (active m) ≠ Filtering) as Hfa.
  { unfold active. by rewrite Hm. }
  unfold r. rewrite (Update_key_not_filtering "backspace" m w Hfa).
  rewrite key_switch_backspace. unfold on_back.
  rewrite mode_refreshDelegates, Hm.
  rewrite decide_True by (by rewrite FilterState_comps_refreshDelegates).
  set (m1 := with_status "Loading parent..." (refreshDelegates m)).
  assert (parentID m1 = parentID m) as Hp by apply parentID_refreshDelegates.
  assert (ctxItem m1 = ctxItem m) as Hc by apply ctxItem_refreshDelegates.
  assert (parentMap m1 = parentMap m) as Hpm by apply parentMap_refreshDelegates.
  assert (staging m1 = staging m) as Hs by apply staging_refreshDelegates.
  assert (core m1 = core m) as Hcore by apply core_refreshDelegates.
  assert (mode m1 = ModeCompartments) as Hm1.
  { unfold m1. cbn. by rewrite mode_refreshDelegates. }
  pose proof (goUpOne_root m1) as Hroot. pose proof (goUpOne_up m1) as Hup.
  destruct (goUpOne m1) as [m2 c]. cbn [fst snd] in *.
  rewrite Hp, Hc, Hpm, Hs, Hm1, Hcore in *. fold up in Hup.
  destruct (decide (parentID m = config.TenancyOCID (ctxItem m))) as [He|Hne].
  - destruct (Hroot He) as (H1 & H2 & H3 & H4 & H5 & H6). by split_and!.
  - destruct (Hup Hne) as (H1 & H2 & H3 & H4 & H5 & H6). by split_and!.
Qed.

(** X28. Backspace in the compartment list, when it is not being
    filtered, goes up one level and touches neither the store nor what is
    staged. At the root (the cursor is the tenancy of the active context)
    the picker returns to the context list and fetches nothing; elsewhere
    the cursor becomes the parent recorded for it, or the tenancy when none
    is recorded, and the children of the new cursor are asked for. *)
Theorem backspace_goes_up m w :
  mode m = ModeCompartments → FilterState_of (comps m) ≠ Filtering →
  let r := Update (KeyMsg "backspace") m w in
  let up := if decide (at_key (parentMap m) (parentID m) = "")
            then config.TenancyOCID (ctxItem m)
            else at_key (parentMap m) (parentID m) in
  r.2 = w ∧ core r.1.1 = core m ∧ staging r.1.1 = staging m ∧
  ctxItem r.1.1 = ctxItem m ∧
  (parentID m = config.TenancyOCID (ctxItem m) →
   r.1.2 = CmdNil ∧ mode r.1.1 = ModeContexts) ∧
  (parentID m ≠ config.TenancyOCID (ctxItem m) →
   r.1.2 = loadCompsCmd (ctxItem m) up ∧ mode r.1.1 = ModeCompartments ∧
   parentID r.1.1 = up).
Proof. apply Update_backspace. Qed.

Lemma key_switch_enter m w : key_switch "enter" m w = on_enter m w.
Proof. reflexivity. Qed.

(** [enter] on a compartment row of a list that is not being filtered. *)
Lemma on_enter_drill item m w :
  mode m = ModeCompartments → FilterState_of (comps m) ≠ Filtering →
  Items (comps m) ≠ [] → SelectedItem (comps m) = Some (compRow item) →
  ∃ m1, on_enter m w = Return (m1, loadCompsCmd (ctxItem m) (oci.ID (oc item)), w) ∧
        mode m1 = ModeCompartments ∧ comps m1 = comps m ∧
        parentID m1 = oci.ID (oc item) ∧ ctxItem m1 = ctxItem m ∧
        parentMap m1 = <[oci.ID (oc item) := oci.Parent (oc item)]> (parentMap m) ∧
        core m1 = core m ∧
        staging m1 = (pendingContextName m, pendingTenancyOCID m, "", pendingRegion m).
Proof.
  intros Hm Hf Hi Hs. unfold on_enter, active. rewrite Hm.
  rewrite decide_False by done.
  rewrite decide_False by (by destruct (Items (comps m))).
  rewrite Hs. cbv zeta. eexists. split; [reflexivity|].
  split_and!; try reflexivity. exact Hm.
Qed.

(** X29. In the compartment list, [enter] on a compartment row makes that
    compartment the cursor, records its parent and asks for its children;
    what was staged as compartment is dropped, the rest of what is staged
    and the store are kept. A backspace right after it leads back: the
    cursor becomes the parent recorded for the row (the tenancy of the
    active context when the row names no parent) and the children of that
    parent are asked for again. *)
Theorem drill_down_then_up item m w :
  mode m = ModeCompartments → FilterState_of (comps m) ≠ Filtering →
  Items (comps m) ≠ [] → SelectedItem (comps m) = Some (compRow item) →
  let r1 := Update (KeyMsg "enter") m w in
  let r2 := Update (KeyMsg "backspace") r1.1.1 r1.2 in
  let back := if decide (oci.Parent (oc item) = "")
              then config.TenancyOCID (ctxItem m)
              else oci.Parent (oc item) in
  r1.1.2 = loadCompsCmd (ctxItem m) (oci.ID (oc item)) ∧
  parentID r1.1.1 = oci.ID (oc item) ∧ mode r1.1.1 = ModeCompartments ∧
  r1.2 = w ∧ core r1.1.1 = core m ∧
  staging r1.1.1 = (pendingContextName m, pendingTenancyOCID m, "", pendingRegion m) ∧
  (oci.ID (oc item) ≠ config.TenancyOCID (ctxItem m) →
   r2.1.2 = loadCompsCmd (ctxItem m) back ∧ parentID r2.1.1 = back ∧
   mode r2.1.1 = ModeCompartments ∧ r2.2 = w).
Proof.
  intros Hm Hf Hi Hs r1 r2 back.
  assert (FilterState_of (active m) ≠ Filtering) as Hfa.
  { unfold active. by rewrite Hm. }
  destruct (lists_refreshDelegates m) as ((_ & _ & HI & _) & (_ & _ & HS & _) & _).
  destruct (on_enter_drill item (refreshDelegates m) w)
    as (m1 & He & Hm1 & Hc1 & Hp1 & Hx1 & Hpm1 & Hcore1 & Hst1).
  { by rewrite mode_refreshDelegates. }
  { by rewrite FilterState_comps_refreshDelegates. }
  { by rewrite HI. }
  { by rewrite HS. }
  assert (r1 = (m1, loadCompsCmd (ctxItem m) (oci.ID (oc item)), w)) as Hr1.
  { unfold r1. rewrite (Update_key_not_filtering "enter" m w Hfa).
    rewrite key_switch_enter, He. by rewrite ctxItem_refreshDelegates. }
  rewrite ctxItem_refreshDelegates in Hx1.
  rewrite core_refreshDelegates in Hcore1.
  pose proof (staging_refreshDelegates m) as Hsr. injection Hsr as Hs1 Hs2 Hs3 Hs4.
  rewrite Hs1, Hs2, Hs4 in Hst1.
  unfold r2. rewrite Hr1. cbn [fst snd]. split_and!; try done.
  intros Hne.
  destruct (Update_backspace m1 w) as (Hw & _ & _ & _ & _ & Hup).
  { done. }
  { by rewrite Hc1, FilterState_comps_refreshDelegates. }
  destruct Hup as (Hcmd & Hmode & Hpar).
  { by rewrite Hp1, Hx1. }
  rewrite Hx1, Hp1, Hpm1 in Hcmd, Hpar.
  unfold at_key in Hcmd, Hpar. rewrite lookup_insert_eq in Hcmd, Hpar.
  cbn [default] in Hcmd, Hpar. by split_and!.
Qed.

End picker_walk.

Section examples_walk.
Import cmd.

(** X28 on the sample model at the root of its tenancy: backspace leads
    back to the context list. *)
Lemma backspace_goes_up_witness :
  let m := after [KeyMsg "enter";
                  compResultMsg "ocid1.tenancy.oc1..ten" [sample_child] None]
             sample_model in
  (Update (KeyMsg "backspace") m sample_world).1.2 = CmdNil ∧
  mode (Update (KeyMsg "backspace") m sample_world).1.1 = ModeContexts.
Proof.
  intros m.
  destruct (backspace_goes_up m sample_world) as (_ & _ & _ & _ & Hroot & _).
  - vm_compute. reflexivity.
  - vm_compute. discriminate.
  - apply Hroot. vm_compute. reflexivity.
Defined.

(** X29 on the sample model: into the child compartment and back to the
    tenancy. *)
Lemma drill_down_then_up_witness :
  let m := after [KeyMsg "enter";
                  compResultMsg "ocid1.tenancy.oc1..ten" [sample_child] None]
             sample_model in
  let r1 := Update (KeyMsg "enter") m sample_world in
  let r2 := Update (KeyMsg "backspace") r1.1.1 r1.2 in
  parentID r1.1.1 = "ocid1.compartment.oc1..child" ∧
  parentID r2.1.1 = "ocid1.tenancy.oc1..ten".
Proof.
  intros m r1 r2.
  destruct (drill_down_then_up sample_child m sample_world)
    as (_ & Hp & _ & _ & _ & _ & Hback).
  - vm_compute. reflexivity.
  - vm_compute. discriminate.
  - vm_compute. discriminate.
  - vm_compute. reflexivity.
  - split; [exact Hp|].
    destruct Hback as (_ & Hp2 & _); [vm_compute; discriminate|].
    exact Hp2.
Defined.

End examples_walk.

(** ** Shortened identifiers *)
Section abbreviate.
Import cmd.
Implicit Types (s : string) (n k : nat).

Lemma length_append s1 s2 :
  String.length (s1 +:+ s2) = String.length s1 + String.length s2.
Proof.
  induction s1 as [|a s1 IH]; [done|].
  change (String a s1 +:+ s2) with (String a (s1 +:+ s2)).
  simpl. by rewrite IH.
Qed.

Lemma length_substring n k s :
  n + k ≤ String.length s → String.length (String.substring n k s) = k.
Proof.
  revert n k. induction s as [|a s IH]; intros n k Hl.
  - simpl in Hl. assert (n = 0 ∧ k = 0) as [-> ->] by lia. done.
  - destruct n as [|n].
    + destruct k as [|k]; [done|]. cbn. rewrite IH; [done|]. simpl in Hl. lia.
    + cbn. apply IH. simpl in Hl. lia.
Qed.

Lemma substring_append_l k s1 s2 :
  k ≤ String.length s1 →
  String.substring 0 k (s1 +:+ s2) = String.substring 0 k s1.
Proof.
  revert k. induction s1 as [|a s1 IH]; intros k Hk.
  - simpl in Hk. assert (k = 0) as -> by lia.
    change ("" +:+ s2) with s2. by destruct s2.
  - destruct k as [|k]; [done|].
    change (String a s1 +:+ s2) with (String a (s1 +:+ s2)).
    simpl. rewrite IH; [done|]. simpl in Hk. lia.
Qed.

Lemma substring_prefix_id s : String.substring 0 (String.length s) s = s.
Proof. induction s as [|a s IH]; [done|]. cbn. by rewrite IH. Qed.

(** X30. [abbreviateOCID] returns a text of sixteen bytes or less as it
    is, and shortens every longer one to fifteen bytes: its first six, the
    three bytes of the ellipsis, its last six. The result is never longer
    than sixteen bytes nor than the text, and abbreviating it again changes
    nothing. *)
Theorem abbreviateOCID_short s :
  (String.length s ≤ 16 → abbreviateOCID s = s) ∧
  (16 < String.length s →
   String.length (abbreviateOCID s) = 15 ∧
   String.substring 0 6 (abbreviateOCID s) = String.substring 0 6 s ∧
   String.substring 9 6 (abbreviateOCID s)
     = String.substring (String.length s - 6) 6 s) ∧
  String.length (abbreviateOCID s) ≤ 16 ∧
  String.length (abbreviateOCID s) ≤ String.length s ∧
  abbreviateOCID (abbreviateOCID s) = abbreviateOCID s.
Proof.
  assert (16 < String.length s →
          String.length (abbreviateOCID s) = 15 ∧
          String.substring 0 6 (abbreviateOCID s) = String.substring 0 6 s ∧
          String.substring 9 6 (abbreviateOCID s)
            = String.substring (String.length s - 6) 6 s) as Hlong.
  { intros Hl. unfold abbreviateOCID. rewrite decide_False by lia.
    pose proof (length_substring 0 6 s ltac:(lia)) as H1.
    pose proof (length_substring (String.length s - 6) 6 s ltac:(lia)) as H2.
    set (a := String.substring 0 6 s) in *.
    set (b := String.substring (String.length s - 6) 6 s) in *.
    split_and!.
    - rewrite !length_append, H1, H2. reflexivity.
    - rewrite substring_append_l by lia. rewrite <- H1 at 1.
      apply substring_prefix_id.
    - clearbody a b.
      destruct a as [|a1 [|a2 [|a3 [|a4 [|a5 [|a6 [|]]]]]]]; try discriminate H1.
      change (String.substring 9 6 _) with (String.substring 0 6 b).
      rewrite <- H2 at 1. apply substring_prefix_id. }
  assert (String.length s ≤ 16 → abbreviateOCID s = s) as Hshort.
  { intros Hl. unfold abbreviateOCID. by rewrite decide_True. }
  split_and!; [done|done| | |].
  - destruct (decide (String.length s ≤ 16)) as [Hl|Hl].
    + by rewrite Hshort.
    + destruct Hlong as [-> _]; lia.
  - destruct (decide (String.length s ≤ 16)) as [Hl|Hl].
    + by rewrite Hshort.
    + destruct Hlong as [-> _]; lia.
  - destruct (decide (String.length s ≤ 16)) as [Hl|Hl].
    + by rewrite !Hshort.
    + destruct Hlong as [Hlen _]; [lia|].
      unfold abbreviateOCID at 1. rewrite decide_True; [done|]. lia.
Qed.

End abbreviate.

(** X30 on a tenancy id of twenty-two bytes. *)
Lemma abbreviateOCID_short_witness :
  String.length (cmd.abbreviateOCID "ocid1.tenancy.oc1..ten") = 15 ∧
  cmd.abbreviateOCID "ocid1.user" = "ocid1.user".
Proof.
  destruct (abbreviateOCID_short "ocid1.tenancy.oc1..ten") as (_ & Hlong & _).
  destruct (abbreviateOCID_short "ocid1.user") as (Hshort & _).
  split.
  - apply Hlong. vm_compute. lia.
  - apply Hshort. vm_compute. lia.
Defined.
